(** * The zlib / DEFLATE decompressor of [src/deflate.c]

    A shallow embedding of the decoder (bit stream reader, canonical Huffman
    table construction, Huffman symbol reader, the three block kinds, the
    LZ77 copy and the Adler-32 trailer) and the properties of it that the
    specification states.

    Conventions of the embedding:
    - machine integers are [Z]; where the C type can wrap in a reachable
      state the wrap-around is written out ([uint8], [uint16], [uint32]);
    - C arrays are [list Z], read with [load] and written with [store];
    - a function that takes a [deflate_bit_stream_t *] is a computation in
      the state-and-error monad [M] over [deflate_bit_stream];
    - the [libcerror] error of the first failing call is the [Error] of the
      model (the C code returns -1 and chains the callers' messages);
    - [while] loops whose trip count is not known beforehand run on fuel
      computed from their inputs; [Timeout] is the outcome of a loop that
      ran out of it and is shown not to happen. *)

From Stdlib Require Import ZArith Lia.
From stdpp Require Import list.

Local Open Scope Z_scope.

(** ** Machine integers and arrays *)

Definition uint8 (x : Z) : Z := x mod 2 ^ 8.
Definition uint16 (x : Z) : Z := x mod 2 ^ 16.
Definition uint32 (x : Z) : Z := x mod 2 ^ 32.

(** [SSIZE_MAX] of <limits.h> on the LP64 targets the tools are built for. *)
Definition SSIZE_MAX : Z := 2 ^ 63 - 1.

(** [a[ i ]]: every index the decoder computes is non-negative; an index
    past the end of the list reads 0. *)
Definition load (a : list Z) (i : Z) : Z := default 0 (a !! Z.to_nat i).

(** [a[ i ] = v]; a store past the end leaves the list as it is. *)
Definition store (a : list Z) (i : Z) (v : Z) : list Z := <[Z.to_nat i := v]> a.

Definition is_byte (b : Z) : Prop := 0 <= b < 256.

(** [byte_stream_copy_to_uint32_big_endian] of <byte_stream.h>. *)
Definition byte_stream_copy_to_uint32_big_endian (a : list Z) (i : Z) : Z :=
  Z.lor (Z.shiftl (Z.lor (Z.shiftl (Z.lor (Z.shiftl (load a i) 8)
    (load a (i + 1))) 8) (load a (i + 2))) 8) (load a (i + 3)).

(** [memory_copy( &dst[ dst_offset ], &src[ src_offset ], size )]. *)
Definition memory_copy (dst : list Z) (dst_offset : Z) (src : list Z)
    (src_offset : Z) (size : Z) : list Z :=
  take (Z.to_nat dst_offset) dst
    ++ take (Z.to_nat size) (drop (Z.to_nat src_offset) src)
    ++ drop (Z.to_nat (dst_offset + size)) dst.

(** ** Errors and outcomes *)

(** One constructor per error site of deflate.c (the text of the
    [libcerror_error_set] call is quoted). *)
Inductive deflate_error : Set :=
  | InvalidNumberOfBits      (* "invalid number of bits value exceeds maximum" *)
  | Truncated                (* "invalid byte stream value to small",
                                "invalid compressed data value too small" *)
  | InvalidNumberOfCodeSizes (* "invalid number of code sizes value out of bounds" *)
  | OutOfRange               (* "invalid symbol: .. code size: .. value out of bounds" *)
  | OverSubscribed           (* "code sizes are over-subscribed" *)
  | InvalidCodeOffset        (* "invalid symbol: .. code offset: .. value out of bounds" *)
  | EmptyTable               (* construct returned 0 where the caller requires 1 *)
  | BadCode                  (* "invalid huffman encoded value" *)
  | BadHeader                (* "invalid number of literal codes value out of bounds",
                                "invalid number of distance codes value out of bounds" *)
  | BadRepeat                (* "invalid code size index value out of bounds",
                                "invalid times to repeat value out of bounds" *)
  | BadSymbol                (* "invalid code value value out of bounds",
                                "invalid code value: .." *)
  | MissingEndOfBlock        (* "end-of-block code value missing in literal codes array" *)
  | BadDistance              (* "invalid compression offset value out of bounds" *)
  | OutputOverflow           (* "invalid uncompressed data value too small" *)
  | SizeExceedsMaximum       (* ".. size value exceeds maximum" *)
  | UnsupportedMethod        (* "unsupported compression method" *)
  | UnsupportedWindow        (* "unsupported compression window size" *)
  | InvalidBlockType         (* "unsupported block type" *)
  | LengthMismatch           (* "mismatch in block size" *)
  | ChecksumMismatch.        (* "checksum does not match" *)

(** What a call does: returns, fails with an error, runs into undefined
    behaviour of C (an array index outside its array), or runs out of fuel. *)
Inductive result (A : Type) : Type :=
  | Ok (a : A)
  | Error (e : deflate_error)
  | Undefined
  | Timeout.

Arguments Ok {A} a.
Arguments Error {A} e.
Arguments Undefined {A}.
Arguments Timeout {A}.

Definition result_bind {A B} (r : result A) (k : A -> result B) : result B :=
  match r with
  | Ok a => k a
  | Error e => Error e
  | Undefined => Undefined
  | Timeout => Timeout
  end.

(** ** The bit stream (struct deflate_bit_stream of deflate.h) *)

Record deflate_bit_stream : Type := {
  byte_stream : list Z;
  byte_stream_size : Z;
  byte_stream_offset : Z;
  bit_buffer : Z;
  bit_buffer_size : Z
}.

(** Computations on a bit stream. *)
Definition M (A : Type) : Type := deflate_bit_stream -> result (A * deflate_bit_stream).

Definition ret {A} (a : A) : M A := fun bs => Ok (a, bs).

Definition bind {A B} (m : M A) (k : A -> M B) : M B :=
  fun bs => result_bind (m bs) (fun p => k (fst p) (snd p)).

Definition fail {A} (e : deflate_error) : M A := fun _ => Error e.

Definition lift {A} (r : result A) : M A :=
  fun bs => result_bind r (fun a => Ok (a, bs)).

Notation "'let*' x ':=' m 'in' k" := (bind m (fun x => k))
  (at level 10, x pattern, m at level 100, k at level 200).

Definition set_bit_buffer (bs : deflate_bit_stream) (buffer size : Z) : deflate_bit_stream :=
  {| byte_stream := byte_stream bs;
     byte_stream_size := byte_stream_size bs;
     byte_stream_offset := byte_stream_offset bs;
     bit_buffer := buffer;
     bit_buffer_size := size |}.

Definition set_byte_stream_offset (bs : deflate_bit_stream) (offset : Z) : deflate_bit_stream :=
  {| byte_stream := byte_stream bs;
     byte_stream_size := byte_stream_size bs;
     byte_stream_offset := offset;
     bit_buffer := bit_buffer bs;
     bit_buffer_size := bit_buffer_size bs |}.

(** The four statements that move one byte into the bit buffer
    (deflate.c 97-101 and 387-391). The shift is a shift of a uint32_t. *)
Definition bit_stream_read_byte (bs : deflate_bit_stream) : deflate_bit_stream :=
  let safe_value_32bit := load (byte_stream bs) (byte_stream_offset bs) in
  let safe_value_32bit := uint32 (Z.shiftl safe_value_32bit (bit_buffer_size bs)) in
  {| byte_stream := byte_stream bs;
     byte_stream_size := byte_stream_size bs;
     byte_stream_offset := byte_stream_offset bs + 1;
     bit_buffer := Z.lor (bit_buffer bs) safe_value_32bit;
     bit_buffer_size := bit_buffer_size bs + 8 |}.

(** [while( bit_stream->bit_buffer_size < number_of_bits )] of
    deflate_bit_stream_get_value. *)
Fixpoint bit_stream_fill (fuel : nat) (number_of_bits : Z) (bs : deflate_bit_stream)
    : result deflate_bit_stream :=
  if bit_buffer_size bs <? number_of_bits then
    match fuel with
    | O => Timeout
    | S fuel' =>
        if byte_stream_size bs <=? byte_stream_offset bs then Error Truncated
        else bit_stream_fill fuel' number_of_bits (bit_stream_read_byte bs)
    end
  else Ok bs.

(** deflate.c 36-122. The count of the bit buffer grows by 8 with every byte,
    so at most 4 bytes are read for [number_of_bits <= 32]. *)
Definition deflate_bit_stream_get_value (number_of_bits : Z) : M Z := fun bs =>
  if 32 <? number_of_bits then Error InvalidNumberOfBits
  else if number_of_bits =? 0 then Ok (0, bs)
  else
    result_bind (bit_stream_fill 4 number_of_bits bs) (fun bs =>
      let safe_value_32bit := bit_buffer bs in
      if number_of_bits <? 32 then
        Ok (Z.land safe_value_32bit (Z.lnot (Z.shiftl 0xffffffff number_of_bits)),
            set_bit_buffer bs (Z.shiftr (bit_buffer bs) number_of_bits)
                              (bit_buffer_size bs - number_of_bits))
      else
        Ok (safe_value_32bit, set_bit_buffer bs 0 0)).

(** ** Huffman tables (struct deflate_huffman_table of deflate.h) *)

Record deflate_huffman_table : Type := {
  maximum_number_of_bits : Z;
  codes_array : list Z;        (* int codes_array[ 288 ] *)
  code_counts_array : list Z;  (* int code_counts_array[ 16 ] *)
  number_of_codes : Z
}.

(** The two non-error return values of deflate_huffman_table_construct:
    1 and 0 ("the table is empty"). *)
Inductive construct_status : Set := TableConstructed | TableEmpty.

(** deflate.c 219-239: the histogram of the code sizes. The guard compares
    with [number_of_codes]; the index of [code_counts_array] is checked
    against the 16 entries the array has. *)
Fixpoint construct_count_code_sizes (k : nat) (symbol : Z) (code_sizes_array : list Z)
    (table_number_of_codes : Z) (counts : list Z) : result (list Z) :=
  match k with
  | O => Ok counts
  | S k' =>
      let code_size := load code_sizes_array symbol in
      if table_number_of_codes <? code_size then Error OutOfRange
      else if 16 <=? code_size then Undefined
      else construct_count_code_sizes k' (symbol + 1) code_sizes_array
             table_number_of_codes (store counts code_size (load counts code_size + 1))
  end.

(** deflate.c 248-268: the over-subscription check. *)
Fixpoint construct_check_left (k : nat) (bit_index : Z) (counts : list Z) (left_value : Z)
    : result Z :=
  match k with
  | O => Ok left_value
  | S k' =>
      let left_value := Z.shiftl left_value 1 in
      let left_value := left_value - load counts bit_index in
      if left_value <? 0 then Error OverSubscribed
      else construct_check_left k' (bit_index + 1) counts left_value
  end.

(** deflate.c 274-280: the first position of every code size. *)
Fixpoint construct_code_offsets (k : nat) (bit_index : Z) (counts offsets : list Z) : list Z :=
  match k with
  | O => offsets
  | S k' =>
      construct_code_offsets k' (bit_index + 1) counts
        (store offsets (bit_index + 1) (load offsets bit_index + load counts bit_index))
  end.

(** deflate.c 281-309: the symbols sorted by code size. The index of
    [codes_array] is checked against the 288 entries the array has. *)
Fixpoint construct_place_symbols (k : nat) (symbol : Z) (code_sizes_array : list Z)
    (number_of_code_sizes : Z) (offsets codes : list Z) : result (list Z) :=
  match k with
  | O => Ok codes
  | S k' =>
      let code_size := load code_sizes_array symbol in
      if code_size =? 0 then
        construct_place_symbols k' (symbol + 1) code_sizes_array number_of_code_sizes
          offsets codes
      else
        let code_offset := load offsets code_size in
        if (code_offset <? 0) || (number_of_code_sizes <? code_offset)
        then Error InvalidCodeOffset
        else if 288 <=? code_offset then Undefined
        else construct_place_symbols k' (symbol + 1) code_sizes_array number_of_code_sizes
               (store offsets code_size (code_offset + 1)) (store codes code_offset symbol)
  end.

(** deflate.c 127-324. The table is an out parameter that the function
    overwrites as a whole, so the model returns it. *)
Definition deflate_huffman_table_construct (code_sizes_array : list Z)
    (number_of_code_sizes : Z) : result (construct_status * deflate_huffman_table) :=
  if number_of_code_sizes <? 0 then Error InvalidNumberOfCodeSizes
  else
    let table_maximum_number_of_bits := 15 in
    let table_number_of_codes := table_maximum_number_of_bits + 1 in
    result_bind
      (construct_count_code_sizes (Z.to_nat number_of_code_sizes) 0 code_sizes_array
         table_number_of_codes (replicate 16 0))
      (fun counts =>
         if load counts 0 =? number_of_code_sizes then
           Ok (TableEmpty,
               {| maximum_number_of_bits := table_maximum_number_of_bits;
                  codes_array := replicate 288 0;
                  code_counts_array := counts;
                  number_of_codes := table_number_of_codes |})
         else
           result_bind
             (construct_check_left (Z.to_nat table_maximum_number_of_bits) 1 counts 1)
             (fun _ =>
                let offsets :=
                  construct_code_offsets (Z.to_nat (table_maximum_number_of_bits - 1)) 1
                    counts (store (store (replicate 16 0) 0 0) 1 0) in
                result_bind
                  (construct_place_symbols (Z.to_nat number_of_code_sizes) 0
                     code_sizes_array number_of_code_sizes offsets (replicate 288 0))
                  (fun codes =>
                     Ok (TableConstructed,
                         {| maximum_number_of_bits := table_maximum_number_of_bits;
                            codes_array := codes;
                            code_counts_array := counts;
                            number_of_codes := table_number_of_codes |})))).

(** The callers' [deflate_huffman_table_construct( .. ) != 1]. *)
Definition construct_table (code_sizes_array : list Z) (number_of_code_sizes : Z)
    : result deflate_huffman_table :=
  result_bind (deflate_huffman_table_construct code_sizes_array number_of_code_sizes)
    (fun r =>
       match fst r with
       | TableConstructed => Ok (snd r)
       | TableEmpty => Error EmptyTable
       end).

(** ** The Huffman symbol reader *)

(** deflate.c 381-392: the bit buffer is filled as far as the bytes reach. *)
Fixpoint bit_stream_prefill (fuel : nat) (number_of_bits : Z) (bs : deflate_bit_stream)
    : result deflate_bit_stream :=
  if bit_buffer_size bs <? number_of_bits then
    match fuel with
    | O => Timeout
    | S fuel' =>
        if byte_stream_size bs <=? byte_stream_offset bs then Ok bs
        else bit_stream_prefill fuel' number_of_bits (bit_stream_read_byte bs)
    end
  else Ok bs.

(** deflate.c 403-424: the canonical decoding loop; [Some (symbol, bit_index)]
    when it leaves by [break]. *)
Fixpoint huffman_decode_bits (k : nat) (bit_index : Z) (table : deflate_huffman_table)
    (bit_buffer huffman_code first_huffman_code first_index : Z) : option (Z * Z) :=
  match k with
  | O => None
  | S k' =>
      let huffman_code := Z.shiftl huffman_code 1 in
      let huffman_code := Z.lor huffman_code (Z.land bit_buffer 1) in
      let bit_buffer := Z.shiftr bit_buffer 1 in
      let code_size_count := load (code_counts_array table) bit_index in
      if huffman_code - code_size_count <? first_huffman_code then
        Some (load (codes_array table) (first_index + (huffman_code - first_huffman_code)),
              bit_index)
      else
        let first_huffman_code := first_huffman_code + code_size_count in
        let first_huffman_code := Z.shiftl first_huffman_code 1 in
        let first_index := first_index + code_size_count in
        huffman_decode_bits k' (bit_index + 1) table bit_buffer huffman_code
          first_huffman_code first_index
  end.

(** deflate.c 329-444. *)
Definition deflate_bit_stream_get_huffman_encoded_value (table : deflate_huffman_table)
    : M Z := fun bs =>
  result_bind
    (bit_stream_prefill (Z.to_nat (maximum_number_of_bits table))
       (maximum_number_of_bits table) bs)
    (fun bs =>
       let number_of_bits :=
         if maximum_number_of_bits table <? bit_buffer_size bs
         then maximum_number_of_bits table else bit_buffer_size bs in
       match huffman_decode_bits (Z.to_nat number_of_bits) 1 table (bit_buffer bs) 0 0 0 with
       | Some (safe_value_32bit, bit_index) =>
           Ok (safe_value_32bit,
               set_bit_buffer bs (Z.shiftr (bit_buffer bs) bit_index)
                                 (bit_buffer_size bs - bit_index))
       | None => Error BadCode
       end).

(** ** Dynamic and fixed Huffman tables *)

Definition code_sizes_sequence : list Z :=
  [16; 17; 18; 0; 8; 7; 9; 6; 10; 5; 11; 4; 12; 3; 13; 2; 14; 1; 15].

(** deflate.c 541-572. *)
Fixpoint dynamic_read_code_sizes (k : nat) (code_size_index : Z) (code_size_array : list Z)
    : M (list Z) :=
  match k with
  | O => ret code_size_array
  | S k' =>
      let* code_size := deflate_bit_stream_get_value 3 in
      let code_size_sequence := load code_sizes_sequence code_size_index in
      dynamic_read_code_sizes k' (code_size_index + 1)
        (store code_size_array code_size_sequence (uint16 code_size))
  end.

(** deflate.c 573-586. *)
Fixpoint dynamic_clear_code_sizes (k : nat) (code_size_index : Z) (code_size_array : list Z)
    : list Z :=
  match k with
  | O => code_size_array
  | S k' =>
      let code_size_sequence := load code_sizes_sequence code_size_index in
      dynamic_clear_code_sizes k' (code_size_index + 1)
        (store code_size_array code_size_sequence 0)
  end.

(** deflate.c 743-748. *)
Fixpoint dynamic_repeat_code_size (times_to_repeat : nat) (code_size_index : Z)
    (code_size : Z) (code_size_array : list Z) : list Z :=
  match times_to_repeat with
  | O => code_size_array
  | S k' =>
      dynamic_repeat_code_size k' (code_size_index + 1) code_size
        (store code_size_array code_size_index (uint16 code_size))
  end.

(** deflate.c 611-749. The index grows with every round, so
    [number_of_code_sizes] rounds are enough. *)
Fixpoint dynamic_read_code_lengths (fuel : nat) (codes_table : deflate_huffman_table)
    (number_of_code_sizes code_size_index : Z) (code_size_array : list Z) : M (list Z) :=
  if code_size_index <? number_of_code_sizes then
    match fuel with
    | O => fun _ => Timeout
    | S fuel' =>
        let* symbol := deflate_bit_stream_get_huffman_encoded_value codes_table in
        if symbol <? 16 then
          dynamic_read_code_lengths fuel' codes_table number_of_code_sizes
            (code_size_index + 1) (store code_size_array code_size_index (uint16 symbol))
        else
          let* (code_size, times_to_repeat) :=
            if symbol =? 16 then
              if code_size_index =? 0 then fail BadRepeat
              else
                let code_size := load code_size_array (code_size_index - 1) in
                let* times_to_repeat := deflate_bit_stream_get_value 2 in
                ret (code_size, times_to_repeat + 3)
            else if symbol =? 17 then
              let* times_to_repeat := deflate_bit_stream_get_value 3 in
              ret (0, times_to_repeat + 3)
            else if symbol =? 18 then
              let* times_to_repeat := deflate_bit_stream_get_value 7 in
              ret (0, times_to_repeat + 11)
            else fail BadSymbol in
          if number_of_code_sizes <? code_size_index + times_to_repeat then fail BadRepeat
          else
            dynamic_read_code_lengths fuel' codes_table number_of_code_sizes
              (code_size_index + times_to_repeat)
              (dynamic_repeat_code_size (Z.to_nat times_to_repeat) code_size_index
                 code_size code_size_array)
    end
  else ret code_size_array.

(** deflate.c 449-792; returns the literals and the distances table. *)
Definition deflate_initialize_dynamic_huffman_tables
    : M (deflate_huffman_table * deflate_huffman_table) :=
  let* number_of_code_sizes := deflate_bit_stream_get_value 14 in
  let number_of_literal_codes := Z.land number_of_code_sizes 0x1f in
  let number_of_code_sizes := Z.shiftr number_of_code_sizes 5 in
  let number_of_distance_codes := Z.land number_of_code_sizes 0x1f in
  let number_of_code_sizes := Z.shiftr number_of_code_sizes 5 in
  let number_of_literal_codes := number_of_literal_codes + 257 in
  if 286 <? number_of_literal_codes then fail BadHeader
  else
    let number_of_distance_codes := number_of_distance_codes + 1 in
    if 30 <? number_of_distance_codes then fail BadHeader
    else
      let number_of_code_sizes := number_of_code_sizes + 4 in
      let* code_size_array :=
        dynamic_read_code_sizes (Z.to_nat number_of_code_sizes) 0 (replicate 316 0) in
      let code_size_array :=
        dynamic_clear_code_sizes (Z.to_nat (19 - number_of_code_sizes))
          number_of_code_sizes code_size_array in
      let* codes_table := lift (construct_table code_size_array 19) in
      let number_of_code_sizes := number_of_literal_codes + number_of_distance_codes in
      let* code_size_array :=
        dynamic_read_code_lengths (Z.to_nat number_of_code_sizes) codes_table
          number_of_code_sizes 0 code_size_array in
      if load code_size_array 256 =? 0 then fail MissingEndOfBlock
      else
        let* literals_table :=
          lift (construct_table code_size_array number_of_literal_codes) in
        let* distances_table :=
          lift (construct_table (drop (Z.to_nat number_of_literal_codes) code_size_array)
                  number_of_distance_codes) in
        ret (literals_table, distances_table).

(** deflate.c 807-831. *)
Definition fixed_code_size (symbol : Z) : Z :=
  if symbol <? 144 then 8
  else if symbol <? 256 then 9
  else if symbol <? 280 then 7
  else if symbol <? 288 then 8
  else 5.

(** deflate.c 797-863. *)
Definition deflate_initialize_fixed_huffman_tables
    : result (deflate_huffman_table * deflate_huffman_table) :=
  let code_size_array := map (fun symbol => fixed_code_size (Z.of_nat symbol)) (seq 0 318) in
  result_bind (construct_table code_size_array 288) (fun literals_table =>
  result_bind (construct_table (drop 288 code_size_array) 30) (fun distances_table =>
  Ok (literals_table, distances_table))).

(** ** Decoding a Huffman compressed block *)

Definition literal_codes_base : list Z :=
  [3; 4; 5; 6; 7; 8; 9; 10; 11; 13; 15; 17; 19; 23; 27; 31;
   35; 43; 51; 59; 67; 83; 99; 115; 131; 163; 195; 227; 258].

Definition literal_codes_number_of_extra_bits : list Z :=
  [0; 0; 0; 0; 0; 0; 0; 0; 1; 1; 1; 1; 2; 2; 2; 2;
   3; 3; 3; 3; 4; 4; 4; 4; 5; 5; 5; 5; 0].

Definition distance_codes_base : list Z :=
  [1; 2; 3; 4; 5; 7; 9; 13; 17; 25; 33; 49; 65; 97; 129; 193;
   257; 385; 513; 769; 1025; 1537; 2049; 3073; 4097; 6145; 8193;
   12289; 16385; 24577].

Definition distance_codes_number_of_extra_bits : list Z :=
  [0; 0; 0; 0; 1; 1; 2; 2; 3; 3; 4; 4; 5; 5; 6; 6;
   7; 7; 8; 8; 9; 9; 10; 10; 11; 11; 12; 12; 13; 13].

(** deflate.c 1104-1110: the byte by byte copy of a match. *)
Fixpoint copy_match (compression_size : nat) (compression_offset : Z)
    (uncompressed_data : list Z) (data_offset : Z) : list Z * Z :=
  match compression_size with
  | O => (uncompressed_data, data_offset)
  | S k =>
      copy_match k compression_offset
        (store uncompressed_data data_offset
           (load uncompressed_data (data_offset - compression_offset)))
        (data_offset + 1)
  end.

(** deflate.c 1082-1110: what is done with a decoded length / distance pair. *)
Definition decode_match (compression_size compression_offset : Z)
    (uncompressed_data : list Z) (uncompressed_data_size data_offset : Z)
    : result (list Z * Z) :=
  if data_offset <? compression_offset then Error BadDistance
  else if uncompressed_data_size <? data_offset + compression_size then Error OutputOverflow
  else Ok (copy_match (Z.to_nat compression_size) compression_offset
             uncompressed_data data_offset).

(** deflate.c 937-1125: the do .. while loop. Note that [code_value] holds
    the distance symbol when the loop condition is tested after a match.
    The distance symbol is the index of the two arrays of 30 entries
    (deflate.c 1034 and 1063) and is checked against them. *)
Fixpoint decode_huffman_loop (fuel : nat) (literals_table distances_table : deflate_huffman_table)
    (uncompressed_data : list Z) (uncompressed_data_size data_offset : Z)
    : M (list Z * Z) :=
  match fuel with
  | O => fun _ => Timeout
  | S fuel' =>
      let* code_value := deflate_bit_stream_get_huffman_encoded_value literals_table in
      if code_value <? 256 then
        if uncompressed_data_size <=? data_offset then fail OutputOverflow
        else
          decode_huffman_loop fuel' literals_table distances_table
            (store uncompressed_data data_offset (uint8 code_value))
            uncompressed_data_size (data_offset + 1)
      else if (256 <? code_value) && (code_value <? 286) then
        let code_value := code_value - 257 in
        let number_of_extra_bits := load literal_codes_number_of_extra_bits code_value in
        let* extra_bits := deflate_bit_stream_get_value (uint8 number_of_extra_bits) in
        let compression_size :=
          uint16 (load literal_codes_base code_value + uint16 extra_bits) in
        let* code_value := deflate_bit_stream_get_huffman_encoded_value distances_table in
        if (code_value <? 0) || (30 <=? code_value) then fun _ => Undefined
        else
          let number_of_extra_bits := load distance_codes_number_of_extra_bits code_value in
          let* extra_bits := deflate_bit_stream_get_value (uint8 number_of_extra_bits) in
          let compression_offset :=
            uint16 (load distance_codes_base code_value + uint16 extra_bits) in
          let* (uncompressed_data, data_offset) :=
            lift (decode_match compression_size compression_offset uncompressed_data
                    uncompressed_data_size data_offset) in
          if code_value =? 256 then ret (uncompressed_data, data_offset)
          else
            decode_huffman_loop fuel' literals_table distances_table
              uncompressed_data uncompressed_data_size data_offset
      else if negb (code_value =? 256) then fail BadSymbol
      else ret (uncompressed_data, data_offset)
  end.

(** The bits that a bit stream can still deliver. *)
Definition bits_remaining (bs : deflate_bit_stream) : Z :=
  8 * (byte_stream_size bs - byte_stream_offset bs) + bit_buffer_size bs.

(** deflate.c 868-1130. Every round of the loop takes at least one bit. *)
Definition deflate_decode_huffman (literals_table distances_table : deflate_huffman_table)
    (uncompressed_data : list Z) (uncompressed_data_size uncompressed_data_offset : Z)
    : M (list Z * Z) := fun bs =>
  if SSIZE_MAX <? uncompressed_data_size then Error SizeExceedsMaximum
  else
    decode_huffman_loop (S (Z.to_nat (bits_remaining bs))) literals_table distances_table
      uncompressed_data uncompressed_data_size uncompressed_data_offset bs.

(** ** Adler-32 *)

(** [lower_word += buffer[ buffer_offset++ ]; upper_word += lower_word;] on
    uint32_t words. *)
Definition adler32_byte (buffer : list Z) (st : Z * Z * Z) : Z * Z * Z :=
  let '(lower_word, upper_word, buffer_offset) := st in
  let lower_word := uint32 (lower_word + load buffer buffer_offset) in
  let upper_word := uint32 (upper_word + lower_word) in
  (lower_word, upper_word, buffer_offset + 1).

(** The 16 times unrolled body of the loops. *)
Definition adler32_16_bytes (buffer : list Z) (st : Z * Z * Z) : Z * Z * Z :=
  Nat.iter 16 (adler32_byte buffer) st.

(** One round of "Optimized equivalent of: word %= 0xfff1". *)
Definition adler32_fold (word : Z) : Z :=
  let value_32bit := Z.shiftr word 16 in
  let word := Z.land word 0xffff in
  uint32 (word + uint32 (uint32 (Z.shiftl value_32bit 4) - value_32bit)).

Definition adler32_modulo (word : Z) : Z :=
  let word := adler32_fold word in
  let word := if 65521 <? word then adler32_fold word else word in
  if 65521 <=? word then uint32 (word - 65521) else word.

(** deflate.c 1186-1278. *)
Fixpoint adler32_blocks (fuel : nat) (buffer : list Z) (size : Z) (st : Z * Z * Z)
    : result (Z * (Z * Z * Z)) :=
  if 0x15b0 <=? size then
    match fuel with
    | O => Timeout
    | S fuel' =>
        let '(lower_word, upper_word, buffer_offset) :=
          Nat.iter 347 (adler32_16_bytes buffer) st in
        adler32_blocks fuel' buffer (size - 0x15b0)
          (adler32_modulo lower_word, adler32_modulo upper_word, buffer_offset)
    end
  else Ok (size, st).

(** deflate.c 1281-1332. *)
Fixpoint adler32_tail_16 (fuel : nat) (buffer : list Z) (size : Z) (st : Z * Z * Z)
    : result (Z * (Z * Z * Z)) :=
  if 16 <? size then
    match fuel with
    | O => Timeout
    | S fuel' => adler32_tail_16 fuel' buffer (size - 16) (adler32_16_bytes buffer st)
    end
  else Ok (size, st).

(** deflate.c 1333-1339. *)
Fixpoint adler32_tail_1 (fuel : nat) (buffer : list Z) (size : Z) (st : Z * Z * Z)
    : result (Z * Z * Z) :=
  if 0 <? size then
    match fuel with
    | O => Timeout
    | S fuel' => adler32_tail_1 fuel' buffer (size - 1) (adler32_byte buffer st)
    end
  else Ok st.

(** deflate.c 1136-1378. Every round of a loop lowers [size]. *)
Definition deflate_calculate_adler32 (buffer : list Z) (size : Z) (initial_value : Z)
    : result Z :=
  if SSIZE_MAX <? size then Error SizeExceedsMaximum
  else
    let fuel := Z.to_nat size in
    let lower_word := Z.land initial_value 0xffff in
    let upper_word := Z.land (Z.shiftr initial_value 16) 0xffff in
    result_bind (adler32_blocks fuel buffer size (lower_word, upper_word, 0))
      (fun '(size, st) =>
         result_bind
           (if 0 <? size then
              result_bind (adler32_tail_16 fuel buffer size st) (fun '(size, st) =>
              result_bind (adler32_tail_1 fuel buffer size st)
                (fun '(lower_word, upper_word, buffer_offset) =>
                   Ok (adler32_modulo lower_word, adler32_modulo upper_word)))
            else Ok (fst (fst st), snd (fst st)))
           (fun '(lower_word, upper_word) =>
              Ok (Z.lor (uint32 (Z.shiftl upper_word 16)) lower_word))).

(** ** The zlib stream *)

(** deflate.c 1807-1936: an uncompressed (stored) block. [compressed_data] of
    the C code is the array the bit stream reads, [byte_stream]. *)
Definition decompress_stored_block (uncompressed_data : list Z)
    (uncompressed_data_size uncompressed_data_offset : Z) : M (list Z * Z) := fun bs =>
  (let skip_bits := Z.land (bit_buffer_size bs) 0x07 in
   let* _ := if 0 <? skip_bits then deflate_bit_stream_get_value skip_bits else ret 0 in
   let* block_size := deflate_bit_stream_get_value 32 in
   let block_size_copy := Z.shiftr block_size 16 in
   let block_size := Z.land block_size 0xffff in
   let block_size_copy := Z.lxor (Z.shiftr block_size 16) 0xffff in
   if negb (block_size =? block_size_copy) then fail LengthMismatch
   else if block_size =? 0 then ret (uncompressed_data, uncompressed_data_offset)
   else fun bs =>
     if byte_stream_size bs - byte_stream_offset bs <? block_size then Error Truncated
     else if uncompressed_data_size - uncompressed_data_offset <? block_size
     then Error OutputOverflow
     else
       Ok ((memory_copy uncompressed_data uncompressed_data_offset
              (byte_stream bs) (byte_stream_offset bs) block_size,
            uncompressed_data_offset + block_size),
           set_bit_buffer
             (set_byte_stream_offset bs (byte_stream_offset bs + block_size)) 0 0)) bs.

(** deflate.c 1743-2015: the loop over the blocks. *)
Fixpoint decompress_blocks (fuel : nat)
    (fixed_huffman_literals_table fixed_huffman_distances_table : deflate_huffman_table)
    (uncompressed_data : list Z) (uncompressed_data_size uncompressed_data_offset : Z)
    : M (list Z * Z) := fun bs =>
  if byte_stream_offset bs <? byte_stream_size bs then
    match fuel with
    | O => Timeout
    | S fuel' =>
        (let* value_32bit := deflate_bit_stream_get_value 3 in
         let last_block_flag := uint8 (Z.land value_32bit 1) in
         let value_32bit := Z.shiftr value_32bit 1 in
         let block_type := uint8 value_32bit in
         let* (uncompressed_data, uncompressed_data_offset) :=
           if block_type =? 0 then
             decompress_stored_block uncompressed_data uncompressed_data_size
               uncompressed_data_offset
           else if block_type =? 1 then
             deflate_decode_huffman fixed_huffman_literals_table
               fixed_huffman_distances_table uncompressed_data uncompressed_data_size
               uncompressed_data_offset
           else if block_type =? 2 then
             let* (dynamic_huffman_literals_table, dynamic_huffman_distances_table) :=
               deflate_initialize_dynamic_huffman_tables in
             deflate_decode_huffman dynamic_huffman_literals_table
               dynamic_huffman_distances_table uncompressed_data uncompressed_data_size
               uncompressed_data_offset
           else fail InvalidBlockType in
         if negb (last_block_flag =? 0) then ret (uncompressed_data, uncompressed_data_offset)
         else
           decompress_blocks fuel' fixed_huffman_literals_table
             fixed_huffman_distances_table uncompressed_data uncompressed_data_size
             uncompressed_data_offset) bs
    end
  else Ok ((uncompressed_data, uncompressed_data_offset), bs).

(** deflate.c 2018-2022: the bytes still whole in the bit buffer are given back. *)
Fixpoint trailer_rewind (fuel : nat) (bs : deflate_bit_stream) : result deflate_bit_stream :=
  if 8 <=? bit_buffer_size bs then
    match fuel with
    | O => Timeout
    | S fuel' =>
        trailer_rewind fuel'
          {| byte_stream := byte_stream bs;
             byte_stream_size := byte_stream_size bs;
             byte_stream_offset := byte_stream_offset bs - 1;
             bit_buffer := bit_buffer bs;
             bit_buffer_size := bit_buffer_size bs - 8 |}
    end
  else Ok bs.

(** deflate.c 2016-2071: the Adler-32 trailer and the result. *)
Definition decompress_trailer (uncompressed_data : list Z) (uncompressed_data_offset : Z)
    (bs : deflate_bit_stream) : result (list Z * Z) :=
  if 4 <=? byte_stream_size bs - byte_stream_offset bs then
    result_bind (trailer_rewind (Z.to_nat (bit_buffer_size bs)) bs) (fun bs =>
    let stored_checksum :=
      byte_stream_copy_to_uint32_big_endian (byte_stream bs) (byte_stream_offset bs) in
    result_bind (deflate_calculate_adler32 uncompressed_data uncompressed_data_offset 1)
      (fun calculated_checksum =>
         if negb (stored_checksum =? calculated_checksum) then Error ChecksumMismatch
         else Ok (uncompressed_data, uncompressed_data_offset)))
  else Ok (uncompressed_data, uncompressed_data_offset).

(** deflate.c 1710-2071: what follows the header. Every block takes at least
    the 3 bits of its header. *)
Definition decompress_payload (compressed_data : list Z)
    (compressed_data_size compressed_data_offset : Z)
    (uncompressed_data : list Z) (uncompressed_data_size : Z) : result (list Z * Z) :=
  if compressed_data_size <=? compressed_data_offset then Error Truncated
  else
    let bit_stream :=
      {| byte_stream := compressed_data;
         byte_stream_size := compressed_data_size;
         byte_stream_offset := compressed_data_offset;
         bit_buffer := 0;
         bit_buffer_size := 0 |} in
    result_bind deflate_initialize_fixed_huffman_tables
      (fun '(fixed_huffman_literals_table, fixed_huffman_distances_table) =>
         result_bind
           (decompress_blocks (S (Z.to_nat (bits_remaining bit_stream)))
              fixed_huffman_literals_table fixed_huffman_distances_table
              uncompressed_data uncompressed_data_size 0 bit_stream)
           (fun '((uncompressed_data, uncompressed_data_offset), bit_stream) =>
              decompress_trailer uncompressed_data uncompressed_data_offset bit_stream)).

(** deflate.c 1571-1704: the zlib header. Returns the preset dictionary
    identifier and the offset and size that the header leaves behind. *)
Definition decompress_header (compressed_data : list Z) (compressed_data_size : Z)
    : result (Z * Z * Z) :=
  let compressed_data_offset := 0 in
  if compressed_data_size <=? compressed_data_offset then Error Truncated
  else
    let compression_method := Z.land (load compressed_data 0) 0x0f in
    let compression_information := Z.shiftr (load compressed_data 0) 4 in
    result_bind
      (if negb (Z.land (load compressed_data 1) 0x20 =? 0) then
         if compressed_data_size <? 6 then Error Truncated
         else
           Ok (byte_stream_copy_to_uint32_big_endian compressed_data 2,
               compressed_data_offset + 4, compressed_data_size - 4)
       else Ok (0, compressed_data_offset, compressed_data_size))
      (fun '(preset_dictionary_identifier, compressed_data_offset, compressed_data_size) =>
         let compressed_data_offset := compressed_data_offset + 2 in
         let compressed_data_size := compressed_data_size - 2 in
         if negb (compression_method =? 8) then Error UnsupportedMethod
         else
           let compression_window_bits := uint8 (compression_information + 8) in
           let compression_window_size := uint32 (Z.shiftl 1 compression_window_bits) in
           if 32768 <? compression_window_size then Error UnsupportedWindow
           else Ok (preset_dictionary_identifier, compressed_data_offset,
                    compressed_data_size)).

(** deflate.c 1465-2072. [uncompressed_data_size] is the capacity of the
    output buffer on entry; the size written is returned with the buffer. *)
Definition deflate_decompress (compressed_data : list Z) (compressed_data_size : Z)
    (uncompressed_data : list Z) (uncompressed_data_size : Z) : result (list Z * Z) :=
  if compressed_data_size <? 2 then Error Truncated
  else if SSIZE_MAX <? compressed_data_size then Error SizeExceedsMaximum
  else if SSIZE_MAX <? uncompressed_data_size then Error SizeExceedsMaximum
  else
    result_bind (decompress_header compressed_data compressed_data_size)
      (fun '(preset_dictionary_identifier, compressed_data_offset, compressed_data_size) =>
         decompress_payload compressed_data compressed_data_size compressed_data_offset
           uncompressed_data uncompressed_data_size).

(** A call as zdecompress.c makes it: the whole input and a fresh output
    buffer of [capacity] bytes (16 times the input size in the tool); what is
    returned is the part of the buffer that the call reports as written. *)
Definition decompress (compressed_data : list Z) (capacity : nat) : result (list Z) :=
  result_bind
    (deflate_decompress compressed_data (Z.of_nat (length compressed_data))
       (replicate capacity 0) (Z.of_nat capacity))
    (fun '(uncompressed_data, uncompressed_data_size) =>
       Ok (take (Z.to_nat uncompressed_data_size) uncompressed_data)).

(** ** The Adler-32 of the specification *)

(** "For each byte b: lo = (lo + b) mod 65521; hi = (hi + lo) mod 65521". *)
Fixpoint adler32_reference_loop (data : list Z) (lo hi : Z) : Z * Z :=
  match data with
  | [] => (lo, hi)
  | b :: data =>
      let lo := (lo + b) mod 65521 in
      let hi := (hi + lo) mod 65521 in
      adler32_reference_loop data lo hi
  end.

(** "Seeded to lo = 1, hi = 0 .. Checksum = (hi << 16) | lo". *)
Definition adler32_reference (data : list Z) : Z :=
  let '(lo, hi) := adler32_reference_loop data 1 0 in
  Z.lor (Z.shiftl hi 16) lo.

(** The state [(lower_word, upper_word, buffer_offset)] of the C loops after
    [off] bytes of [buffer] agrees with the reference. *)
Definition adler32_agrees (buffer : list Z) (off : Z) (st : Z * Z * Z) : Prop :=
  let '(lo, hi, off') := st in
  off' = off /\ 0 <= lo < 65521 /\ 0 <= hi < 65521 /\
  adler32_reference_loop (take (Z.to_nat off) buffer) 1 0 = (lo, hi).

(** ** The bit stream seen as a sequence of bits *)

(** A bit stream between two calls (section 3 of the specification): the
    count is that of a 32 bit register, "bits beyond bit_count in the
    register are zero", and the offset lies inside the byte stream. *)
Definition bit_stream_valid (bs : deflate_bit_stream) : Prop :=
  0 <= bit_buffer_size bs <= 32 /\
  0 <= bit_buffer bs < 2 ^ bit_buffer_size bs /\
  0 <= byte_stream_offset bs <= byte_stream_size bs /\
  byte_stream_size bs <= Z.of_nat (length (byte_stream bs)) /\
  Forall is_byte (byte_stream bs).

(** The bit that the stream delivers [i] bits from now: first the bits of
    the bit buffer from bit 0 on, then the bytes from [byte_stream_offset]
    on, each from bit 0 on. *)
Definition stream_bit (bs : deflate_bit_stream) (i : Z) : bool :=
  if i <? bit_buffer_size bs then Z.testbit (bit_buffer bs) i
  else
    let j := i - bit_buffer_size bs in
    Z.testbit (load (byte_stream bs) (byte_stream_offset bs + j / 8)) (j mod 8).

(** What the loops that fill the bit buffer keep: the count may pass 32 for
    a moment, the register has no bit at or above the count or above 32. *)
Definition bit_buffer_clean (bs : deflate_bit_stream) : Prop :=
  0 <= bit_buffer_size bs /\
  (forall i, bit_buffer_size bs <= i \/ 32 <= i -> Z.testbit (bit_buffer bs) i = false) /\
  Forall is_byte (byte_stream bs).

(** ** The canonical code of the specification (section 4.2) *)

(** "count[ len ]": the number of code lengths equal to [len]. *)
Fixpoint code_size_count (code_sizes : list Z) (len : Z) : Z :=
  match code_sizes with
  | [] => 0
  | s :: rest => (if s =? len then 1 else 0) + code_size_count rest len
  end.

(** "left = 2 * left - count[ len ] from left = 1", after [len] steps. *)
Fixpoint left_after (code_sizes : list Z) (len : nat) : Z :=
  match len with
  | O => 1
  | S k => 2 * left_after code_sizes k - code_size_count code_sizes (Z.of_nat (S k))
  end.

(** "if left < 0 at any step" of "len = 1..=15". *)
Definition over_subscribed (code_sizes : list Z) : Prop :=
  exists len : nat, (1 <= len <= 15)%nat /\ left_after code_sizes len < 0.

(** "offset[ len ]": the number of symbols with a shorter code
    ("offset[ 1 ] = 0, offset[ len + 1 ] = offset[ len ] + count[ len ]"). *)
Fixpoint shorter_codes (code_sizes : list Z) (len : Z) : Z :=
  match code_sizes with
  | [] => 0
  | s :: rest => (if (0 <? s) && (s <? len) then 1 else 0) + shorter_codes rest len
  end.

(** The place of a symbol among the "symbols sorted first by code length,
    then by original symbol index": after the symbols with a shorter code
    and the earlier symbols with a code of the same length. *)
Definition canonical_index (code_sizes : list Z) (symbol : nat) : Z :=
  let len := load code_sizes (Z.of_nat symbol) in
  shorter_codes code_sizes len + code_size_count (take symbol code_sizes) len.

(** ** Two runs on inputs that differ past the end of the bit stream *)

(** Two bit streams in the same state whose bytes agree below
    [byte_stream_size]. *)
Definition same_visible (bs bs' : deflate_bit_stream) : Prop :=
  byte_stream_size bs' = byte_stream_size bs /\
  byte_stream_offset bs' = byte_stream_offset bs /\
  bit_buffer bs' = bit_buffer bs /\
  bit_buffer_size bs' = bit_buffer_size bs /\
  0 <= byte_stream_offset bs /\
  length (byte_stream bs') = length (byte_stream bs) /\
  forall j : nat, Z.of_nat j < byte_stream_size bs ->
    byte_stream bs' !! j = byte_stream bs !! j.

(** Two outcomes that are the same up to a relation on what is returned. *)
Definition same_result {A} (R : A -> A -> Prop) (r r' : result A) : Prop :=
  match r, r' with
  | Ok a, Ok a' => R a a'
  | Error e, Error e' => e = e'
  | Undefined, Undefined => True
  | Timeout, Timeout => True
  | _, _ => False
  end.

Definition same_value_and_visible {A} (p p' : A * deflate_bit_stream) : Prop :=
  fst p = fst p' /\ same_visible (snd p) (snd p').

(** A computation that reads the byte stream below [byte_stream_size] only. *)
Definition respects {A} (m : M A) : Prop :=
  forall bs bs', same_visible bs bs' ->
    same_result same_value_and_visible (m bs) (m bs').

(** ** Concrete streams *)

(** [zlib.compress(b"A", 0)]: header 78 01, one final stored block with
    LEN = 1 and NLEN = 0xFFFE, and the Adler-32 of "A". *)
Definition stream_stored_A : list Z :=
  [0x78; 0x01; 0x01; 0x01; 0x00; 0xFE; 0xFF; 0x41; 0x00; 0x42; 0x00; 0x42].

(** The bytes 00..FF in one stored block (LEN = 256, NLEN = 0xFEFF) with
    their Adler-32 0xADF67F81. *)
Definition stream_stored_256 : list Z :=
  [0x78; 0x01; 0x01; 0x00; 0x01; 0xFF; 0xFE]
    ++ map Z.of_nat (seq 0 256) ++ [0xAD; 0xF6; 0x7F; 0x81].

(** Scenario 2 of the specification: "A" in a fixed Huffman block. *)
Definition stream_fixed_A : list Z :=
  [0x78; 0x9C; 0x73; 0x04; 0x00; 0x00; 0x42; 0x00; 0x42].

(** The same stream with the last byte of the Adler-32 flipped. *)
Definition stream_fixed_A_bad_adler : list Z :=
  [0x78; 0x9C; 0x73; 0x04; 0x00; 0x00; 0x42; 0x00; 0xBD].

(** A stream of the empty message written with a preset dictionary
    (header 78 BB, identifier 0x062C0215, an empty fixed Huffman block, the
    Adler-32 1), followed by two more bytes. *)
Definition stream_preset_dictionary : list Z :=
  [0x78; 0xBB; 0x06; 0x2C; 0x02; 0x15; 0x03; 0x00; 0x00; 0x00; 0x00; 0x01; 0x00; 0x00].

(** ** What the decoder does on every input *)

(** What every call keeps of a bit stream: the register is a uint32_t, the
    count is not negative and the offset is not past the size. *)
Definition bit_stream_wf (bs : deflate_bit_stream) : Prop :=
  0 <= bit_buffer bs < 2 ^ 32 /\ 0 <= bit_buffer_size bs /\
  byte_stream_offset bs <= byte_stream_size bs.

(** A bit stream that can deliver at most [b] more bits. *)
Definition budget (b : Z) (bs : deflate_bit_stream) : Prop :=
  bit_stream_wf bs /\ bits_remaining bs <= b.

(** An outcome that the C code has: a value in [Q] or an error; no array
    is indexed outside its bounds and no loop of the model is out of fuel. *)
Definition returns {A} (r : result A) (Q : A -> Prop) : Prop :=
  match r with
  | Ok a => Q a
  | Error _ => True
  | Undefined => False
  | Timeout => False
  end.

(** From a state in [P] the computation has such an outcome, with the value
    and the state in [Q] when it returns. *)
Definition triple {A} (P : deflate_bit_stream -> Prop) (m : M A)
    (Q : A -> deflate_bit_stream -> Prop) : Prop :=
  forall bs, P bs -> returns (m bs) (fun p => Q (fst p) (snd p)).

(** Code sizes that are code sizes: 0..15. *)
Definition code_sizes_wf (code_size_array : list Z) : Prop :=
  Forall (fun s => 0 <= s <= 15) code_size_array.

(** A table whose symbols are not negative. *)
Definition table_wf (table : deflate_huffman_table) : Prop :=
  Forall (fun c => 0 <= c) (codes_array table).

(** A table whose symbols are below [n]. *)
Definition table_below (n : Z) (table : deflate_huffman_table) : Prop :=
  Forall (fun c => 0 <= c < n) (codes_array table).

(** ** Two runs on inputs that differ before the first byte of the blocks *)

(** Two bit streams in the same state whose bytes agree from [lo] on, below
    [byte_stream_size]; the bits of the bit buffer came from those bytes. *)
Definition same_window (lo : Z) (bs bs' : deflate_bit_stream) : Prop :=
  byte_stream_size bs' = byte_stream_size bs /\
  byte_stream_offset bs' = byte_stream_offset bs /\
  bit_buffer bs' = bit_buffer bs /\
  bit_buffer_size bs' = bit_buffer_size bs /\
  0 <= lo /\ 0 <= bit_buffer_size bs /\
  8 * lo + bit_buffer_size bs <= 8 * byte_stream_offset bs /\
  forall j : nat, lo <= Z.of_nat j < byte_stream_size bs ->
    byte_stream bs' !! j = byte_stream bs !! j.

Definition same_value_and_window {A} (lo : Z) (p p' : A * deflate_bit_stream) : Prop :=
  fst p = fst p' /\ same_window lo (snd p) (snd p').

(** A computation that reads the byte stream from [lo] on only, below
    [byte_stream_size]. *)
Definition keeps_window {A} (lo : Z) (m : M A) : Prop :=
  forall bs bs', same_window lo bs bs' ->
    same_result (same_value_and_window lo) (m bs) (m bs').

(** ** The canonical Huffman code (RFC 1951, 3.2.2) *)

(** "next_code[ bits ]", the smallest code of every code length: "code =
    (code + bl_count[ bits - 1 ]) << 1" from "code = 0" with
    "bl_count[ 0 ] = 0". *)
Fixpoint first_code (code_sizes : list Z) (len : nat) : Z :=
  match len with
  | O => 0
  | S k =>
      match k with
      | O => 0
      | S _ => 2 * (first_code code_sizes k + code_size_count code_sizes (Z.of_nat k))
      end
  end.

(** The code of a symbol: the codes of one length are consecutive values in
    the order of the symbols. *)
Definition canonical_code (code_sizes : list Z) (symbol : nat) : Z :=
  let len := load code_sizes (Z.of_nat symbol) in
  first_code code_sizes (Z.to_nat len) + code_size_count (take symbol code_sizes) len.

(** The first [n] bits of a sequence of bits as a number, the first bit the
    most significant one ("Huffman codes are packed starting with the
    most-significant bit of the code"). *)
Fixpoint code_of_bits (bit : Z -> bool) (n : nat) : Z :=
  match n with
  | O => 0
  | S k => 2 * code_of_bits bit k + Z.b2z (bit (Z.of_nat k))
  end.

(** The next [n] bits of a bit stream as a code. *)
Definition stream_code (bs : deflate_bit_stream) (n : nat) : Z :=
  code_of_bits (stream_bit bs) n.

(** A table that deflate_huffman_table_construct has made of all of
    [code_sizes] (return value 1). *)
Definition table_of (code_sizes : list Z) (table : deflate_huffman_table) : Prop :=
  deflate_huffman_table_construct code_sizes (Z.of_nat (length code_sizes))
    = Ok (TableConstructed, table).

(** ** The fixed Huffman code (RFC 1951, 3.2.6) *)

(** The code of a literal/length symbol as RFC 1951 3.2.6 tabulates it:
    00110000.. for 0..143, 110010000.. for 144..255, 0000000.. for 256..279
    and 11000000.. for 280..287; its length is [fixed_code_size]. The code
    of a distance symbol is the symbol itself, in 5 bits. *)
Definition fixed_literal_code (symbol : Z) : Z :=
  if symbol <? 144 then 0x30 + symbol
  else if symbol <? 256 then 0x190 + (symbol - 144)
  else if symbol <? 280 then symbol - 256
  else 0xC0 + (symbol - 280).

(** The code sizes that deflate_initialize_fixed_huffman_tables gives to the
    first 288 symbols, the literal/length ones (deflate.c 807-831). *)
Definition fixed_literal_code_sizes : list Z :=
  map (fun symbol => fixed_code_size (Z.of_nat symbol)) (seq 0 288).

(** ** The output buffer *)

(** A result, when there is one, is in [Q]. *)
Definition ensures {A} (r : result A) (Q : A -> Prop) : Prop :=
  match r with
  | Ok a => Q a
  | _ => True
  end.

(** A bit stream that reads the [size] bytes of [data]. *)
Definition stream_over (data : list Z) (size : Z) (bs : deflate_bit_stream) : Prop :=
  byte_stream bs = data /\ byte_stream_size bs = size /\ 0 <= byte_stream_offset bs.

(** A computation on a stream over [data] leaves a stream over [data], and
    a value in [Q]. *)
Definition guards {A} (data : list Z) (size : Z) (m : M A) (Q : A -> Prop) : Prop :=
  forall bs, stream_over data size bs ->
    ensures (m bs) (fun p => Q (fst p) /\ stream_over data size (snd p)).

(** What a step of the decoder may do to the output buffer when it starts
    at [uncompressed_data_offset]: the buffer keeps its length, the new
    offset is within the capacity [uncompressed_data_size], and no byte
    below the old offset or from the new offset on has changed. *)
Definition output_confined (uncompressed_data : list Z)
    (uncompressed_data_size uncompressed_data_offset : Z) (written : list Z * Z) : Prop :=
  length (fst written) = length uncompressed_data /\
  uncompressed_data_offset <= snd written <= uncompressed_data_size /\
  forall j, 0 <= j < uncompressed_data_offset \/ snd written <= j ->
    load (fst written) j = load uncompressed_data j.

(** ** A run of Huffman codes in the stream *)

(** The number of bits that the codes of [symbols] take. *)
Fixpoint codes_size (code_sizes : list Z) (symbols : list nat) : Z :=
  match symbols with
  | [] => 0
  | symbol :: symbols =>
      load code_sizes (Z.of_nat symbol) + codes_size code_sizes symbols
  end.

(** The stream holds, [pos] bits from now, the canonical codes of [symbols]
    one after the other. *)
Fixpoint codes_at (code_sizes : list Z) (bs : deflate_bit_stream) (pos : Z)
    (symbols : list nat) : Prop :=
  match symbols with
  | [] => True
  | symbol :: symbols =>
      let len := load code_sizes (Z.of_nat symbol) in
      len <> 0 /\
      code_of_bits (fun i => stream_bit bs (pos + i)) (Z.to_nat len)
        = canonical_code code_sizes symbol /\
      codes_at code_sizes bs (pos + len) symbols
  end.

(** ** The symbols of a Huffman compressed block *)

(** What a block holds before its end-of-block symbol (RFC 1951 3.2.5): a
    literal, or a match as a length symbol 257..285 and a distance symbol
    0..29, each with the value of its extra bits. *)
Inductive block_symbol : Type :=
  | Literal (literal : nat)
  | Match (length_symbol : nat) (length_extra_bits : Z)
          (distance_symbol : nat) (distance_extra_bits : Z).

(** The canonical code of [symbol] is in the stream, [pos] bits from now. *)
Definition code_at (code_sizes : list Z) (bs : deflate_bit_stream) (pos : Z)
    (symbol : nat) : Prop :=
  load code_sizes (Z.of_nat symbol) <> 0 /\
  code_of_bits (fun i => stream_bit bs (pos + i))
    (Z.to_nat (load code_sizes (Z.of_nat symbol)))
  = canonical_code code_sizes symbol.

(** The [n] bits of the stream that start [pos] bits from now are [v], the
    first bit as bit 0 ("data elements are packed starting with the
    least-significant bit"). *)
Definition value_at (bs : deflate_bit_stream) (pos n v : Z) : Prop :=
  0 <= v < 2 ^ n /\ forall i, 0 <= i < n -> Z.testbit v i = stream_bit bs (pos + i).

(** The number of bits of a symbol with its extra bits. *)
Definition block_symbol_size (literal_sizes distance_sizes : list Z)
    (symbol : block_symbol) : Z :=
  match symbol with
  | Literal literal => load literal_sizes (Z.of_nat literal)
  | Match length_symbol _ distance_symbol _ =>
      load literal_sizes (Z.of_nat length_symbol)
      + load literal_codes_number_of_extra_bits (Z.of_nat length_symbol - 257)
      + load distance_sizes (Z.of_nat distance_symbol)
      + load distance_codes_number_of_extra_bits (Z.of_nat distance_symbol)
  end.

(** The number of bits of a block, with its end-of-block code and without
    its header. *)
Fixpoint block_size (literal_sizes distance_sizes : list Z)
    (symbols : list block_symbol) : Z :=
  match symbols with
  | [] => load literal_sizes 256
  | symbol :: symbols =>
      block_symbol_size literal_sizes distance_sizes symbol
      + block_size literal_sizes distance_sizes symbols
  end.

(** The stream holds, [pos] bits from now, the symbols and then the
    end-of-block code. *)
Fixpoint block_at (literal_sizes distance_sizes : list Z) (bs : deflate_bit_stream)
    (pos : Z) (symbols : list block_symbol) : Prop :=
  match symbols with
  | [] => code_at literal_sizes bs pos 256
  | Literal literal :: symbols =>
      (literal < 256)%nat /\
      code_at literal_sizes bs pos literal /\
      block_at literal_sizes distance_sizes bs
        (pos + load literal_sizes (Z.of_nat literal)) symbols
  | Match length_symbol length_extra distance_symbol distance_extra :: symbols =>
      let length_code := load literal_sizes (Z.of_nat length_symbol) in
      let length_bits :=
        load literal_codes_number_of_extra_bits (Z.of_nat length_symbol - 257) in
      let distance_code := load distance_sizes (Z.of_nat distance_symbol) in
      let distance_bits :=
        load distance_codes_number_of_extra_bits (Z.of_nat distance_symbol) in
      (257 <= length_symbol <= 285)%nat /\
      code_at literal_sizes bs pos length_symbol /\
      value_at bs (pos + length_code) length_bits length_extra /\
      code_at distance_sizes bs (pos + length_code + length_bits) distance_symbol /\
      value_at bs (pos + length_code + length_bits + distance_code) distance_bits
        distance_extra /\
      block_at literal_sizes distance_sizes bs
        (pos + length_code + length_bits + distance_code + distance_bits) symbols
  end.

(** What the symbols do to the output: a literal is stored, a match is
    copied by [decode_match] with the length and the distance that the
    symbols and their extra bits stand for. *)
Fixpoint expand (uncompressed_data_size : Z) (symbols : list block_symbol)
    (uncompressed_data : list Z) (data_offset : Z) : result (list Z * Z) :=
  match symbols with
  | [] => Ok (uncompressed_data, data_offset)
  | Literal literal :: symbols =>
      if uncompressed_data_size <=? data_offset then Error OutputOverflow
      else expand uncompressed_data_size symbols
             (store uncompressed_data data_offset (Z.of_nat literal)) (data_offset + 1)
  | Match length_symbol length_extra distance_symbol distance_extra :: symbols =>
      result_bind
        (decode_match
           (load literal_codes_base (Z.of_nat length_symbol - 257) + length_extra)
           (load distance_codes_base (Z.of_nat distance_symbol) + distance_extra)
           uncompressed_data uncompressed_data_size data_offset)
        (fun written => expand uncompressed_data_size symbols (fst written) (snd written))
  end.

(** ** The Adler-32 from an initial value *)

(** The state of the C loops after [off] bytes of [buffer], for the words
    [lo0] and [hi0] of an initial value: the words are congruent to those of
    the reference, which starts from the initial words. *)
Definition adler32_agrees_from (buffer : list Z) (lo0 hi0 off : Z) (st : Z * Z * Z)
    : Prop :=
  let '(lo, hi, off') := st in
  off' = off /\ 0 <= lo < 65536 /\ 0 <= hi < 65536 /\
  adler32_reference_loop (take (Z.to_nat off) buffer) (lo0 mod 65521) (hi0 mod 65521)
  = (lo mod 65521, hi mod 65521).

(** * Properties *)

(** ** Machine arithmetic *)

Lemma uint32_small x : 0 <= x < 2 ^ 32 -> uint32 x = x.
Proof. intros H. unfold uint32. apply Z.mod_small. exact H. Qed.

Lemma uint16_small x : 0 <= x < 2 ^ 16 -> uint16 x = x.
Proof. intros H. unfold uint16. apply Z.mod_small. exact H. Qed.

Lemma uint8_small x : 0 <= x < 2 ^ 8 -> uint8 x = x.
Proof. intros H. unfold uint8. apply Z.mod_small. exact H. Qed.

Lemma load_lookup (a : list Z) (i : nat) x :
  a !! i = Some x -> load a (Z.of_nat i) = x.
Proof. intros H. unfold load. rewrite Nat2Z.id, H. reflexivity. Qed.

Lemma load_is_byte (a : list Z) i : Forall is_byte a -> is_byte (load a i).
Proof.
  intros Ha. unfold load.
  destruct (a !! Z.to_nat i) as [x|] eqn:E; simpl.
  - eapply Forall_lookup_1; eauto.
  - unfold is_byte. lia.
Qed.

(** ** Adler-32: the batched loops compute the reference *)

Section Adler32.

Variable buffer : list Z.
Hypothesis buffer_bytes : Forall is_byte buffer.

Lemma adler32_reference_loop_snoc data b lo hi :
  adler32_reference_loop (data ++ [b]) lo hi =
  let '(lo', hi') := adler32_reference_loop data lo hi in
  ((lo' + b) mod 65521, (hi' + (lo' + b) mod 65521) mod 65521).
Proof.
  revert lo hi. induction data as [|c data IH]; intros lo hi; simpl.
  - reflexivity.
  - apply IH.
Qed.

Lemma adler32_reference_loop_app data1 data2 lo hi :
  adler32_reference_loop (data1 ++ data2) lo hi =
  let '(lo', hi') := adler32_reference_loop data1 lo hi in
  adler32_reference_loop data2 lo' hi'.
Proof.
  revert lo hi. induction data1 as [|c data1 IH]; intros lo hi; simpl.
  - reflexivity.
  - apply IH.
Qed.

Lemma adler32_reference_loop_range data lo hi :
  0 <= lo < 65521 -> 0 <= hi < 65521 ->
  0 <= fst (adler32_reference_loop data lo hi) < 65521 /\
  0 <= snd (adler32_reference_loop data lo hi) < 65521.
Proof.
  revert lo hi. induction data as [|c data IH]; intros lo hi Hlo Hhi; simpl.
  - lia.
  - apply IH; apply Z.mod_pos_bound; lia.
Qed.

(** The words after [k] bytes: no addition wraps as long as the bound on
    the upper word stays below 2^32, and the words are congruent to the
    reference modulo 65521. *)
Lemma adler32_bytes_invariant (k : nat) lo0 hi0 off0 :
  0 <= lo0 -> 0 <= hi0 -> 0 <= off0 ->
  off0 + Z.of_nat k <= Z.of_nat (length buffer) ->
  lo0 + 255 * Z.of_nat k < 2 ^ 32 ->
  2 * hi0 + 2 * Z.of_nat k * lo0 + 255 * Z.of_nat k * (Z.of_nat k + 1) < 2 * 2 ^ 32 ->
  exists lo hi,
    Nat.iter k (adler32_byte buffer) (lo0, hi0, off0) = (lo, hi, off0 + Z.of_nat k) /\
    0 <= lo <= lo0 + 255 * Z.of_nat k /\
    0 <= 2 * hi <= 2 * hi0 + 2 * Z.of_nat k * lo0 + 255 * Z.of_nat k * (Z.of_nat k + 1) /\
    adler32_reference_loop (take k (drop (Z.to_nat off0) buffer))
      (lo0 mod 65521) (hi0 mod 65521) = (lo mod 65521, hi mod 65521).
Proof.
  intros Hlo0 Hhi0 Hoff0. induction k as [|k IH]; intros Hlen Hblo Hbhi.
  - exists lo0, hi0. simpl. rewrite Z.add_0_r. repeat split; try lia.
  - destruct IH as (lo & hi & Hiter & Hlo & Hhi & Href); try lia; try nia.
    rewrite Nat.iter_succ, Hiter. unfold adler32_byte.
    pose proof (load_is_byte buffer (off0 + Z.of_nat k) buffer_bytes) as Hb.
    unfold is_byte in Hb.
    set (b := load buffer (off0 + Z.of_nat k)) in *.
    assert (Hlookup : drop (Z.to_nat off0) buffer !! k = Some b).
    { rewrite lookup_drop. unfold b, load.
      replace (Z.to_nat (off0 + Z.of_nat k)) with (Z.to_nat off0 + k)%nat by lia.
      destruct (buffer !! (Z.to_nat off0 + k)%nat) eqn:E; [reflexivity|].
      apply lookup_ge_None in E. lia. }
    exists (lo + b), (hi + (lo + b)).
    rewrite (uint32_small (lo + b)) by nia.
    rewrite (uint32_small (hi + (lo + b))) by nia.
    split; [f_equal; lia|].
    split; [lia|]. split; [nia|].
    rewrite (take_S_r _ _ _ Hlookup), adler32_reference_loop_snoc, Href.
    f_equal.
    + rewrite Z.add_mod_idemp_l by lia. reflexivity.
    + rewrite Z.add_mod_idemp_l by lia. rewrite Z.add_mod_idemp_l by lia.
      rewrite Z.add_mod_idemp_r by lia. reflexivity.
Qed.

Lemma adler32_fold_spec x :
  0 <= x < 2 ^ 32 ->
  adler32_fold x = x mod 2 ^ 16 + 15 * (x / 2 ^ 16).
Proof.
  intros Hx. unfold adler32_fold.
  rewrite Z.shiftr_div_pow2 by lia.
  change 65535 with (Z.ones 16). rewrite Z.land_ones by lia.
  rewrite Z.shiftl_mul_pow2 by lia.
  assert (0 <= x / 2 ^ 16 < 2 ^ 16) by (split; [apply Z.div_pos|apply Z.div_lt_upper_bound]; lia).
  pose proof (Z.mod_pos_bound x (2 ^ 16) ltac:(lia)).
  rewrite (uint32_small (x / 2 ^ 16 * 2 ^ 4)) by lia.
  rewrite (uint32_small (x / 2 ^ 16 * 2 ^ 4 - x / 2 ^ 16)) by lia.
  rewrite uint32_small by lia. lia.
Qed.

(** The "optimized equivalent" is the modulo it stands for. *)
Lemma adler32_modulo_spec x : 0 <= x < 2 ^ 32 -> adler32_modulo x = x mod 65521.
Proof.
  intros Hx. unfold adler32_modulo.
  rewrite (adler32_fold_spec x Hx).
  assert (Hq : 0 <= x / 2 ^ 16 < 2 ^ 16)
    by (split; [apply Z.div_pos|apply Z.div_lt_upper_bound]; lia).
  pose proof (Z.mod_pos_bound x (2 ^ 16) ltac:(lia)) as Hr.
  pose proof (Z.div_mod x (2 ^ 16) ltac:(lia)) as Hx'.
  set (q := x / 2 ^ 16) in *. set (r := x mod 2 ^ 16) in *.
  set (y := r + 15 * q).
  assert (Hy : 0 <= y < 2 ^ 32) by (unfold y; lia).
  assert (Hxy : x mod 65521 = y mod 65521).
  { unfold y. rewrite Hx'. replace (2 ^ 16 * q + r) with (r + 15 * q + q * 65521) by lia.
    apply Z.mod_add. lia. }
  rewrite Hxy.
  assert (Hfinal : forall z, 0 <= z < 2 * 65521 ->
    (if 65521 <=? z then uint32 (z - 65521) else z) = z mod 65521).
  { intros z Hz. destruct (65521 <=? z) eqn:E.
    - apply Z.leb_le in E. rewrite uint32_small by lia.
      apply Z.mod_unique with 1; lia.
    - apply Z.leb_gt in E. symmetry. apply Z.mod_small. lia. }
  destruct (65521 <? y) eqn:E.
  - apply Z.ltb_lt in E. rewrite (adler32_fold_spec y Hy).
    assert (Hq' : 0 <= y / 2 ^ 16 < 16)
      by (split; [apply Z.div_pos|apply Z.div_lt_upper_bound]; unfold y; lia).
    pose proof (Z.mod_pos_bound y (2 ^ 16) ltac:(lia)) as Hr'.
    pose proof (Z.div_mod y (2 ^ 16) ltac:(lia)) as Hy'.
    set (q' := y / 2 ^ 16) in *. set (r' := y mod 2 ^ 16) in *.
    rewrite Hfinal by lia.
    transitivity ((r' + 15 * q' + q' * 65521) mod 65521).
    + symmetry. apply Z.mod_add. lia.
    + f_equal. lia.
  - apply Z.ltb_ge in E. apply Hfinal. lia.
Qed.

(** At most 5552 bytes between two modulo operations: nothing wraps. *)
Lemma adler32_chunk (k : nat) lo0 hi0 off0 :
  Z.of_nat k <= 5552 -> 0 <= off0 ->
  off0 + Z.of_nat k <= Z.of_nat (length buffer) ->
  adler32_agrees buffer off0 (lo0, hi0, off0) ->
  exists lo hi,
    Nat.iter k (adler32_byte buffer) (lo0, hi0, off0) = (lo, hi, off0 + Z.of_nat k) /\
    adler32_agrees buffer (off0 + Z.of_nat k)
      (adler32_modulo lo, adler32_modulo hi, off0 + Z.of_nat k).
Proof.
  intros Hk Hoff Hlen (_ & Hlo0 & Hhi0 & Href).
  assert (Hb1 : Z.of_nat k * lo0 <= 5552 * 65520) by nia.
  assert (Hb2 : Z.of_nat k * (Z.of_nat k + 1) <= 5552 * 5553) by nia.
  destruct (adler32_bytes_invariant k lo0 hi0 off0) as (lo & hi & Hiter & Hlo & Hhi & Hchunk);
    [lia | lia | lia | lia | lia | lia |].
  exists lo, hi. split; [exact Hiter|].
  rewrite !adler32_modulo_spec by lia.
  split; [reflexivity|].
  split; [apply Z.mod_pos_bound; lia|]. split; [apply Z.mod_pos_bound; lia|].
  replace (Z.to_nat (off0 + Z.of_nat k)) with (Z.to_nat off0 + k)%nat by lia.
  rewrite <- take_take_drop, adler32_reference_loop_app, Href.
  rewrite <- Hchunk. rewrite !Z.mod_small by lia. reflexivity.
Qed.

Lemma adler32_blocks_step fuel size st :
  adler32_blocks (S fuel) buffer size st =
  if 0x15b0 <=? size then
    let '(lower_word, upper_word, buffer_offset) :=
      Nat.iter 347 (adler32_16_bytes buffer) st in
    adler32_blocks fuel buffer (size - 0x15b0)
      (adler32_modulo lower_word, adler32_modulo upper_word, buffer_offset)
  else Ok (size, st).
Proof. reflexivity. Qed.

Lemma adler32_block_bytes st :
  Nat.iter 347 (adler32_16_bytes buffer) st = Nat.iter (347 * 16) (adler32_byte buffer) st.
Proof.
  unfold adler32_16_bytes. apply eq_sym, Nat.iter_mul.
Qed.

(** deflate.c 1186-1278: the loop over the blocks of 5552 bytes. *)
Lemma adler32_blocks_spec (fuel : nat) size lo hi off :
  (Z.to_nat size <= fuel)%nat -> 0 <= size -> 0 <= off ->
  off + size <= Z.of_nat (length buffer) ->
  adler32_agrees buffer off (lo, hi, off) ->
  exists size' st',
    adler32_blocks fuel buffer size (lo, hi, off) = Ok (size', st') /\
    0 <= size' < 0x15b0 /\ size' <= size /\
    adler32_agrees buffer (off + (size - size')) st'.
Proof.
  revert size lo hi off. induction fuel as [|fuel IH]; intros size lo hi off Hfuel Hsize Hoff Hlen Hst.
  - exists size, (lo, hi, off). simpl.
    assert (size = 0) as -> by lia. simpl.
    split; [reflexivity|]. rewrite Z.add_0_r. repeat split; try lia; apply Hst.
  - rewrite adler32_blocks_step. destruct (0x15b0 <=? size) eqn:E.
    + apply Z.leb_le in E. rewrite adler32_block_bytes.
      assert (H5552 : Z.of_nat (347 * 16) = 5552) by reflexivity.
      destruct (adler32_chunk (347 * 16) lo hi off) as (lo1 & hi1 & Hiter & Hagree);
        [lia | lia | lia | exact Hst |].
      rewrite Hiter. rewrite H5552 in *.
      destruct (IH (size - 0x15b0) (adler32_modulo lo1) (adler32_modulo hi1) (off + 5552))
        as (size' & st' & Hrun & Hs1 & Hs2 & Hagree');
        [lia | lia | lia | lia | exact Hagree |].
      exists size', st'. split; [exact Hrun|]. split; [lia|]. split; [lia|].
      replace (off + (size - size')) with (off + 5552 + (size - 5552 - size')) by lia.
      exact Hagree'.
    + apply Z.leb_gt in E. exists size, (lo, hi, off).
      split; [reflexivity|]. split; [lia|]. split; [lia|].
      replace (off + (size - size)) with off by lia. exact Hst.
Qed.

(** deflate.c 1281-1332. *)
Lemma adler32_tail_16_spec (fuel : nat) size st :
  (Z.to_nat size <= fuel)%nat ->
  exists size',
    adler32_tail_16 fuel buffer size st =
      Ok (size', Nat.iter (Z.to_nat (size - size')) (adler32_byte buffer) st) /\
    size' <= size /\ size' <= 16 /\ (0 < size -> 0 < size').
Proof.
  revert size st. induction fuel as [|fuel IH]; intros size st Hfuel.
  - exists size. simpl. destruct (16 <? size) eqn:E; [apply Z.ltb_lt in E; lia|].
    apply Z.ltb_ge in E. rewrite Z.sub_diag. simpl. repeat split; lia.
  - simpl. destruct (16 <? size) eqn:E.
    + apply Z.ltb_lt in E.
      destruct (IH (size - 16) (adler32_16_bytes buffer st)) as (size' & Hrun & H1 & H2 & H3);
        [lia|].
      exists size'. rewrite Hrun. split; [|lia].
      unfold adler32_16_bytes. rewrite <- Nat.iter_add. do 2 f_equal.
      f_equal. lia.
    + apply Z.ltb_ge in E. exists size. rewrite Z.sub_diag. simpl. repeat split; lia.
Qed.

(** deflate.c 1333-1339. *)
Lemma adler32_tail_1_spec (fuel : nat) size st :
  (Z.to_nat size <= fuel)%nat ->
  adler32_tail_1 fuel buffer size st = Ok (Nat.iter (Z.to_nat size) (adler32_byte buffer) st).
Proof.
  revert size st. induction fuel as [|fuel IH]; intros size st Hfuel.
  - simpl. destruct (0 <? size) eqn:E; [apply Z.ltb_lt in E; lia|].
    apply Z.ltb_ge in E. replace (Z.to_nat size) with 0%nat by lia. reflexivity.
  - simpl. destruct (0 <? size) eqn:E.
    + apply Z.ltb_lt in E. rewrite IH by lia.
      replace (Z.to_nat size) with (S (Z.to_nat (size - 1))) by lia.
      rewrite Nat.iter_succ_r. reflexivity.
    + apply Z.ltb_ge in E. replace (Z.to_nat size) with 0%nat by lia. reflexivity.
Qed.

End Adler32.

(** C10. For every buffer of bytes and every size within it, the batched
    deflate_calculate_adler32 with initial value 1 returns the reference
    Adler-32 of the first [size] bytes: lo = 1, hi = 0, for each byte
    lo = (lo + b) mod 65521 and hi = (hi + lo) mod 65521, and (hi << 16) | lo. *)
Theorem deflate_calculate_adler32_is_reference (buffer : list Z) (size : Z) :
  Forall is_byte buffer ->
  0 <= size <= Z.of_nat (length buffer) -> size <= SSIZE_MAX ->
  deflate_calculate_adler32 buffer size 1 =
  Ok (adler32_reference (take (Z.to_nat size) buffer)).
Proof.
  intros buffer_bytes Hsize Hmax. unfold deflate_calculate_adler32.
  destruct (SSIZE_MAX <? size) eqn:E; [apply Z.ltb_lt in E; lia|clear E].
  change (Z.land 1 65535) with 1. change (Z.land (Z.shiftr 1 16) 65535) with 0.
  destruct (adler32_blocks_spec buffer buffer_bytes (Z.to_nat size) size 1 0 0)
    as (size1 & [[lo1 hi1] off1] & Hrun & Hs1 & Hs2 & Hoff1 & Hlo1 & Hhi1 & Href1);
    try lia.
  { unfold adler32_agrees. simpl. repeat split; lia. }
  rewrite Hrun. cbn [result_bind]. rewrite Z.add_0_l in Hoff1, Href1.
  assert (Hfinal : forall lo hi, 0 <= lo < 65521 -> 0 <= hi < 65521 ->
    adler32_reference_loop (take (Z.to_nat size) buffer) 1 0 = (lo, hi) ->
    Ok (Z.lor (uint32 (Z.shiftl hi 16)) lo)
    = Ok (adler32_reference (take (Z.to_nat size) buffer))).
  { intros lo hi Hlo Hhi Href. unfold adler32_reference. rewrite Href.
    rewrite uint32_small; [reflexivity|]. rewrite Z.shiftl_mul_pow2 by lia. lia. }
  destruct (0 <? size1) eqn:E.
  - apply Z.ltb_lt in E.
    destruct (adler32_tail_16_spec buffer (Z.to_nat size) size1 (lo1, hi1, off1))
      as (size2 & Hrun2 & Ht1 & Ht2 & Ht3); [lia|].
    rewrite Hrun2. cbn [result_bind].
    rewrite adler32_tail_1_spec by lia. cbn [result_bind].
    rewrite <- Nat.iter_add.
    replace (Z.to_nat size2 + Z.to_nat (size1 - size2))%nat with (Z.to_nat size1) by lia.
    subst off1.
    destruct (adler32_chunk buffer buffer_bytes (Z.to_nat size1) lo1 hi1 (size - size1))
      as (lo & hi & Hiter & _ & Hlo & Hhi & Href); try lia.
    { unfold adler32_agrees. repeat split; try lia. exact Href1. }
    rewrite Hiter. cbn [result_bind]. apply Hfinal; try assumption.
    rewrite <- Href. do 2 f_equal. lia.
  - apply Z.ltb_ge in E. cbn [result_bind fst snd].
    apply Hfinal; try assumption.
    rewrite <- Href1. do 2 f_equal. lia.
Qed.


Lemma deflate_calculate_adler32_is_reference_witness :
  Forall is_byte [0x41; 0x42] /\ 0 <= 2 <= Z.of_nat (length [0x41; 0x42]) /\
  2 <= SSIZE_MAX /\
  deflate_calculate_adler32 [0x41; 0x42] 2 1 =
  Ok (adler32_reference (take (Z.to_nat 2) [0x41; 0x42])).
Proof.
  assert (Hb : Forall is_byte [0x41; 0x42]) by (repeat constructor; unfold is_byte; lia).
  assert (Hs : 0 <= 2 <= Z.of_nat (length [0x41; 0x42])) by (simpl; lia).
  assert (Hm : 2 <= SSIZE_MAX) by (unfold SSIZE_MAX; lia).
  exact (conj Hb (conj Hs (conj Hm
    (deflate_calculate_adler32_is_reference [0x41; 0x42] 2 Hb Hs Hm)))).
Defined.

(** ** The bit stream reader *)

Lemma testbit_above (x k i : Z) :
  0 <= x < 2 ^ k -> k <= i -> Z.testbit x i = false.
Proof.
  intros Hx Hi. destruct (Z.ltb_spec k 0) as [Hk|Hk].
  - rewrite Z.pow_neg_r in Hx by lia. lia.
  - rewrite <- (Z.mod_small x (2 ^ k)) by lia.
    apply Z.mod_pow2_bits_high. lia.
Qed.

Lemma testbit_bound (x k : Z) :
  0 <= k -> (forall i, k <= i -> Z.testbit x i = false) -> 0 <= x < 2 ^ k.
Proof.
  intros Hk Hbits.
  assert (x = x mod 2 ^ k) as ->.
  { apply Z.bits_inj'. intros i Hi. destruct (Z.ltb_spec i k).
    - rewrite Z.mod_pow2_bits_low by lia. reflexivity.
    - rewrite Z.mod_pow2_bits_high by lia. apply Hbits. lia. }
  apply Z.mod_pos_bound. lia.
Qed.

Lemma bit_stream_valid_clean bs : bit_stream_valid bs -> bit_buffer_clean bs.
Proof.
  intros (Hs & Hb & _ & _ & Hbytes). split; [lia|]. split; [|exact Hbytes].
  intros i [Hi|Hi]; apply (testbit_above _ (bit_buffer_size bs)); try lia.
Qed.

Lemma bit_stream_read_byte_clean bs :
  bit_buffer_clean bs -> bit_buffer_clean (bit_stream_read_byte bs).
Proof.
  intros (Hs & Hbits & Hbytes). unfold bit_buffer_clean, bit_stream_read_byte. simpl.
  split; [lia|]. split; [|exact Hbytes].
  pose proof (load_is_byte (byte_stream bs) (byte_stream_offset bs) Hbytes) as Hb.
  unfold is_byte in Hb.
  intros i Hi. rewrite Z.lor_spec, Hbits by lia. simpl. unfold uint32.
  destruct (Z.ltb_spec i 32).
  - rewrite Z.mod_pow2_bits_low by lia. rewrite Z.shiftl_spec by lia.
    apply (testbit_above _ 8); lia.
  - apply Z.mod_pow2_bits_high. lia.
Qed.

Lemma bit_stream_read_byte_remaining bs :
  bits_remaining (bit_stream_read_byte bs) = bits_remaining bs.
Proof. unfold bits_remaining, bit_stream_read_byte. simpl. lia. Qed.

(** Moving a byte into the register keeps the first 32 bits of the stream
    (a bit shifted past bit 31 is lost). *)
Lemma bit_stream_read_byte_stream_bit bs i :
  bit_buffer_clean bs -> bit_buffer_size bs < 32 -> 0 <= i < 32 ->
  stream_bit (bit_stream_read_byte bs) i = stream_bit bs i.
Proof.
  intros (Hs & Hbits & Hbytes) Hs32 Hi. unfold stream_bit, bit_stream_read_byte. simpl.
  set (s := bit_buffer_size bs) in *.
  destruct (Z.ltb_spec i (s + 8)) as [H1|H1]; destruct (Z.ltb_spec i s) as [H2|H2]; try lia.
  - rewrite Z.lor_spec. unfold uint32. rewrite Z.mod_pow2_bits_low by lia.
    rewrite Z.shiftl_spec by lia. rewrite (Z.testbit_neg_r _ (i - s)) by lia.
    apply orb_false_r.
  - rewrite Z.lor_spec, Hbits by lia. unfold uint32.
    rewrite Z.mod_pow2_bits_low by lia. rewrite Z.shiftl_spec by lia. simpl.
    rewrite Z.div_small, Z.mod_small, Z.add_0_r by lia. reflexivity.
  - replace (i - s) with (i - (s + 8) + 1 * 8) by lia.
    rewrite Z.div_add, Z.mod_add by lia. f_equal. f_equal. lia.
Qed.

(** deflate.c 84-102: the loop ends with enough bits, or the bytes ran out. *)
Lemma bit_stream_fill_spec (fuel : nat) n bs :
  bit_buffer_clean bs -> n <= 32 -> n - bit_buffer_size bs <= 8 * Z.of_nat fuel ->
  (bits_remaining bs < n -> byte_stream_offset bs <= byte_stream_size bs ->
   bit_stream_fill fuel n bs = Error Truncated) /\
  (n <= bits_remaining bs ->
   exists bs1,
     bit_stream_fill fuel n bs = Ok bs1 /\ bit_buffer_clean bs1 /\
     n <= bit_buffer_size bs1 /\
     (forall i, 0 <= i < 32 -> stream_bit bs1 i = stream_bit bs i)).
Proof.
  revert bs. induction fuel as [|fuel IH]; intros bs Hclean Hn Hfuel.
  - simpl. destruct (Z.ltb_spec (bit_buffer_size bs) n); [lia|].
    split; [unfold bits_remaining; lia|]. intros _. exists bs. auto.
  - simpl. destruct (Z.ltb_spec (bit_buffer_size bs) n) as [Hlt|Hge].
    + destruct (Z.leb_spec (byte_stream_size bs) (byte_stream_offset bs)) as [Hend|Hmore].
      * split; [reflexivity|]. unfold bits_remaining. intros; lia.
      * destruct (IH (bit_stream_read_byte bs)) as [IH1 IH2].
        { apply bit_stream_read_byte_clean, Hclean. }
        { exact Hn. }
        { unfold bit_stream_read_byte; simpl. lia. }
        rewrite bit_stream_read_byte_remaining in IH1, IH2. split.
        -- intros Hrem _. apply IH1; [exact Hrem|]. unfold bit_stream_read_byte; simpl. lia.
        -- intros Hrem. destruct (IH2 Hrem) as (bs1 & Hrun & Hclean1 & Hn1 & Hbits1).
           exists bs1. split; [exact Hrun|]. split; [exact Hclean1|]. split; [exact Hn1|].
           intros i Hi. rewrite Hbits1 by exact Hi.
           apply bit_stream_read_byte_stream_bit; [exact Hclean|lia|exact Hi].
    + split; [unfold bits_remaining; lia|]. intros _. exists bs. auto.
Qed.

(** [x & ~( 0xffffffffUL << n )] keeps the low [n] bits of a 32 bit value. *)
Lemma mask_low_bits x n i :
  0 <= n < 32 -> 0 <= i ->
  Z.testbit (Z.land x (Z.lnot (Z.shiftl 0xffffffff n))) i =
  Z.testbit x i && ((i <? n) || (n + 32 <=? i)).
Proof.
  intros Hn Hi. rewrite Z.land_spec, Z.lnot_spec by lia. f_equal.
  rewrite Z.shiftl_spec by lia. change 4294967295 with (Z.ones 32).
  destruct (Z.ltb_spec i n); destruct (Z.leb_spec (n + 32) i); try lia; simpl.
  - rewrite Z.testbit_neg_r by lia. reflexivity.
  - rewrite Z.ones_spec_high by lia. reflexivity.
  - rewrite Z.ones_spec_low by lia. reflexivity.
Qed.

(** The value of a call, for every valid bit stream state and every
    0 <= n <= 32: deflate_bit_stream_get_value returns 0 and leaves the
    state as it is when n = 0; it fails (Truncated) when the bit buffer and
    the remaining bytes hold fewer than n bits; otherwise the value is the
    next n bits of the state LSB first (bit i of the value is the i-th next
    bit, no bit above n is set), and for n = 32 the value is the whole
    register after the refill and the register and its count are set to
    zero. What a call leaves of the stream is the subject of the section
    on the stream after a call, below. *)
Theorem deflate_bit_stream_get_value_next_bits (bs : deflate_bit_stream) (n : Z) :
  bit_stream_valid bs -> 0 <= n <= 32 ->
  (n = 0 -> deflate_bit_stream_get_value n bs = Ok (0, bs)) /\
  (0 < n -> bits_remaining bs < n ->
   deflate_bit_stream_get_value n bs = Error Truncated) /\
  (0 < n -> n <= bits_remaining bs ->
   exists v bs',
     deflate_bit_stream_get_value n bs = Ok (v, bs') /\
     0 <= v < 2 ^ n /\
     (forall i, 0 <= i < n -> Z.testbit v i = stream_bit bs i) /\
     (n = 32 ->
      exists bs1, bit_stream_fill 4 32 bs = Ok bs1 /\ v = bit_buffer bs1 /\
                  bit_buffer bs' = 0 /\ bit_buffer_size bs' = 0)).
Proof.
  intros Hvalid Hn.
  pose proof (bit_stream_valid_clean bs Hvalid) as Hclean.
  destruct Hvalid as (Hs & Hb & Hoff & Hlen & Hbytes).
  unfold deflate_bit_stream_get_value.
  destruct (Z.ltb_spec 32 n) as [?|_]; [lia|].
  split; [intros ->; reflexivity|].
  destruct (bit_stream_fill_spec 4 n bs Hclean) as [Hfail Hfill]; [lia|lia|].
  split.
  - intros Hpos Hrem. destruct (Z.eqb_spec n 0); [lia|].
    rewrite Hfail by lia. reflexivity.
  - intros Hpos Hrem. destruct (Z.eqb_spec n 0); [lia|].
    destruct (Hfill Hrem) as (bs1 & Hrun & (Hs1 & Hbits1 & _) & Hn1 & Hstream).
    rewrite Hrun. cbn [result_bind].
    assert (Hlow : forall i, 0 <= i < n -> Z.testbit (bit_buffer bs1) i = stream_bit bs i).
    { intros i Hi. rewrite <- Hstream by lia. unfold stream_bit.
      destruct (Z.ltb_spec i (bit_buffer_size bs1)); [reflexivity|lia]. }
    destruct (Z.ltb_spec n 32) as [Hlt|Hge].
    + eexists _, _. split; [reflexivity|]. split; [|split].
      * apply testbit_bound; [lia|]. intros i Hi. rewrite mask_low_bits by lia.
        destruct (Z.ltb_spec i n); [lia|]. destruct (Z.leb_spec (n + 32) i); simpl.
        -- rewrite Hbits1 by lia. reflexivity.
        -- apply andb_false_r.
      * intros i Hi. rewrite mask_low_bits by lia.
        destruct (Z.ltb_spec i n); [|lia]. simpl. rewrite andb_true_r. apply Hlow, Hi.
      * intros ->. lia.
    + assert (n = 32) as -> by lia.
      eexists _, _. split; [reflexivity|]. split; [|split].
      * apply testbit_bound; [lia|]. intros i Hi. apply Hbits1. lia.
      * exact Hlow.
      * intros _. exists bs1. split; [exact Hrun|]. split; [reflexivity|].
        split; reflexivity.
Qed.

Lemma deflate_bit_stream_get_value_next_bits_witness :
  let bs := {| byte_stream := [0xA5; 0x3C]; byte_stream_size := 2;
               byte_stream_offset := 0; bit_buffer := 0; bit_buffer_size := 0 |} in
  bit_stream_valid bs /\ 0 <= 5 <= 32 /\
  exists v bs', deflate_bit_stream_get_value 5 bs = Ok (v, bs') /\ v = 5.
Proof.
  intros bs.
  assert (Hvalid : bit_stream_valid bs).
  { unfold bit_stream_valid, bs; simpl. repeat split; try lia.
    repeat constructor; unfold is_byte; lia. }
  assert (Hn : 0 <= 5 <= 32) by lia.
  split; [exact Hvalid|]. split; [exact Hn|].
  destruct (deflate_bit_stream_get_value_next_bits bs 5 Hvalid Hn) as (_ & _ & H).
  destruct H as (v & bs' & Hrun & _ & _ & _).
  - lia.
  - unfold bits_remaining, bs; simpl. lia.
  - exists v, bs'. split; [exact Hrun|].
    vm_compute in Hrun. congruence.
Defined.

(** ** The copy of a match *)

Lemma load_store_eq (a : list Z) i v :
  0 <= i < Z.of_nat (length a) -> load (store a i v) i = v.
Proof.
  intros Hi. unfold load, store. rewrite list_lookup_insert_eq by lia. reflexivity.
Qed.

Lemma load_store_ne (a : list Z) i j v :
  0 <= i -> 0 <= j -> i <> j -> load (store a i v) j = load a j.
Proof.
  intros Hi Hj Hne. unfold load, store. rewrite list_lookup_insert_ne by lia. reflexivity.
Qed.

Lemma length_store (a : list Z) i v : length (store a i v) = length a.
Proof. apply length_insert. Qed.

(** deflate.c 1104-1110: the loop writes [k] bytes from [data_offset] on, every
    one equal to the byte [compression_offset] positions before it in the
    buffer as it is after the loop, and nothing else. *)
Lemma copy_match_spec (k : nat) compression_offset uncompressed_data data_offset :
  0 <= compression_offset <= data_offset ->
  data_offset + Z.of_nat k <= Z.of_nat (length uncompressed_data) ->
  exists uncompressed_data',
    copy_match k compression_offset uncompressed_data data_offset =
      (uncompressed_data', data_offset + Z.of_nat k) /\
    length uncompressed_data' = length uncompressed_data /\
    (forall j, 0 <= j < data_offset ->
       load uncompressed_data' j = load uncompressed_data j) /\
    (forall j, data_offset + Z.of_nat k <= j ->
       load uncompressed_data' j = load uncompressed_data j) /\
    (forall i, 0 <= i < Z.of_nat k ->
       load uncompressed_data' (data_offset + i) =
       load uncompressed_data' (data_offset + i - compression_offset)).
Proof.
  revert uncompressed_data data_offset.
  induction k as [|k IH]; intros out off Hd Hlen.
  - exists out. simpl. rewrite Z.add_0_r. repeat split; intros; lia || reflexivity.
  - simpl copy_match.
    set (out1 := store out off (load out (off - compression_offset))).
    destruct (IH out1 (off + 1)) as (out' & Hrun & Hlen' & Hlow & Hhigh & Hcopy).
    { lia. }
    { unfold out1. rewrite length_store. lia. }
    exists out'. rewrite Hrun.
    split; [f_equal; lia|].
    split; [rewrite Hlen'; apply length_store|].
    assert (Hoff : load out' off = load out (off - compression_offset)).
    { rewrite Hlow by lia. apply load_store_eq. lia. }
    split; [|split].
    + intros j Hj. rewrite Hlow by lia. apply load_store_ne; lia.
    + intros j Hj. rewrite Hhigh by lia. apply load_store_ne; lia.
    + intros i Hi. destruct (Z.eq_dec i 0) as [->|Hne].
      * rewrite Z.add_0_r. destruct (Z.eq_dec compression_offset 0) as [->|Hd0].
        -- f_equal. lia.
        -- rewrite Hoff. rewrite Hlow by lia. symmetry. apply load_store_ne; lia.
      * replace (off + i) with (off + 1 + (i - 1)) by lia. apply Hcopy. lia.
Qed.

(** C9. For every length / distance pair decoded in a Huffman block:
    distance > cursor fails with BadDistance; otherwise cursor + length >
    capacity fails with OutputOverflow; otherwise [length] bytes are
    appended, output[cursor + i] = output[cursor - distance + i] for
    i = 0..length-1 in the buffer after the copy, the cursor advances by
    [length], the bytes before the cursor stay, and with 1 <= distance the
    appended bytes repeat the [distance] bytes before the cursor (also when
    distance < length). *)
Theorem decode_match_copies (compression_size compression_offset : Z)
    (uncompressed_data : list Z) (uncompressed_data_size data_offset : Z) :
  0 <= compression_size -> 0 <= compression_offset -> 0 <= data_offset ->
  uncompressed_data_size <= Z.of_nat (length uncompressed_data) ->
  (data_offset < compression_offset ->
   decode_match compression_size compression_offset uncompressed_data
     uncompressed_data_size data_offset = Error BadDistance) /\
  (compression_offset <= data_offset ->
   uncompressed_data_size < data_offset + compression_size ->
   decode_match compression_size compression_offset uncompressed_data
     uncompressed_data_size data_offset = Error OutputOverflow) /\
  (compression_offset <= data_offset ->
   data_offset + compression_size <= uncompressed_data_size ->
   exists uncompressed_data',
     decode_match compression_size compression_offset uncompressed_data
       uncompressed_data_size data_offset =
       Ok (uncompressed_data', data_offset + compression_size) /\
     length uncompressed_data' = length uncompressed_data /\
     (forall j, 0 <= j < data_offset ->
        load uncompressed_data' j = load uncompressed_data j) /\
     (forall i, 0 <= i < compression_size ->
        load uncompressed_data' (data_offset + i) =
        load uncompressed_data' (data_offset - compression_offset + i)) /\
     (1 <= compression_offset ->
      forall i, 0 <= i < compression_size ->
        load uncompressed_data' (data_offset + i) =
        load uncompressed_data (data_offset - compression_offset
                                + i mod compression_offset))).
Proof.
  intros Hsize Hdist Hoff Hcap. unfold decode_match.
  split; [|split].
  - intros H. destruct (Z.ltb_spec data_offset compression_offset); [reflexivity|lia].
  - intros H1 H2. destruct (Z.ltb_spec data_offset compression_offset); [lia|].
    destruct (Z.ltb_spec uncompressed_data_size (data_offset + compression_size));
      [reflexivity|lia].
  - intros H1 H2. destruct (Z.ltb_spec data_offset compression_offset); [lia|].
    destruct (Z.ltb_spec uncompressed_data_size (data_offset + compression_size)); [lia|].
    destruct (copy_match_spec (Z.to_nat compression_size) compression_offset
                uncompressed_data data_offset)
      as (out' & Hrun & Hlen & Hlow & _ & Hcopy); [lia|lia|].
    rewrite Z2Nat.id in Hrun, Hcopy by lia.
    exists out'. rewrite Hrun. split; [reflexivity|]. split; [exact Hlen|].
    split; [exact Hlow|].
    assert (Hcopy' : forall i, 0 <= i < compression_size ->
              load out' (data_offset + i) =
              load out' (data_offset - compression_offset + i)).
    { intros i Hi. rewrite Hcopy by lia. f_equal. lia. }
    split; [exact Hcopy'|].
    intros Hd1 i. pattern i. apply (well_founded_induction (Z.lt_wf 0)).
    clear i. intros i IH Hi.
    destruct (Z.ltb_spec i compression_offset) as [Hlt|Hge].
    + rewrite Z.mod_small by lia. rewrite Hcopy' by lia. apply Hlow. lia.
    + rewrite Hcopy' by lia.
      replace (data_offset - compression_offset + i)
        with (data_offset + (i - compression_offset)) by lia.
      rewrite IH by lia. f_equal. f_equal.
      replace i with (i - compression_offset + 1 * compression_offset) at 2 by lia.
      symmetry. apply Z.mod_add. lia.
Qed.

Lemma decode_match_copies_witness :
  0 <= 5 /\ 0 <= 2 /\ 0 <= 2 /\ 8 <= Z.of_nat (length [0x61; 0x62; 0; 0; 0; 0; 0; 0]) /\
  exists uncompressed_data',
    decode_match 5 2 [0x61; 0x62; 0; 0; 0; 0; 0; 0] 8 2 = Ok (uncompressed_data', 2 + 5) /\
    uncompressed_data' = [0x61; 0x62; 0x61; 0x62; 0x61; 0x62; 0x61; 0].
Proof.
  assert (H1 : 0 <= 5) by lia. assert (H2 : 0 <= 2) by lia.
  assert (H3 : 8 <= Z.of_nat (length [0x61; 0x62; 0; 0; 0; 0; 0; 0])) by (simpl; lia).
  split; [exact H1|]. split; [exact H2|]. split; [exact H2|]. split; [exact H3|].
  destruct (decode_match_copies 5 2 [0x61; 0x62; 0; 0; 0; 0; 0; 0] 8 2 H1 H2 H2 H3)
    as (_ & _ & H).
  destruct H as (out' & Hrun & _); [lia|lia|].
  exists out'. split; [exact Hrun|].
  vm_compute in Hrun. congruence.
Defined.

(** ** The construction of a Huffman table *)

Section Construct.

Variable code_sizes : list Z.
Hypothesis code_sizes_range : Forall (fun s => 0 <= s <= 15) code_sizes.

Lemma code_size_count_nonneg (l : list Z) len : 0 <= code_size_count l len.
Proof. induction l as [|s l IH]; simpl; [lia|]. destruct (s =? len); lia. Qed.

Lemma code_size_count_app (l1 l2 : list Z) len :
  code_size_count (l1 ++ l2) len = code_size_count l1 len + code_size_count l2 len.
Proof. induction l1 as [|s l1 IH]; simpl; [lia|]. rewrite IH. lia. Qed.

Lemma code_size_count_take_S (l : list Z) (i : nat) s len :
  l !! i = Some s ->
  code_size_count (take (S i) l) len =
  code_size_count (take i l) len + (if s =? len then 1 else 0).
Proof.
  intros H. rewrite (take_S_r _ _ _ H), code_size_count_app. simpl. lia.
Qed.

Lemma code_size_count_take_le (l : list Z) (i : nat) len :
  code_size_count (take i l) len <= code_size_count l len.
Proof.
  rewrite <- (take_drop i l) at 2. rewrite code_size_count_app.
  pose proof (code_size_count_nonneg (drop i l) len). lia.
Qed.

Lemma code_size_count_take_lt (l : list Z) (i : nat) len :
  l !! i = Some len -> code_size_count (take i l) len < code_size_count l len.
Proof.
  intros H. pose proof (code_size_count_take_le l (S i) len) as Hle.
  rewrite (code_size_count_take_S _ _ _ _ H), Z.eqb_refl in Hle. lia.
Qed.

Lemma code_size_count_all_zero (l : list Z) :
  code_size_count l 0 = Z.of_nat (length l) <-> Forall (eq 0) l.
Proof.
  assert (Hle : forall l, code_size_count l 0 <= Z.of_nat (length l)).
  { clear. intros l. induction l as [|s l IH]; simpl; [lia|]. destruct (s =? 0); lia. }
  induction l as [|s l IH]; simpl.
  - split; [constructor|reflexivity].
  - specialize (Hle l). destruct (Z.eqb_spec s 0) as [->|Hne].
    + split.
      * intros H. constructor; [reflexivity|]. apply IH. lia.
      * intros H. inversion H; subst. apply IH in H3. lia.
    + split; [lia|]. intros H. inversion H; subst. lia.
Qed.

Lemma shorter_codes_nonneg (l : list Z) len : 0 <= shorter_codes l len.
Proof. induction l as [|s l IH]; simpl; [lia|]. destruct ((0 <? s) && (s <? len)); lia. Qed.

Lemma shorter_codes_succ (l : list Z) len :
  1 <= len ->
  shorter_codes l (len + 1) = shorter_codes l len + code_size_count l len.
Proof.
  intros Hlen. induction l as [|s l IH]; simpl; [lia|]. rewrite IH.
  destruct (Z.ltb_spec 0 s); destruct (Z.ltb_spec s (len + 1));
    destruct (Z.ltb_spec s len); destruct (Z.eqb_spec s len); simpl; lia.
Qed.

Lemma shorter_codes_mono (l : list Z) a b :
  a <= b -> shorter_codes l a <= shorter_codes l b.
Proof.
  intros Hab. induction l as [|s l IH]; simpl; [lia|].
  destruct (Z.ltb_spec 0 s); destruct (Z.ltb_spec s a); destruct (Z.ltb_spec s b);
    simpl; lia.
Qed.

Lemma shorter_codes_bound (l : list Z) len :
  1 <= len -> shorter_codes l len + code_size_count l len <= Z.of_nat (length l).
Proof.
  intros Hlen. induction l as [|s l IH]; simpl length; simpl; [lia|].
  destruct (Z.ltb_spec 0 s); destruct (Z.ltb_spec s len); destruct (Z.eqb_spec s len);
    simpl; lia.
Qed.

Lemma code_sizes_lookup (symbol : nat) :
  (symbol < length code_sizes)%nat ->
  code_sizes !! symbol = Some (load code_sizes (Z.of_nat symbol)) /\
  0 <= load code_sizes (Z.of_nat symbol) <= 15.
Proof.
  intros Hlt. destruct (lookup_lt_is_Some_2 code_sizes symbol Hlt) as [s Hs].
  rewrite (load_lookup _ _ _ Hs). split; [exact Hs|].
  apply (Forall_lookup_1 _ _ _ _ code_sizes_range Hs).
Qed.

(** deflate.c 219-239 on code sizes that are all at most 15: the histogram. *)
Lemma construct_count_code_sizes_spec (k symbol : nat) (counts : list Z) :
  (symbol + k <= length code_sizes)%nat -> length counts = 16%nat ->
  exists counts',
    construct_count_code_sizes k (Z.of_nat symbol) code_sizes 16 counts = Ok counts' /\
    length counts' = 16%nat /\
    forall len, 0 <= len <= 15 ->
      load counts' len =
      load counts len + code_size_count (take k (drop symbol code_sizes)) len.
Proof.
  revert symbol counts. induction k as [|k IH]; intros symbol counts Hlen Hcounts.
  - exists counts. simpl. split; [reflexivity|]. split; [exact Hcounts|]. intros; lia.
  - destruct (code_sizes_lookup symbol) as [Hs Hrange]; [lia|].
    set (s := load code_sizes (Z.of_nat symbol)) in *.
    simpl construct_count_code_sizes. fold s.
    destruct (Z.ltb_spec 16 s); [lia|]. destruct (Z.leb_spec 16 s); [lia|].
    destruct (IH (S symbol) (store counts s (load counts s + 1)))
      as (counts' & Hrun & Hlen' & Hload); [lia|rewrite length_store; exact Hcounts|].
    replace (Z.of_nat symbol + 1) with (Z.of_nat (S symbol)) by lia.
    exists counts'. split; [exact Hrun|]. split; [exact Hlen'|].
    intros len Hl. rewrite Hload by lia.
    rewrite (drop_S _ _ _ Hs). simpl.
    destruct (Z.eqb_spec s len) as [->|Hne].
    + rewrite load_store_eq by lia. lia.
    + rewrite load_store_ne by lia. lia.
Qed.

(** deflate.c 248-268: the loop follows "left = 2 * left - count[ len ]". *)
Lemma construct_check_left_spec (k j : nat) (counts : list Z) :
  (j + k <= 15)%nat ->
  (forall len, 0 <= len <= 15 -> load counts len = code_size_count code_sizes len) ->
  ((forall i : nat, (j < i <= j + k)%nat -> 0 <= left_after code_sizes i) ->
   construct_check_left k (Z.of_nat j + 1) counts (left_after code_sizes j) =
   Ok (left_after code_sizes (j + k))) /\
  ((exists i : nat, (j < i <= j + k)%nat /\ left_after code_sizes i < 0) ->
   construct_check_left k (Z.of_nat j + 1) counts (left_after code_sizes j) =
   Error OverSubscribed).
Proof.
  revert j. induction k as [|k IH]; intros j Hjk Hcounts.
  - simpl. split.
    + intros _. rewrite Nat.add_0_r. reflexivity.
    + intros (i & Hi & _). lia.
  - simpl construct_check_left. rewrite Z.shiftl_mul_pow2 by lia.
    rewrite Hcounts by lia.
    replace (left_after code_sizes j * 2 ^ 1 - code_size_count code_sizes (Z.of_nat j + 1))
      with (left_after code_sizes (S j))
      by (simpl left_after; replace (Z.of_nat (S j)) with (Z.of_nat j + 1) by lia; lia).
    replace (Z.of_nat j + 1 + 1) with (Z.of_nat (S j) + 1) by lia.
    destruct (IH (S j)) as [IHok IHerr]; [lia|exact Hcounts|].
    destruct (Z.ltb_spec (left_after code_sizes (S j)) 0) as [Hneg|Hpos].
    + split; [|reflexivity]. intros Hall. specialize (Hall (S j)). lia.
    + split.
      * intros Hall. rewrite IHok; [f_equal; f_equal; lia|].
        intros i Hi. apply Hall. lia.
      * intros (i & Hi & Hneg). apply IHerr. exists i. split; [|exact Hneg].
        destruct (Nat.eq_dec i (S j)) as [->|]; lia.
Qed.

(** deflate.c 271-280: every offset is the number of symbols with a shorter code. *)
Lemma construct_code_offsets_spec (k j : nat) (counts offsets : list Z) :
  (1 <= j)%nat -> (j + k <= 15)%nat -> length offsets = 16%nat ->
  (forall len, 0 <= len <= 15 -> load counts len = code_size_count code_sizes len) ->
  (forall len, 1 <= len <= Z.of_nat j -> load offsets len = shorter_codes code_sizes len) ->
  length (construct_code_offsets k (Z.of_nat j) counts offsets) = 16%nat /\
  forall len, 1 <= len <= Z.of_nat (j + k) ->
    load (construct_code_offsets k (Z.of_nat j) counts offsets) len =
    shorter_codes code_sizes len.
Proof.
  revert j offsets. induction k as [|k IH]; intros j offsets Hj Hjk Hlen Hcounts Hoffsets.
  - simpl. rewrite Nat.add_0_r. split; [exact Hlen|exact Hoffsets].
  - simpl construct_code_offsets.
    replace (Z.of_nat j + 1) with (Z.of_nat (S j)) by lia.
    replace (j + S k)%nat with (S j + k)%nat by lia.
    apply IH; [lia|lia|rewrite length_store; exact Hlen|exact Hcounts|].
    intros len Hl. destruct (Z.eq_dec len (Z.of_nat (S j))) as [->|Hne].
    + rewrite load_store_eq by lia. rewrite Hoffsets, Hcounts by lia.
      replace (Z.of_nat (S j)) with (Z.of_nat j + 1) by lia.
      symmetry. apply shorter_codes_succ. lia.
    + rewrite load_store_ne by lia. apply Hoffsets. lia.
Qed.

Lemma canonical_index_bound (symbol : nat) :
  (symbol < length code_sizes)%nat -> load code_sizes (Z.of_nat symbol) <> 0 ->
  0 <= canonical_index code_sizes symbol < Z.of_nat (length code_sizes).
Proof.
  intros Hlt Hne. destruct (code_sizes_lookup symbol Hlt) as [Hs Hrange].
  unfold canonical_index. set (len := load code_sizes (Z.of_nat symbol)) in *.
  pose proof (shorter_codes_nonneg code_sizes len).
  pose proof (code_size_count_nonneg (take symbol code_sizes) len).
  pose proof (code_size_count_take_lt code_sizes symbol len Hs).
  pose proof (shorter_codes_bound code_sizes len). lia.
Qed.

(** Two symbols with a code do not share a place. *)
Lemma canonical_index_lt_ne (x s : nat) :
  (x < s)%nat -> (s < length code_sizes)%nat ->
  load code_sizes (Z.of_nat x) <> 0 -> load code_sizes (Z.of_nat s) <> 0 ->
  canonical_index code_sizes x <> canonical_index code_sizes s.
Proof.
  intros Hxs Hs Hx0 Hs0.
  destruct (code_sizes_lookup x) as [Hlx Hrx]; [lia|].
  destruct (code_sizes_lookup s) as [Hls Hrs]; [lia|].
  unfold canonical_index.
  set (lx := load code_sizes (Z.of_nat x)) in *.
  set (ls := load code_sizes (Z.of_nat s)) in *.
  pose proof (code_size_count_nonneg (take x code_sizes) lx).
  pose proof (code_size_count_nonneg (take s code_sizes) ls).
  pose proof (code_size_count_take_lt code_sizes x lx Hlx).
  pose proof (code_size_count_take_lt code_sizes s ls Hls).
  pose proof (shorter_codes_succ code_sizes lx ltac:(lia)).
  pose proof (shorter_codes_succ code_sizes ls ltac:(lia)).
  destruct (Z.lt_trichotomy lx ls) as [Hlt|[Heq|Hgt]].
  - pose proof (shorter_codes_mono code_sizes (lx + 1) ls ltac:(lia)). lia.
  - rewrite <- Heq.
    assert (Hx' : take s code_sizes !! x = Some lx)
      by (rewrite lookup_take_lt by lia; exact Hlx).
    pose proof (code_size_count_take_lt (take s code_sizes) x lx Hx') as Hlt.
    rewrite take_take in Hlt. replace (x `min` s)%nat with x in Hlt by lia. lia.
  - pose proof (shorter_codes_mono code_sizes (ls + 1) lx ltac:(lia)). lia.
Qed.

(** deflate.c 281-309: every symbol with a code is stored at its place. *)
Lemma construct_place_symbols_spec (k s : nat) (offsets codes : list Z) :
  (s + k = length code_sizes)%nat -> (length code_sizes <= 288)%nat ->
  length offsets = 16%nat -> length codes = 288%nat ->
  (forall len, 1 <= len <= 15 ->
     load offsets len =
     shorter_codes code_sizes len + code_size_count (take s code_sizes) len) ->
  (forall x : nat, (x < s)%nat -> load code_sizes (Z.of_nat x) <> 0 ->
     load codes (canonical_index code_sizes x) = Z.of_nat x) ->
  exists codes',
    construct_place_symbols k (Z.of_nat s) code_sizes (Z.of_nat (length code_sizes))
      offsets codes = Ok codes' /\
    length codes' = 288%nat /\
    forall x : nat, (x < length code_sizes)%nat -> load code_sizes (Z.of_nat x) <> 0 ->
      load codes' (canonical_index code_sizes x) = Z.of_nat x.
Proof.
  revert s offsets codes.
  induction k as [|k IH]; intros s offsets codes Hsk Hcap Hoffsets Hcodes Hoff Hplaced.
  - exists codes. simpl. split; [reflexivity|]. split; [exact Hcodes|].
    intros x Hx. apply Hplaced. lia.
  - destruct (code_sizes_lookup s) as [Hs Hrange]; [lia|].
    simpl construct_place_symbols.
    replace (Z.of_nat s + 1) with (Z.of_nat (S s)) by lia.
    set (len := load code_sizes (Z.of_nat s)) in *.
    destruct (Z.eqb_spec len 0) as [Hzero|Hnonzero].
    + apply IH; try assumption; [lia| |].
      * intros len' Hlen'. rewrite Hoff by lia.
        rewrite (code_size_count_take_S _ _ _ _ Hs).
        destruct (Z.eqb_spec len len'); lia.
      * intros x Hx Hx0. destruct (Nat.eq_dec x s) as [->|Hne]; [contradiction|].
        apply Hplaced; [lia|exact Hx0].
    + assert (Hidx : load offsets len = canonical_index code_sizes s)
        by (unfold canonical_index; fold len; apply Hoff; lia).
      pose proof (canonical_index_bound s ltac:(lia) Hnonzero) as Hbound.
      rewrite Hidx.
      destruct (Z.ltb_spec (canonical_index code_sizes s) 0); [lia|].
      destruct (Z.ltb_spec (Z.of_nat (length code_sizes)) (canonical_index code_sizes s));
        [lia|].
      destruct (Z.leb_spec 288 (canonical_index code_sizes s)); [lia|].
      cbn [orb].
      apply IH; try assumption; [lia|rewrite length_store; exact Hoffsets
                                |rewrite length_store; exact Hcodes| |].
      * intros len' Hlen'. rewrite (code_size_count_take_S _ _ _ _ Hs). fold len.
        destruct (Z.eqb_spec len len') as [<-|Hne].
        -- rewrite load_store_eq by lia. unfold canonical_index. fold len. lia.
        -- rewrite load_store_ne by lia. rewrite Hoff by lia. lia.
      * intros x Hx Hx0. destruct (Nat.eq_dec x s) as [->|Hne].
        -- apply load_store_eq. lia.
        -- pose proof (canonical_index_lt_ne x s ltac:(lia) ltac:(lia) Hx0 Hnonzero).
           pose proof (canonical_index_bound x ltac:(lia) Hx0).
           rewrite load_store_ne by lia. apply Hplaced; [lia|exact Hx0].
Qed.

Lemma construct_place_symbols_not_over_subscribed (k : nat) symbol n offsets codes :
  construct_place_symbols k symbol code_sizes n offsets codes <> Error OverSubscribed.
Proof.
  revert symbol offsets codes. induction k as [|k IH]; intros symbol offsets codes; simpl.
  - discriminate.
  - destruct (load code_sizes symbol =? 0); [apply IH|].
    destruct ((load offsets (load code_sizes symbol) <? 0)
              || (n <? load offsets (load code_sizes symbol))); [discriminate|].
    destruct (288 <=? load offsets (load code_sizes symbol)); [discriminate|apply IH].
Qed.

Lemma left_after_negative_stays (i j : nat) :
  (i <= j)%nat -> left_after code_sizes i < 0 -> left_after code_sizes j < 0.
Proof.
  intros Hij Hneg. induction j as [|j IH].
  - assert (i = 0)%nat as -> by lia. exact Hneg.
  - destruct (Nat.eq_dec i (S j)) as [<-|Hne]; [exact Hneg|].
    simpl left_after.
    pose proof (code_size_count_nonneg code_sizes (Z.of_nat (S j))).
    specialize (IH ltac:(lia)). lia.
Qed.

Lemma left_after_all_zero (i : nat) :
  Forall (eq 0) code_sizes -> 1 <= left_after code_sizes i.
Proof.
  intros Hzero.
  assert (Hcount : forall len, len <> 0 -> code_size_count code_sizes len = 0).
  { intros len Hlen. clear code_sizes_range.
    induction Hzero as [|s l <- _ IH]; cbn [code_size_count]; [reflexivity|].
    destruct (Z.eqb_spec 0 len); lia. }
  induction i as [|i IH]; simpl left_after; [lia|].
  rewrite Hcount by lia. lia.
Qed.

Lemma over_subscribed_or_not :
  over_subscribed code_sizes \/
  (forall i : nat, (0 < i <= 15)%nat -> 0 <= left_after code_sizes i).
Proof.
  destruct (Z.ltb_spec (left_after code_sizes 15) 0) as [Hneg|Hpos].
  - left. exists 15%nat. split; [lia|exact Hneg].
  - right. intros i Hi. destruct (Z.ltb_spec (left_after code_sizes i) 0) as [Hneg|]; [|lia].
    pose proof (left_after_negative_stays i 15 ltac:(lia) Hneg). lia.
Qed.

End Construct.

Lemma load_replicate_zero (n : nat) i : load (replicate n 0) i = 0.
Proof.
  unfold load. destruct (replicate n 0 !! Z.to_nat i) as [x|] eqn:E; [|reflexivity].
  apply lookup_replicate in E. simpl. lia.
Qed.

(** deflate.c 271-309 after the histogram: every symbol with a code is
    placed. *)
Lemma construct_offsets_and_place (code_sizes counts : list Z) :
  Forall (fun s => 0 <= s <= 15) code_sizes -> (length code_sizes <= 288)%nat ->
  (forall len, 0 <= len <= 15 -> load counts len = code_size_count code_sizes len) ->
  exists codes,
    construct_place_symbols (length code_sizes) 0 code_sizes
      (Z.of_nat (length code_sizes))
      (construct_code_offsets 14 1 counts (store (store (replicate 16 0) 0 0) 1 0))
      (replicate 288 0) = Ok codes /\
    length codes = 288%nat /\
    forall symbol : nat, (symbol < length code_sizes)%nat ->
      load code_sizes (Z.of_nat symbol) <> 0 ->
      load codes (canonical_index code_sizes symbol) = Z.of_nat symbol.
Proof.
  intros Hrange Hcap Hcounts.
  destruct (construct_code_offsets_spec code_sizes 14 1 counts
              (store (store (replicate 16 0) 0 0) 1 0))
    as [Hofflen Hoff]; [lia|lia|reflexivity|exact Hcounts| |].
  { intros len Hl. assert (len = 1) as -> by lia.
    assert (Hs1 : forall l, shorter_codes l 1 = 0).
    { intros l. induction l as [|s l IH]; simpl; [reflexivity|]. rewrite IH.
      destruct (Z.ltb_spec 0 s); destruct (Z.ltb_spec s 1); simpl; lia. }
    rewrite Hs1. reflexivity. }
  change (Z.of_nat 1) with 1 in Hofflen, Hoff.
  destruct (construct_place_symbols_spec code_sizes Hrange (length code_sizes) 0
              (construct_code_offsets 14 1 counts (store (store (replicate 16 0) 0 0) 1 0))
              (replicate 288 0))
    as (codes & Hrun & Hcodes & Hplaced);
    [lia|exact Hcap|exact Hofflen|apply length_replicate| |lia|].
  { intros len Hl. rewrite Hoff by lia. simpl. lia. }
  exists codes. split; [exact Hrun|]. split; [exact Hcodes|exact Hplaced].
Qed.

(** C7. For every vector of code lengths 0..15:
    deflate_huffman_table_construct fails with OverSubscribed exactly when
    left = 2 * left - count[ len ], from left = 1, is negative at some step
    len = 1..15; and a set that is incomplete (left > 0 after the 15 steps)
    with at least one code and at most 288 symbols is not rejected: the call
    returns 1 with a table that has the 15 bit maximum, the histogram in
    code_counts_array and every symbol with a code at its place of the
    order (code length, symbol) in codes_array. *)
Theorem deflate_huffman_table_construct_over_subscribed (code_sizes : list Z) :
  Forall (fun s => 0 <= s <= 15) code_sizes ->
  (deflate_huffman_table_construct code_sizes (Z.of_nat (length code_sizes))
     = Error OverSubscribed <-> over_subscribed code_sizes) /\
  (0 < left_after code_sizes 15 -> ~ Forall (eq 0) code_sizes ->
   (length code_sizes <= 288)%nat ->
   exists table,
     deflate_huffman_table_construct code_sizes (Z.of_nat (length code_sizes))
       = Ok (TableConstructed, table) /\
     maximum_number_of_bits table = 15 /\
     (forall len, 0 <= len <= 15 ->
        load (code_counts_array table) len = code_size_count code_sizes len) /\
     (forall symbol : nat, (symbol < length code_sizes)%nat ->
        load code_sizes (Z.of_nat symbol) <> 0 ->
        load (codes_array table) (canonical_index code_sizes symbol) = Z.of_nat symbol)).
Proof.
  intros Hrange. unfold deflate_huffman_table_construct.
  destruct (Z.ltb_spec (Z.of_nat (length code_sizes)) 0) as [?|_]; [lia|].
  rewrite Nat2Z.id.
  destruct (construct_count_code_sizes_spec code_sizes Hrange (length code_sizes) 0
              (replicate 16 0)) as (counts & Hrun & Hlen & Hload);
    [lia|apply length_replicate|].
  change (15 + 1) with 16. change (Z.of_nat 0) with 0 in Hrun. rewrite Hrun.
  cbn [result_bind].
  assert (Hcounts : forall len, 0 <= len <= 15 ->
            load counts len = code_size_count code_sizes len).
  { intros len Hl. rewrite Hload by lia. rewrite load_replicate_zero, drop_0.
    rewrite take_ge by lia. lia. }
  clear Hload Hrun.
  rewrite (Hcounts 0) by lia.
  change (Z.to_nat 15) with 15%nat. change (Z.to_nat (15 - 1)) with 14%nat.
  destruct (construct_check_left_spec code_sizes 15 0 counts ltac:(lia) Hcounts)
    as [Hok Herr].
  change (Z.of_nat 0 + 1) with 1 in Hok, Herr.
  change (left_after code_sizes 0) with 1 in Hok, Herr.
  split.
  - destruct (Z.eqb_spec (code_size_count code_sizes 0) (Z.of_nat (length code_sizes)))
      as [Hempty|Hnonempty].
    + split; [discriminate|]. intros (i & Hi & Hneg).
      apply code_size_count_all_zero in Hempty.
      pose proof (left_after_all_zero code_sizes i Hempty). lia.
    + destruct (over_subscribed_or_not code_sizes) as [Hover|Hnot].
      * rewrite Herr; [tauto|]. destruct Hover as (i & Hi & Hneg).
        exists i. split; [lia|exact Hneg].
      * rewrite Hok by (intros i Hi; apply Hnot; lia). cbn [result_bind].
        split.
        -- intros H. exfalso.
           destruct (construct_place_symbols (length code_sizes) 0 code_sizes
                       (Z.of_nat (length code_sizes))
                       (construct_code_offsets 14 1 counts
                          (store (store (replicate 16 0) 0 0) 1 0))
                       (replicate 288 0)) eqn:E; try discriminate.
           cbn [result_bind] in H. inversion H; subst.
           exact (construct_place_symbols_not_over_subscribed _ _ _ _ _ _ E).
        -- intros (i & Hi & Hneg). specialize (Hnot i Hi). lia.
  - intros Hleft Hnonempty Hcap.
    destruct (Z.eqb_spec (code_size_count code_sizes 0) (Z.of_nat (length code_sizes)))
      as [Hempty|_].
    { apply code_size_count_all_zero in Hempty. contradiction. }
    rewrite Hok.
    2:{ intros i Hi. destruct (Z.ltb_spec (left_after code_sizes i) 0) as [Hneg|]; [|lia].
        pose proof (left_after_negative_stays code_sizes i 15 ltac:(lia) Hneg). lia. }
    cbn [result_bind].
    destruct (construct_offsets_and_place code_sizes counts Hrange Hcap Hcounts)
      as (codes & Hrun & Hcodes & Hplaced).
    rewrite Hrun. cbn [result_bind].
    eexists. split; [reflexivity|]. cbn. split; [reflexivity|].
    split; [exact Hcounts|exact Hplaced].
Qed.

Lemma deflate_huffman_table_construct_over_subscribed_witness :
  Forall (fun s => 0 <= s <= 15) [1] /\ 0 < left_after [1] 15 /\
  ~ Forall (eq 0) [1] /\ (length [1] <= 288)%nat /\
  exists table,
    deflate_huffman_table_construct [1] (Z.of_nat (length [1])) = Ok (TableConstructed, table) /\
    load (code_counts_array table) 1 = 1.
Proof.
  assert (H1 : Forall (fun s => 0 <= s <= 15) [1]) by (repeat constructor; lia).
  assert (H2 : 0 < left_after [1] 15) by (vm_compute; reflexivity).
  assert (H3 : ~ Forall (eq 0) [1]) by (intros H; inversion H; lia).
  assert (H4 : (length [1] <= 288)%nat) by (simpl; lia).
  split; [exact H1|]. split; [exact H2|]. split; [exact H3|]. split; [exact H4|].
  destruct (deflate_huffman_table_construct_over_subscribed [1] H1) as [_ H].
  destruct (H H2 H3 H4) as (table & Hrun & _ & Hcounts & _).
  exists table. split; [exact Hrun|]. rewrite Hcounts by lia. reflexivity.
Defined.

(** ** The bytes past [byte_stream_size] are never read *)

Lemma same_visible_load bs bs' i :
  same_visible bs bs' -> 0 <= i < byte_stream_size bs ->
  load (byte_stream bs') i = load (byte_stream bs) i.
Proof.
  intros (_ & _ & _ & _ & _ & _ & Hbytes) Hi. unfold load.
  rewrite Hbytes by lia. reflexivity.
Qed.

Lemma same_visible_set_bit_buffer bs bs' buffer size :
  same_visible bs bs' ->
  same_visible (set_bit_buffer bs buffer size) (set_bit_buffer bs' buffer size).
Proof.
  intros (H1 & H2 & H3 & H4 & H5 & H6 & H7). unfold same_visible; simpl. auto 10.
Qed.

Lemma same_visible_read_byte bs bs' :
  same_visible bs bs' -> byte_stream_offset bs < byte_stream_size bs ->
  same_visible (bit_stream_read_byte bs) (bit_stream_read_byte bs').
Proof.
  intros Hsame Hlt. pose proof Hsame as (H1 & H2 & H3 & H4 & H5 & H6 & H7).
  unfold same_visible, bit_stream_read_byte; simpl.
  rewrite H2, H3, H4. rewrite (same_visible_load bs bs') by (auto; lia).
  repeat split; auto; lia.
Qed.

Lemma respects_ret {A} (a : A) : respects (ret a).
Proof. intros bs bs' H. simpl. split; [reflexivity|exact H]. Qed.

Lemma respects_fail {A} e : respects (@fail A e).
Proof. intros bs bs' H. reflexivity. Qed.

Lemma respects_lift {A} (r : result A) : respects (lift r).
Proof.
  intros bs bs' H. unfold lift. destruct r; simpl; auto. split; [reflexivity|exact H].
Qed.

Lemma respects_bind {A B} (m : M A) (k : A -> M B) :
  respects m -> (forall a, respects (k a)) -> respects (bind m k).
Proof.
  intros Hm Hk bs bs' H. unfold bind. specialize (Hm bs bs' H).
  destruct (m bs) as [[a s]| | |], (m bs') as [[a' s']| | |]; simpl in *;
    try contradiction; try assumption; try reflexivity.
  destruct Hm as [Ha Hs]. simpl in Ha, Hs. subst a'. apply Hk, Hs.
Qed.

Lemma respects_timeout {A} : respects (fun _ => @Timeout (A * deflate_bit_stream)).
Proof. intros bs bs' H. exact I. Qed.

Lemma respects_undefined {A} : respects (fun _ => @Undefined (A * deflate_bit_stream)).
Proof. intros bs bs' H. exact I. Qed.

Lemma bit_stream_fill_same_visible (fuel : nat) n bs bs' :
  same_visible bs bs' ->
  same_result same_visible (bit_stream_fill fuel n bs) (bit_stream_fill fuel n bs').
Proof.
  revert bs bs'. induction fuel as [|fuel IH]; intros bs bs' Hsame;
    pose proof Hsame as (H1 & H2 & H3 & H4 & H5 & H6 & H7); simpl; rewrite ?H1, ?H2, ?H4.
  - destruct (bit_buffer_size bs <? n); simpl; auto.
  - destruct (bit_buffer_size bs <? n); simpl; auto.
    destruct (Z.leb_spec (byte_stream_size bs) (byte_stream_offset bs)); simpl; auto.
    apply IH, same_visible_read_byte; assumption.
Qed.

Lemma bit_stream_prefill_same_visible (fuel : nat) n bs bs' :
  same_visible bs bs' ->
  same_result same_visible (bit_stream_prefill fuel n bs) (bit_stream_prefill fuel n bs').
Proof.
  revert bs bs'. induction fuel as [|fuel IH]; intros bs bs' Hsame;
    pose proof Hsame as (H1 & H2 & H3 & H4 & H5 & H6 & H7); simpl; rewrite ?H1, ?H2, ?H4.
  - destruct (bit_buffer_size bs <? n); simpl; auto.
  - destruct (bit_buffer_size bs <? n); simpl; auto.
    destruct (Z.leb_spec (byte_stream_size bs) (byte_stream_offset bs)); simpl; auto.
    apply IH, same_visible_read_byte; assumption.
Qed.

Lemma respects_get_value n : respects (deflate_bit_stream_get_value n).
Proof.
  intros bs bs' Hsame. unfold deflate_bit_stream_get_value.
  destruct (32 <? n); [reflexivity|].
  destruct (n =? 0); [split; [reflexivity|exact Hsame]|].
  pose proof (bit_stream_fill_same_visible 4 n bs bs' Hsame) as Hfill.
  destruct (bit_stream_fill 4 n bs) as [s| | |], (bit_stream_fill 4 n bs') as [s'| | |];
    simpl in *; try contradiction; try assumption; try reflexivity.
  pose proof Hfill as (H1 & H2 & H3 & H4 & H5 & H6 & H7). rewrite H3, H4.
  destruct (n <? 32); (split; [reflexivity|]); simpl;
    apply same_visible_set_bit_buffer, Hfill.
Qed.

Lemma respects_get_huffman table :
  respects (deflate_bit_stream_get_huffman_encoded_value table).
Proof.
  intros bs bs' Hsame. unfold deflate_bit_stream_get_huffman_encoded_value.
  pose proof (bit_stream_prefill_same_visible (Z.to_nat (maximum_number_of_bits table))
                (maximum_number_of_bits table) bs bs' Hsame) as Hfill.
  destruct (bit_stream_prefill _ _ bs) as [s| | |], (bit_stream_prefill _ _ bs') as [s'| | |];
    simpl in *; try contradiction; try assumption; try reflexivity.
  pose proof Hfill as (H1 & H2 & H3 & H4 & H5 & H6 & H7). rewrite H3, H4.
  destruct (huffman_decode_bits _ _ _ _ _ _ _) as [[v i]|]; [|reflexivity].
  split; [reflexivity|]. simpl. apply same_visible_set_bit_buffer, Hfill.
Qed.

Create HintDb respects.

#[local] Hint Resolve respects_ret respects_fail respects_lift respects_timeout
  respects_undefined respects_get_value respects_get_huffman : respects.

(** One step through a computation: a bind, a conditional, a pair that is
    taken apart, or a call that is known to respect the visible bytes. *)
Ltac respects_step :=
  match goal with
  | |- respects (bind _ _) => apply respects_bind; [|intros ?]
  | |- respects (if ?c then _ else _) => destruct c
  | |- respects (match ?p with (_, _) => _ end) => destruct p
  | |- respects _ => solve [auto with respects]
  end.

Lemma respects_dynamic_read_code_sizes (k : nat) i a :
  respects (dynamic_read_code_sizes k i a).
Proof.
  revert i a. induction k as [|k IH]; intros i a; simpl; repeat respects_step.
Qed.

Lemma respects_dynamic_read_code_lengths (fuel : nat) table n i a :
  respects (dynamic_read_code_lengths fuel table n i a).
Proof.
  revert i a. induction fuel as [|fuel IH]; intros i a; simpl; repeat respects_step.
Qed.

#[local] Hint Resolve respects_dynamic_read_code_sizes
  respects_dynamic_read_code_lengths : respects.

Lemma respects_dynamic_huffman_tables : respects deflate_initialize_dynamic_huffman_tables.
Proof. unfold deflate_initialize_dynamic_huffman_tables. repeat respects_step. Qed.

Lemma respects_decode_huffman_loop (fuel : nat) literals_table distances_table out cap off :
  respects (decode_huffman_loop fuel literals_table distances_table out cap off).
Proof.
  revert out off. induction fuel as [|fuel IH]; intros out off; simpl;
    repeat respects_step.
Qed.

Lemma same_visible_bits_remaining bs bs' :
  same_visible bs bs' -> bits_remaining bs' = bits_remaining bs.
Proof.
  intros (H1 & H2 & H3 & H4 & _). unfold bits_remaining. rewrite H1, H2, H4. reflexivity.
Qed.

Lemma respects_decode_huffman literals_table distances_table out cap off :
  respects (deflate_decode_huffman literals_table distances_table out cap off).
Proof.
  intros bs bs' Hsame. unfold deflate_decode_huffman.
  destruct (SSIZE_MAX <? cap); [reflexivity|].
  rewrite (same_visible_bits_remaining bs bs' Hsame).
  apply respects_decode_huffman_loop, Hsame.
Qed.

Lemma same_visible_memory_copy bs bs' out off n :
  same_visible bs bs' -> 0 <= n ->
  byte_stream_offset bs + n <= byte_stream_size bs ->
  memory_copy out off (byte_stream bs') (byte_stream_offset bs) n =
  memory_copy out off (byte_stream bs) (byte_stream_offset bs) n.
Proof.
  intros (H1 & H2 & H3 & H4 & H5 & H6 & H7) Hn Hle. unfold memory_copy.
  f_equal. f_equal. apply list_eq. intros i.
  destruct (Nat.lt_ge_cases i (Z.to_nat n)) as [Hi|Hi].
  - rewrite !lookup_take_lt by exact Hi. rewrite !lookup_drop. apply H7. lia.
  - rewrite !lookup_take_ge by exact Hi. reflexivity.
Qed.

Lemma respects_stored_block out cap off :
  respects (decompress_stored_block out cap off).
Proof.
  intros bs bs' Hsame. unfold decompress_stored_block.
  assert (H4 : bit_buffer_size bs' = bit_buffer_size bs) by apply Hsame.
  rewrite H4. clear H4.
  generalize (Z.land (bit_buffer_size bs) 7). intros skip_bits.
  revert bs bs' Hsame.
  apply respects_bind.
  { destruct (0 <? _); [apply respects_get_value|apply respects_ret]. }
  intros _. apply respects_bind; [apply respects_get_value|]. intros block_size.
  destruct (negb _); [apply respects_fail|].
  destruct (_ =? 0); [apply respects_ret|].
  intros s s' Hs. pose proof Hs as (H1 & H2 & H3 & H4 & H5 & H6 & H7).
  rewrite H1, H2.
  destruct (Z.ltb_spec (byte_stream_size s - byte_stream_offset s) (Z.land block_size 65535));
    [reflexivity|].
  destruct (cap - off <? Z.land block_size 65535); [reflexivity|].
  assert (0 <= Z.land block_size 65535) by (apply Z.land_nonneg; lia).
  split; simpl.
  - f_equal. symmetry. apply same_visible_memory_copy; [exact Hs|lia|lia].
  - unfold same_visible; simpl. repeat split; auto; lia.
Qed.

Lemma respects_decompress_blocks (fuel : nat) fixed_literals fixed_distances out cap off :
  respects (decompress_blocks fuel fixed_literals fixed_distances out cap off).
Proof.
  revert out off. induction fuel as [|fuel IH]; intros out off bs bs' Hsame;
    pose proof Hsame as (H1 & H2 & _); simpl; rewrite H1, H2.
  - destruct (byte_stream_offset bs <? byte_stream_size bs); [exact I|].
    split; [reflexivity|exact Hsame].
  - destruct (byte_stream_offset bs <? byte_stream_size bs);
      [|split; [reflexivity|exact Hsame]].
    revert bs bs' Hsame H1 H2. intros bs bs' Hsame _ _. revert bs bs' Hsame.
    apply respects_bind; [apply respects_get_value|]. intros v.
    apply respects_bind.
    + destruct (_ =? 0); [apply respects_stored_block|].
      destruct (_ =? 1); [apply respects_decode_huffman|].
      destruct (_ =? 2); [|apply respects_fail].
      apply respects_bind; [apply respects_dynamic_huffman_tables|].
      intros [literals_table distances_table]. apply respects_decode_huffman.
    + intros [out' off']. destruct (negb _); [apply respects_ret|apply IH].
Qed.

Lemma same_visible_load_clamped bs bs' i :
  same_visible bs bs' -> Z.of_nat (Z.to_nat i) < byte_stream_size bs ->
  load (byte_stream bs') i = load (byte_stream bs) i.
Proof.
  intros (_ & _ & _ & _ & _ & _ & Hbytes) Hi. unfold load.
  rewrite Hbytes by lia. reflexivity.
Qed.

(** deflate.c 2018-2022 moves the offset back and leaves the bytes alone. *)
Lemma trailer_rewind_same (fuel : nat) bs bs' :
  byte_stream_size bs' = byte_stream_size bs ->
  byte_stream_offset bs' = byte_stream_offset bs ->
  bit_buffer_size bs' = bit_buffer_size bs ->
  same_result
    (fun s s' =>
       byte_stream s = byte_stream bs /\ byte_stream s' = byte_stream bs' /\
       byte_stream_offset s' = byte_stream_offset s /\
       byte_stream_offset s <= byte_stream_offset bs)
    (trailer_rewind fuel bs) (trailer_rewind fuel bs').
Proof.
  revert bs bs'. induction fuel as [|fuel IH]; intros bs bs' H1 H2 H4; simpl; rewrite H4.
  - destruct (8 <=? bit_buffer_size bs); simpl; auto. repeat split; auto; lia.
  - destruct (8 <=? bit_buffer_size bs); simpl; [|repeat split; auto; lia].
    match goal with |- same_result _ (trailer_rewind fuel ?s) (trailer_rewind fuel ?s') =>
      specialize (IH s s') end.
    simpl in IH. specialize (IH H1 ltac:(lia) ltac:(lia)).
    destruct (trailer_rewind fuel _) as [s| | |], (trailer_rewind fuel _) as [s'| | |];
      simpl in *; try contradiction; try assumption.
    destruct IH as (? & ? & ? & ?). repeat split; auto; lia.
Qed.

Lemma decompress_trailer_same_visible out off bs bs' :
  same_visible bs bs' -> decompress_trailer out off bs' = decompress_trailer out off bs.
Proof.
  intros Hsame. pose proof Hsame as (H1 & H2 & H3 & H4 & H5 & H6 & H7).
  unfold decompress_trailer. rewrite H1, H2, H4.
  destruct (Z.leb_spec 4 (byte_stream_size bs - byte_stream_offset bs)) as [Hge|];
    [|reflexivity].
  pose proof (trailer_rewind_same (Z.to_nat (bit_buffer_size bs)) bs bs' H1 H2 H4) as Hrew.
  destruct (trailer_rewind _ bs) as [s| | |], (trailer_rewind _ bs') as [s'| | |];
    simpl in *; try contradiction; try reflexivity; try congruence.
  destruct Hrew as (Hs & Hs' & Hoff & Hle). rewrite Hs, Hs', Hoff.
  assert (Hbe : byte_stream_copy_to_uint32_big_endian (byte_stream bs') (byte_stream_offset s)
                = byte_stream_copy_to_uint32_big_endian (byte_stream bs) (byte_stream_offset s)).
  { unfold byte_stream_copy_to_uint32_big_endian.
    rewrite !(same_visible_load_clamped bs bs') by (auto; lia). reflexivity. }
  rewrite Hbe. reflexivity.
Qed.

(** What follows the header depends on the bytes below the size that the
    header leaves behind, and on no other byte of the input. *)
Lemma decompress_payload_hidden (compressed_data compressed_data' : list Z)
    (compressed_data_size compressed_data_offset : Z) out cap :
  length compressed_data' = length compressed_data ->
  0 <= compressed_data_offset ->
  (forall j : nat, Z.of_nat j < compressed_data_size ->
     compressed_data' !! j = compressed_data !! j) ->
  decompress_payload compressed_data' compressed_data_size compressed_data_offset out cap =
  decompress_payload compressed_data compressed_data_size compressed_data_offset out cap.
Proof.
  intros Hlen Hoff Hbytes. unfold decompress_payload.
  destruct (compressed_data_size <=? compressed_data_offset); [reflexivity|].
  destruct deflate_initialize_fixed_huffman_tables as [[literals distances]| | |];
    try reflexivity.
  cbn [result_bind].
  match goal with
  | |- result_bind (decompress_blocks ?f' _ _ _ _ _ ?s') _ =
       result_bind (decompress_blocks ?f _ _ _ _ _ ?s) _ =>
      assert (Hsame : same_visible s s') by (unfold same_visible; simpl; auto 10);
      change f' with f;
      pose proof (respects_decompress_blocks f literals distances out cap 0 s s' Hsame)
        as Hblocks
  end.
  destruct (decompress_blocks _ _ _ _ _ _ _) as [[[o1 off1] s1]| | |],
           (decompress_blocks _ _ _ _ _ _ _) as [[[o2 off2] s2]| | |];
    simpl in *; try contradiction; try reflexivity; try congruence.
  destruct Hblocks as [Heq Hs]. simpl in Heq, Hs. inversion Heq; subst.
  apply decompress_trailer_same_visible, Hs.
Qed.



(** ** The stored block *)

(** deflate.c 1852-1875: the size is masked to 16 bits before the copy of
    the size is taken from its upper 16 bits, so the copy is always 0xffff
    and the comparison is one of LEN with 0xffff. *)
Lemma stored_block_size_check (block_size : Z) :
  (Z.land block_size 0xffff =? Z.lxor (Z.shiftr (Z.land block_size 0xffff) 16) 0xffff)
  = (Z.land block_size 0xffff =? 0xffff).
Proof.
  assert (H : Z.shiftr (Z.land block_size 0xffff) 16 = 0).
  { apply Z.bits_inj'. intros i Hi. rewrite Z.shiftr_spec, Z.land_spec, Z.bits_0 by lia.
    change 65535 with (Z.ones 16). rewrite Z.ones_spec_high by lia. apply andb_false_r. }
  rewrite H. reflexivity.
Qed.

(** C2 (the code differs). The stored block of the claim, LEN = 256 and
    NLEN = 0xFEFF around the bytes 00..FF, is rejected with LengthMismatch. *)
Theorem stored_block_256_rejected :
  decompress stream_stored_256 256 = Error LengthMismatch.
Proof. vm_compute. reflexivity. Qed.

(** C1 (the code differs). The zlib stream that stores "A" is rejected
    instead of giving back "A". *)
Theorem round_trip_stored_A_fails :
  decompress stream_stored_A 16 = Error LengthMismatch.
Proof. vm_compute. reflexivity. Qed.

(** ** The Adler-32 trailer *)

(** C3 (the code differs). The stream of "A" with the last byte of its
    Adler-32 flipped is accepted and gives "A". *)
Theorem bad_adler_accepted :
  decompress stream_fixed_A_bad_adler 16 = Ok [0x41].
Proof. vm_compute. reflexivity. Qed.

(** ** The preset dictionary *)



(** ** Code sizes above 15 *)

(** C6 (the code differs). A code size of 16 passes the guard of
    deflate_huffman_table_construct, which compares with number_of_codes
    (16), and is then used as an index into the 16 entries of
    code_counts_array. *)
Theorem code_size_16_not_rejected :
  deflate_huffman_table_construct [16] 1 = Undefined.
Proof. reflexivity. Qed.

(** A code size above 16 is rejected. *)
Lemma code_size_17_rejected :
  deflate_huffman_table_construct [17] 1 = Error OutOfRange.
Proof. reflexivity. Qed.

(** ** Every call returns or fails: no undefined access, enough fuel *)

Lemma returns_bind {A B} (r : result A) (k : A -> result B) (Q : A -> Prop) R :
  returns r Q -> (forall a, Q a -> returns (k a) R) -> returns (result_bind r k) R.
Proof. destruct r; simpl; auto. Qed.

Lemma returns_weaken {A} (r : result A) (Q Q' : A -> Prop) :
  returns r Q -> (forall a, Q a -> Q' a) -> returns r Q'.
Proof. destruct r; simpl; auto. Qed.

Lemma budget_mono b b' bs : budget b bs -> b <= b' -> budget b' bs.
Proof. intros [Hwf Hb] Hle. split; [exact Hwf|lia]. Qed.

Lemma budget_nonneg b bs : budget b bs -> 0 <= b.
Proof. intros [(_ & Hs & Hoff) Hb]. unfold bits_remaining in Hb. lia. Qed.

Lemma triple_bind {A B} P (m : M A) Q (k : A -> M B) R :
  triple P m Q -> (forall a, triple (Q a) (k a) R) -> triple P (bind m k) R.
Proof.
  intros Hm Hk bs HP. unfold bind. eapply returns_bind; [apply Hm, HP|].
  intros [a s] HQ. simpl. apply Hk, HQ.
Qed.

Lemma triple_weaken {A} (P P' : deflate_bit_stream -> Prop) (m : M A)
    (Q Q' : A -> deflate_bit_stream -> Prop) :
  triple P m Q -> (forall bs, P' bs -> P bs) -> (forall a s, Q a s -> Q' a s) ->
  triple P' m Q'.
Proof.
  intros Hm HP HQ bs HP'. eapply returns_weaken; [apply Hm, HP, HP'|].
  intros [a s]. apply HQ.
Qed.

Lemma triple_pure {A} (F : Prop) P (m : M A) Q :
  (F -> triple P m Q) -> triple (fun bs => F /\ P bs) m Q.
Proof. intros H bs [HF HP]. apply H; assumption. Qed.

Lemma triple_ret {A} (a : A) (Q : A -> deflate_bit_stream -> Prop) P :
  (forall bs, P bs -> Q a bs) -> triple P (ret a) Q.
Proof. intros H bs HP. simpl. auto. Qed.

Lemma triple_fail {A} e P (Q : A -> deflate_bit_stream -> Prop) : triple P (fail e) Q.
Proof. intros bs HP. exact I. Qed.

Lemma triple_lift {A} (r : result A) P (Q : A -> deflate_bit_stream -> Prop) :
  returns r (fun a => forall bs, P bs -> Q a bs) -> triple P (lift r) Q.
Proof. intros Hr bs HP. unfold lift. destruct r; simpl in *; auto. Qed.

Lemma lor_uint32_bound a b : 0 <= a < 2 ^ 32 -> 0 <= Z.lor a (uint32 b) < 2 ^ 32.
Proof.
  intros Ha. apply testbit_bound; [lia|]. intros i Hi.
  rewrite Z.lor_spec, (testbit_above a 32 i) by lia. unfold uint32.
  rewrite Z.mod_pow2_bits_high by lia. reflexivity.
Qed.

Lemma bit_stream_read_byte_wf bs :
  bit_stream_wf bs -> byte_stream_offset bs < byte_stream_size bs ->
  bit_stream_wf (bit_stream_read_byte bs).
Proof.
  intros (Hb & Hs & Hoff) Hlt. unfold bit_stream_wf, bit_stream_read_byte; simpl.
  split; [|lia]. apply lor_uint32_bound, Hb.
Qed.

Lemma bit_stream_fill_budget (fuel : nat) n b bs :
  budget b bs -> n - bit_buffer_size bs <= 8 * Z.of_nat fuel ->
  returns (bit_stream_fill fuel n bs) (fun s => budget b s /\ n <= bit_buffer_size s).
Proof.
  revert bs. induction fuel as [|fuel IH]; intros bs Hb Hfuel; simpl.
  - destruct (Z.ltb_spec (bit_buffer_size bs) n); [lia|]. split; [exact Hb|lia].
  - destruct (Z.ltb_spec (bit_buffer_size bs) n); [|split; [exact Hb|lia]].
    destruct (Z.leb_spec (byte_stream_size bs) (byte_stream_offset bs)); [exact I|].
    apply IH.
    + destruct Hb as [Hwf Hb]. split; [apply bit_stream_read_byte_wf; assumption|].
      rewrite bit_stream_read_byte_remaining. exact Hb.
    + unfold bit_stream_read_byte; simpl. lia.
Qed.

Lemma bit_stream_prefill_budget (fuel : nat) n b bs :
  budget b bs -> n - bit_buffer_size bs <= Z.of_nat fuel ->
  returns (bit_stream_prefill fuel n bs) (budget b).
Proof.
  revert bs. induction fuel as [|fuel IH]; intros bs Hb Hfuel; simpl.
  - destruct (Z.ltb_spec (bit_buffer_size bs) n); [lia|]. exact Hb.
  - destruct (Z.ltb_spec (bit_buffer_size bs) n); [|exact Hb].
    destruct (Z.leb_spec (byte_stream_size bs) (byte_stream_offset bs)); [exact Hb|].
    apply IH.
    + destruct Hb as [Hwf Hb]. split; [apply bit_stream_read_byte_wf; assumption|].
      rewrite bit_stream_read_byte_remaining. exact Hb.
    + unfold bit_stream_read_byte; simpl. lia.
Qed.

Lemma budget_consume b bs n :
  budget b bs -> 0 <= n <= bit_buffer_size bs ->
  budget (b - n)
    (set_bit_buffer bs (Z.shiftr (bit_buffer bs) n) (bit_buffer_size bs - n)).
Proof.
  intros [(Hb & Hs & Hoff) Hrem] Hn. unfold budget, bit_stream_wf, bits_remaining in *.
  simpl. split; [|lia]. split; [|lia].
  apply testbit_bound; [lia|]. intros i Hi. rewrite Z.shiftr_spec by lia.
  apply (testbit_above _ 32); lia.
Qed.

(** A call of deflate_bit_stream_get_value returns a value of
    [number_of_bits] bits and takes that many bits, or fails. *)
Lemma triple_get_value n b :
  0 <= n ->
  triple (budget b) (deflate_bit_stream_get_value n)
    (fun v s => 0 <= v < 2 ^ n /\ budget (b - n) s).
Proof.
  intros Hn bs Hb. unfold deflate_bit_stream_get_value.
  destruct (Z.ltb_spec 32 n); [exact I|].
  destruct (Z.eqb_spec n 0) as [->|].
  { simpl. split; [lia|]. rewrite Z.sub_0_r. exact Hb. }
  eapply returns_bind.
  { apply (bit_stream_fill_budget 4 n b bs Hb). destruct Hb as [(_ & ? & _) _]. lia. }
  intros s [Hs Hge]. pose proof Hs as [(Hbuf & _ & _) _].
  destruct (Z.ltb_spec n 32); simpl.
  - split; [|apply budget_consume; [exact Hs|lia]].
    apply testbit_bound; [lia|]. intros i Hi. rewrite mask_low_bits by lia.
    destruct (Z.ltb_spec i n); [lia|]. destruct (Z.leb_spec (n + 32) i); simpl.
    + rewrite (testbit_above _ 32 i) by lia. reflexivity.
    + apply andb_false_r.
  - assert (n = 32) as -> by lia. split; [exact Hbuf|].
    destruct Hs as [(_ & Hsize & Hoff) Hrem].
    unfold budget, bit_stream_wf, bits_remaining in *. simpl. repeat split; lia.
Qed.

Lemma load_nonneg (a : list Z) i : Forall (fun c => 0 <= c) a -> 0 <= load a i.
Proof.
  intros Ha. unfold load. destruct (a !! Z.to_nat i) as [x|] eqn:E; simpl; [|lia].
  apply (Forall_lookup_1 _ _ _ _ Ha E).
Qed.

Lemma huffman_decode_bits_index (k : nat) start table buffer code first index v i :
  huffman_decode_bits k start table buffer code first index = Some (v, i) ->
  start <= i < start + Z.of_nat k /\ exists j, v = load (codes_array table) j.
Proof.
  revert start buffer code first index.
  induction k as [|k IH]; intros start buffer code first index; simpl; [discriminate|].
  destruct (_ <? _).
  - intros H; inversion H; subst. split; [lia|]. eexists. reflexivity.
  - intros H. apply IH in H. destruct H as [H1 H2]. split; [lia|exact H2].
Qed.

(** A call of deflate_bit_stream_get_huffman_encoded_value returns a symbol
    of the table and takes at least one bit, or fails. *)
Lemma triple_get_huffman table b :
  triple (budget b) (deflate_bit_stream_get_huffman_encoded_value table)
    (fun v s => (table_wf table -> 0 <= v) /\ budget (b - 1) s).
Proof.
  intros bs Hb. unfold deflate_bit_stream_get_huffman_encoded_value.
  eapply returns_bind.
  { apply (bit_stream_prefill_budget _ _ b bs Hb). destruct Hb as [(_ & ? & _) _]. lia. }
  intros s Hs.
  destruct (huffman_decode_bits _ _ _ _ _ _ _) as [[v i]|] eqn:E; [|exact I].
  apply huffman_decode_bits_index in E. destruct E as [Hi [j ->]]. simpl. split.
  - intros Hwf. apply load_nonneg, Hwf.
  - apply (budget_mono (b - i)); [|lia]. apply budget_consume; [exact Hs|].
    destruct (Z.ltb_spec (maximum_number_of_bits table) (bit_buffer_size s)); lia.
Qed.

Lemma table_below_wf n table : table_below n table -> table_wf table.
Proof. intros H. apply (Forall_impl _ _ _ H). intros c Hc. lia. Qed.

Lemma table_below_mono n n' table : table_below n table -> n <= n' -> table_below n' table.
Proof. intros H Hn. apply (Forall_impl _ _ _ H). intros c Hc. lia. Qed.

Lemma load_below (a : list Z) n i : 0 < n -> Forall (fun c => 0 <= c < n) a -> 0 <= load a i < n.
Proof.
  intros Hn Ha. unfold load. destruct (a !! Z.to_nat i) as [x|] eqn:E; simpl; [|lia].
  apply (Forall_lookup_1 _ _ _ _ Ha E).
Qed.

(** On a table with symbols below [n] the value is below [n]. *)
Lemma triple_get_huffman_below n table b :
  0 < n -> table_below n table ->
  triple (budget b) (deflate_bit_stream_get_huffman_encoded_value table)
    (fun v s => 0 <= v < n /\ budget (b - 1) s).
Proof.
  intros Hn Htable bs Hb. unfold deflate_bit_stream_get_huffman_encoded_value.
  eapply returns_bind.
  { apply (bit_stream_prefill_budget _ _ b bs Hb). destruct Hb as [(_ & ? & _) _]. lia. }
  intros s Hs.
  destruct (huffman_decode_bits _ _ _ _ _ _ _) as [[v i]|] eqn:E; [|exact I].
  apply huffman_decode_bits_index in E. destruct E as [Hi [j ->]]. simpl. split.
  - apply load_below; assumption.
  - apply (budget_mono (b - i)); [|lia]. apply budget_consume; [exact Hs|].
    destruct (Z.ltb_spec (maximum_number_of_bits table) (bit_buffer_size s)); lia.
Qed.

(** *** The tables *)

Lemma load_take (l : list Z) (m : nat) i :
  (Z.to_nat i < m)%nat -> load (take m l) i = load l i.
Proof. intros Hi. unfold load. rewrite lookup_take_lt by exact Hi. reflexivity. Qed.

(** deflate_huffman_table_construct reads the first [number_of_code_sizes]
    entries of the array it is given. *)
Lemma construct_count_code_sizes_prefix (k symbol m : nat) l c counts :
  (symbol + k <= m)%nat ->
  construct_count_code_sizes k (Z.of_nat symbol) (take m l) c counts =
  construct_count_code_sizes k (Z.of_nat symbol) l c counts.
Proof.
  revert symbol counts. induction k as [|k IH]; intros symbol counts Hm; simpl;
    [reflexivity|].
  rewrite load_take by lia.
  replace (Z.of_nat symbol + 1) with (Z.of_nat (S symbol)) by lia.
  rewrite IH by lia. reflexivity.
Qed.

Lemma construct_place_symbols_prefix (k symbol m : nat) l n offsets codes :
  (symbol + k <= m)%nat ->
  construct_place_symbols k (Z.of_nat symbol) (take m l) n offsets codes =
  construct_place_symbols k (Z.of_nat symbol) l n offsets codes.
Proof.
  revert symbol offsets codes. induction k as [|k IH]; intros symbol offsets codes Hm; simpl;
    [reflexivity|].
  rewrite load_take by lia.
  replace (Z.of_nat symbol + 1) with (Z.of_nat (S symbol)) by lia.
  rewrite !IH by lia. reflexivity.
Qed.

Lemma deflate_huffman_table_construct_prefix l n :
  deflate_huffman_table_construct (take (Z.to_nat n) l) n =
  deflate_huffman_table_construct l n.
Proof.
  unfold deflate_huffman_table_construct. destruct (n <? 0); [reflexivity|].
  change 0 with (Z.of_nat 0).
  rewrite construct_count_code_sizes_prefix by lia.
  destruct (construct_count_code_sizes _ _ _ _ _) as [counts| | |]; try reflexivity.
  cbn [result_bind]. destruct (_ =? n); [reflexivity|].
  destruct (construct_check_left _ _ _ _); try reflexivity. cbn [result_bind].
  rewrite construct_place_symbols_prefix by lia. reflexivity.
Qed.

Lemma construct_check_left_returns (k : nat) bit_index counts left_value :
  returns (construct_check_left k bit_index counts left_value) (fun _ => True).
Proof.
  revert bit_index left_value. induction k as [|k IH]; intros bit_index left_value; simpl;
    [exact I|].
  destruct (_ <? _); [exact I|apply IH].
Qed.

Lemma construct_place_symbols_below (k : nat) symbol l n offsets codes codes' bound :
  construct_place_symbols k symbol l n offsets codes = Ok codes' ->
  0 <= symbol -> symbol + Z.of_nat k <= bound ->
  Forall (fun c => 0 <= c < bound) codes -> Forall (fun c => 0 <= c < bound) codes'.
Proof.
  revert symbol offsets codes. induction k as [|k IH]; intros symbol offsets codes.
  - simpl. intros H; inversion H; subst. auto.
  - rewrite Nat2Z.inj_succ. simpl.
    destruct (_ =? 0); [intros H ? ? ?; apply (IH _ _ _ H); [lia|lia|assumption]|].
    destruct (_ || _); [discriminate|]. destruct (_ <=? _); [discriminate|].
    intros H Hs Hb Hc. apply (IH _ _ _ H); [lia|lia|].
    unfold store. apply Forall_insert; [assumption|lia].
Qed.

(** On code sizes 0..15, at most 288 of them, a call of
    deflate_huffman_table_construct returns or fails, and the symbols of the
    table are below the number of code sizes. *)
Lemma deflate_huffman_table_construct_returns (l : list Z) n :
  code_sizes_wf l -> 0 < n <= 288 -> n <= Z.of_nat (length l) ->
  returns (deflate_huffman_table_construct l n) (fun r => table_below n (snd r)).
Proof.
  intros Hrange Hn Hlen. rewrite <- deflate_huffman_table_construct_prefix.
  assert (Hrange' : Forall (fun s => 0 <= s <= 15) (take (Z.to_nat n) l))
    by (apply Forall_take, Hrange).
  assert (Hlen' : length (take (Z.to_nat n) l) = Z.to_nat n)
    by (rewrite length_take; lia).
  set (l' := take (Z.to_nat n) l) in *.
  unfold deflate_huffman_table_construct.
  destruct (Z.ltb_spec n 0); [lia|].
  destruct (construct_count_code_sizes_spec l' Hrange' (Z.to_nat n) 0 (replicate 16 0))
    as (counts & Hrun & Hclen & Hload); [lia|apply length_replicate|].
  change (15 + 1) with 16. change (Z.of_nat 0) with 0 in Hrun. rewrite Hrun.
  cbn [result_bind].
  assert (Hcounts : forall len, 0 <= len <= 15 ->
            load counts len = code_size_count l' len).
  { intros len Hl. rewrite Hload by lia. rewrite load_replicate_zero, drop_0.
    rewrite take_ge by lia. lia. }
  destruct (_ =? n).
  { unfold returns, table_below. cbn [snd codes_array]. apply Forall_replicate. lia. }
  eapply returns_bind; [apply construct_check_left_returns|]. intros _ _.
  destruct (construct_offsets_and_place l' counts Hrange' ltac:(lia) Hcounts)
    as (codes & Hplace & _ & _).
  rewrite Hlen' in Hplace. rewrite Z2Nat.id in Hplace by lia.
  change (Z.to_nat (15 - 1)) with 14%nat. rewrite Hplace.
  unfold returns, table_below. cbn [result_bind snd codes_array].
  apply (construct_place_symbols_below _ _ _ _ _ _ _ n Hplace); [lia|lia|].
  apply Forall_replicate. lia.
Qed.

Lemma construct_table_returns (l : list Z) n :
  code_sizes_wf l -> 0 < n <= 288 -> n <= Z.of_nat (length l) ->
  returns (construct_table l n) (table_below n).
Proof.
  intros Hrange Hn Hlen. unfold construct_table.
  eapply returns_bind; [apply deflate_huffman_table_construct_returns; assumption|].
  intros [[] t] Ht; simpl; [exact Ht|exact I].
Qed.

(** *** The dynamic Huffman tables *)

Lemma load_code_size (a : list Z) i : code_sizes_wf a -> 0 <= load a i <= 15.
Proof.
  intros Ha. unfold load. destruct (a !! Z.to_nat i) as [x|] eqn:E; simpl; [|lia].
  apply (Forall_lookup_1 _ _ _ _ Ha E).
Qed.

Lemma store_code_size (a : list Z) i v :
  code_sizes_wf a -> 0 <= v <= 15 -> code_sizes_wf (store a i (uint16 v)).
Proof.
  intros Ha Hv. unfold code_sizes_wf, store. rewrite uint16_small by lia.
  apply Forall_insert; assumption.
Qed.

Lemma triple_dynamic_read_code_sizes (k : nat) i a b :
  code_sizes_wf a ->
  triple (budget b) (dynamic_read_code_sizes k i a)
    (fun a' s => (code_sizes_wf a' /\ length a' = length a) /\ budget b s).
Proof.
  revert i a b. induction k as [|k IH]; intros i a b Ha; simpl.
  - apply triple_ret. auto.
  - eapply triple_bind; [apply triple_get_value; lia|]. intros v. cbv beta.
    apply triple_pure. intros Hv.
    eapply triple_weaken; [apply (IH _ _ (b - 3)); apply store_code_size; [exact Ha|lia]
                          |auto|].
    intros a' s [[Ha' Hlen] Hs]. rewrite length_store in Hlen.
    split; [split; assumption|]. apply (budget_mono _ _ _ Hs). lia.
Qed.

Lemma dynamic_clear_code_sizes_wf (k : nat) i a :
  code_sizes_wf a ->
  code_sizes_wf (dynamic_clear_code_sizes k i a) /\
  length (dynamic_clear_code_sizes k i a) = length a.
Proof.
  revert i a. induction k as [|k IH]; intros i a Ha; simpl; [auto|].
  destruct (IH (i + 1) (store a (load code_sizes_sequence i) 0)) as [H1 H2].
  - unfold code_sizes_wf, store. apply Forall_insert; [exact Ha|lia].
  - rewrite length_store in H2. auto.
Qed.

Lemma dynamic_repeat_code_size_wf (k : nat) i code_size a :
  code_sizes_wf a -> 0 <= code_size <= 15 ->
  code_sizes_wf (dynamic_repeat_code_size k i code_size a) /\
  length (dynamic_repeat_code_size k i code_size a) = length a.
Proof.
  revert i a. induction k as [|k IH]; intros i a Ha Hc; simpl; [auto|].
  destruct (IH (i + 1) (store a i (uint16 code_size))) as [H1 H2].
  - apply store_code_size; assumption.
  - exact Hc.
  - rewrite length_store in H2. auto.
Qed.

Lemma triple_dynamic_read_code_lengths (fuel : nat) table n i a b :
  n - i <= Z.of_nat fuel -> table_wf table -> code_sizes_wf a ->
  triple (budget b) (dynamic_read_code_lengths fuel table n i a)
    (fun a' s => (code_sizes_wf a' /\ length a' = length a) /\ budget b s).
Proof.
  revert i a b. induction fuel as [|fuel IH]; intros i a b Hfuel Htable Ha; simpl.
  - destruct (Z.ltb_spec i n); [lia|]. apply triple_ret. auto.
  - destruct (Z.ltb_spec i n); [|apply triple_ret; auto].
    eapply triple_bind; [apply triple_get_huffman|]. intros symbol. cbv beta.
    apply triple_pure. intros Hsymbol. specialize (Hsymbol Htable).
    assert (Hback : forall (a0 a' : list Z) s,
              length a0 = length a ->
              (code_sizes_wf a' /\ length a' = length a0) /\ budget (b - 1) s ->
              (code_sizes_wf a' /\ length a' = length a) /\ budget b s).
    { intros a0 a' s Hlen [[H1 H2] H3]. split; [split; [exact H1|congruence]|].
      apply (budget_mono _ _ _ H3). lia. }
    destruct (Z.ltb_spec symbol 16).
    { eapply triple_weaken;
        [apply (IH _ _ (b - 1)); [lia|exact Htable|apply store_code_size; [exact Ha|lia]]
        |auto|].
      intros a' s. apply Hback, length_store. }
    eapply (triple_bind _ _ (fun (p : Z * Z) s =>
              (0 <= fst p <= 15 /\ 3 <= snd p) /\ budget (b - 1) s)).
    + assert (Hrepeat : forall bits base code_size : Z,
                0 <= bits -> 3 <= base -> 0 <= code_size <= 15 ->
                triple (budget (b - 1))
                  (let* times_to_repeat := deflate_bit_stream_get_value bits in
                   ret (code_size, times_to_repeat + base))
                  (fun (p : Z * Z) s =>
                     (0 <= fst p <= 15 /\ 3 <= snd p) /\ budget (b - 1) s)).
      { intros bits base code_size Hbits Hbase Hcs.
        eapply triple_bind; [apply triple_get_value; exact Hbits|]. intros t. cbv beta.
        apply triple_ret. intros s [Ht Hs]. simpl. split; [lia|].
        apply (budget_mono _ _ _ Hs). lia. }
      destruct (symbol =? 16).
      * destruct (i =? 0); [apply triple_fail|].
        apply Hrepeat; [lia|lia|apply load_code_size, Ha].
      * destruct (symbol =? 17); [apply Hrepeat; lia|].
        destruct (symbol =? 18); [apply Hrepeat; lia|apply triple_fail].
    + intros [code_size times_to_repeat]. cbv beta. simpl fst. simpl snd.
      destruct (n <? i + times_to_repeat); [apply triple_fail|].
      apply triple_pure. intros [Hcs Ht].
      destruct (dynamic_repeat_code_size_wf (Z.to_nat times_to_repeat) i code_size a Ha Hcs)
        as [Hwf Hlen].
      eapply triple_weaken; [apply (IH _ _ (b - 1)); [lia|exact Htable|exact Hwf]|auto|].
      intros a' s. apply Hback, Hlen.
Qed.

Lemma land_31_bound x : 0 <= x -> 0 <= Z.land x 31 <= 31.
Proof.
  intros Hx. change 31 with (Z.ones 5) at 1 2. rewrite Z.land_ones by lia.
  pose proof (Z.mod_pos_bound x (2 ^ 5) ltac:(lia)). lia.
Qed.

(** The tables of a dynamic block: the distance symbols are below 30. *)
Lemma triple_dynamic_huffman_tables b :
  triple (budget b) deflate_initialize_dynamic_huffman_tables
    (fun tables s => table_below 30 (snd tables) /\ budget b s).
Proof.
  unfold deflate_initialize_dynamic_huffman_tables.
  eapply triple_bind; [apply triple_get_value; lia|]. intros v. cbv beta.
  apply triple_pure. intros Hv.
  apply (triple_weaken (budget b) _ _
           (fun tables s => table_below 30 (snd tables) /\ budget b s));
    [|intros bs H; apply (budget_mono _ _ _ H); lia|auto].
  pose proof (land_31_bound v ltac:(lia)) as Hlit.
  assert (0 <= Z.shiftr v 5) by (apply Z.shiftr_nonneg; lia).
  pose proof (land_31_bound (Z.shiftr v 5) ltac:(lia)) as Hdist.
  destruct (Z.ltb_spec 286 (Z.land v 31 + 257)); [apply triple_fail|].
  destruct (Z.ltb_spec 30 (Z.land (Z.shiftr v 5) 31 + 1)); [apply triple_fail|].
  assert (Hwf0 : code_sizes_wf (replicate 316 0))
    by (apply Forall_replicate; lia).
  eapply triple_bind; [apply (triple_dynamic_read_code_sizes _ _ _ b Hwf0)|].
  intros a. cbv beta. apply triple_pure. intros [Ha Hlen].
  rewrite length_replicate in Hlen.
  match goal with |- context [dynamic_clear_code_sizes ?k ?i a] =>
    destruct (dynamic_clear_code_sizes_wf k i a Ha) as [Hc Hclen];
    set (a1 := dynamic_clear_code_sizes k i a) in * end.
  eapply triple_bind.
  { apply triple_lift. eapply returns_weaken;
      [apply construct_table_returns; [exact Hc|lia|lia]|].
    intros t Ht bs Hbs. exact (conj (table_below_wf _ _ Ht) Hbs). }
  intros codes_table. cbv beta. apply triple_pure. intros Htable.
  eapply triple_bind;
    [apply (triple_dynamic_read_code_lengths _ _ _ _ _ b); [lia|exact Htable|exact Hc]|].
  intros a2. cbv beta. apply triple_pure. intros [Ha2 Hlen2].
  destruct (load a2 256 =? 0); [apply triple_fail|].
  eapply (triple_bind _ _ (fun _ s => budget b s)).
  { apply triple_lift. eapply returns_weaken;
      [apply construct_table_returns; [exact Ha2|lia|lia]|]. auto. }
  intros literals_table. cbv beta.
  eapply (triple_bind _ _ (fun t s => table_below 30 t /\ budget b s)).
  { apply triple_lift. eapply returns_weaken;
      [apply construct_table_returns;
         [apply Forall_drop, Ha2|lia|rewrite length_drop; lia]|].
    intros t Ht bs Hbs. split; [apply (table_below_mono _ _ _ Ht); lia|exact Hbs]. }
  intros distances_table. cbv beta. apply triple_ret. auto.
Qed.

(** *** The blocks *)

Lemma decode_match_returns size offset out cap off :
  returns (decode_match size offset out cap off) (fun _ => True).
Proof.
  unfold decode_match. destruct (_ <? _); [exact I|].
  destruct (_ <? _); exact I.
Qed.

Lemma triple_decode_huffman_loop (fuel : nat) literals_table distances_table out cap off b :
  table_below 30 distances_table ->
  b < Z.of_nat fuel ->
  triple (budget b) (decode_huffman_loop fuel literals_table distances_table out cap off)
    (fun _ s => budget b s).
Proof.
  intros Hdistances.
  revert out off b. induction fuel as [|fuel IH]; intros out off b Hfuel; simpl.
  - intros bs Hb. apply budget_nonneg in Hb. lia.
  - assert (Hback : forall (x : list Z * Z) s, budget (b - 1) s -> budget b s)
      by (intros _ s H'; apply (budget_mono _ _ _ H'); lia).
    assert (Hextra : forall x, 0 <= uint8 x)
      by (intros x; unfold uint8; apply Z.mod_pos_bound; lia).
    eapply (triple_bind _ _ (fun _ s => budget (b - 1) s)).
    { eapply triple_weaken; [apply (triple_get_huffman _ b)|auto|]. intros x s [_ H]. exact H. }
    intros code_value. cbv beta.
    destruct (code_value <? 256).
    { destruct (cap <=? off); [apply triple_fail|].
      eapply triple_weaken; [apply (IH _ _ (b - 1)); lia|auto|exact Hback]. }
    destruct ((256 <? code_value) && (code_value <? 286)).
    + eapply (triple_bind _ _ (fun _ s => budget (b - 1) s)).
      { eapply triple_weaken; [apply (triple_get_value _ (b - 1)); apply Hextra|auto|].
        intros x s [_ H]. apply (budget_mono _ _ _ H).
        pose proof (Hextra (load literal_codes_number_of_extra_bits (code_value - 257))).
        lia. }
      intros extra. cbv beta.
      eapply (triple_bind _ _ (fun v s => 0 <= v < 30 /\ budget (b - 1) s)).
      { eapply triple_weaken;
          [apply (triple_get_huffman_below 30 _ (b - 1)); [lia|exact Hdistances]|auto|].
        intros x s [Hx H]. split; [exact Hx|]. apply (budget_mono _ _ _ H). lia. }
      intros distance_code. cbv beta. apply triple_pure. intros Hcode.
      destruct (Z.ltb_spec distance_code 0) as [Hneg|_]; [lia|].
      destruct (Z.leb_spec 30 distance_code) as [Hbig|_]; [lia|]. cbn [orb].
      eapply (triple_bind _ _ (fun _ s => budget (b - 1) s)).
      { eapply triple_weaken; [apply (triple_get_value _ (b - 1)); apply Hextra|auto|].
        intros x s [_ H]. apply (budget_mono _ _ _ H).
        pose proof (Hextra (load distance_codes_number_of_extra_bits distance_code)). lia. }
      intros extra'. cbv beta.
      eapply (triple_bind _ _ (fun _ s => budget (b - 1) s)).
      { apply triple_lift. eapply returns_weaken; [apply decode_match_returns|]. auto. }
      intros [out' off']. cbv beta.
      destruct (distance_code =? 256).
      * apply triple_ret. intros s H. apply (Hback (out', off')), H.
      * eapply triple_weaken; [apply (IH _ _ (b - 1)); lia|auto|exact Hback].
    + destruct (negb _); [apply triple_fail|].
      apply triple_ret. intros s H. apply (Hback (out, off)), H.
Qed.

Lemma triple_decode_huffman literals_table distances_table out cap off b :
  table_below 30 distances_table ->
  triple (budget b) (deflate_decode_huffman literals_table distances_table out cap off)
    (fun _ s => budget b s).
Proof.
  intros Hdistances bs Hb. unfold deflate_decode_huffman.
  destruct (SSIZE_MAX <? cap); [exact I|].
  assert (Hrem : 0 <= bits_remaining bs)
    by (destruct Hb as [(_ & ? & ?) _]; unfold bits_remaining; lia).
  eapply returns_weaken.
  - apply (triple_decode_huffman_loop (S (Z.to_nat (bits_remaining bs)))
             literals_table distances_table out cap off (bits_remaining bs));
      [exact Hdistances|lia|].
    split; [apply Hb|lia].
  - intros [a s] H. apply (budget_mono _ _ _ H). apply Hb.
Qed.

Lemma triple_stored_block out cap off b :
  triple (budget b) (decompress_stored_block out cap off) (fun _ s => budget b s).
Proof.
  intros bs Hb. unfold decompress_stored_block.
  generalize (Z.land (bit_buffer_size bs) 7). intros skip_bits.
  revert bs Hb.
  apply (triple_bind (budget b) _ (fun _ s => budget b s) _ (fun _ s => budget b s)).
  { destruct (Z.ltb_spec 0 skip_bits).
    - eapply triple_weaken; [apply (triple_get_value _ b); lia|auto|].
      intros x s [_ H']. apply (budget_mono _ _ _ H'). lia.
    - apply triple_ret. auto. }
  intros _. eapply triple_bind; [apply (triple_get_value _ b); lia|].
  intros block_size. cbv beta.
  destruct (negb _); [apply triple_fail|].
  destruct (_ =? 0).
  { apply triple_ret. intros s [_ H]. apply (budget_mono _ _ _ H). lia. }
  intros s [_ [(Hbuf & Hsize & Hoff) Hrem]].
  destruct (Z.ltb_spec (byte_stream_size s - byte_stream_offset s) (Z.land block_size 65535));
    [exact I|].
  destruct (cap - off <? Z.land block_size 65535); [exact I|].
  assert (0 <= Z.land block_size 65535) by (apply Z.land_nonneg; lia).
  unfold returns, budget, bit_stream_wf, bits_remaining in *. simpl. repeat split; lia.
Qed.

Lemma triple_decompress_blocks (fuel : nat) fixed_literals fixed_distances out cap off b :
  table_below 30 fixed_distances ->
  b < Z.of_nat fuel ->
  triple (budget b) (decompress_blocks fuel fixed_literals fixed_distances out cap off)
    (fun _ s => budget b s).
Proof.
  intros Hdistances.
  revert out off b. induction fuel as [|fuel IH]; intros out off b Hfuel bs Hb; simpl.
  - apply budget_nonneg in Hb. lia.
  - destruct (byte_stream_offset bs <? byte_stream_size bs); [|exact Hb].
    revert bs Hb.
    apply (triple_bind (budget b) _ (fun v s => 0 <= v < 2 ^ 3 /\ budget (b - 3) s) _
             (fun _ s => budget b s)); [apply (triple_get_value _ b); lia|].
    intros v. cbv beta.
    assert (Hback : forall (x : list Z * Z) s, budget (b - 3) s -> budget b s)
      by (intros _ s H'; apply (budget_mono _ _ _ H'); lia).
    eapply (triple_bind _ _ (fun _ s => budget (b - 3) s)).
    + apply (triple_weaken (budget (b - 3)) _ _ (fun _ s => budget (b - 3) s));
        [|intros s [_ H]; exact H|auto].
      destruct (_ =? 0); [apply triple_stored_block|].
      destruct (_ =? 1); [apply triple_decode_huffman, Hdistances|].
      destruct (_ =? 2); [|apply triple_fail].
      eapply triple_bind; [apply triple_dynamic_huffman_tables|].
      intros [literals_table distances_table]. cbn [snd]. apply triple_pure.
      apply triple_decode_huffman.
    + intros [out' off']. destruct (negb _).
      * apply triple_ret. intros s H. apply (Hback (out', off')), H.
      * eapply triple_weaken; [apply (IH _ _ (b - 3)); lia|auto|exact Hback].
Qed.

(** *** The trailer and the whole call *)

Lemma trailer_rewind_returns (fuel : nat) bs :
  bit_buffer_size bs <= Z.of_nat fuel -> returns (trailer_rewind fuel bs) (fun _ => True).
Proof.
  revert bs. induction fuel as [|fuel IH]; intros bs Hfuel; simpl.
  - destruct (Z.leb_spec 8 (bit_buffer_size bs)); [lia|exact I].
  - destruct (Z.leb_spec 8 (bit_buffer_size bs)); [|exact I].
    apply IH. simpl. lia.
Qed.

Lemma adler32_blocks_returns (fuel : nat) buffer size st :
  (Z.to_nat size <= fuel)%nat ->
  exists size' st', adler32_blocks fuel buffer size st = Ok (size', st') /\ size' <= size.
Proof.
  revert size st. induction fuel as [|fuel IH]; intros size st Hfuel.
  - simpl. destruct (Z.leb_spec 5552 size); [lia|]. exists size, st. split; [reflexivity|lia].
  - rewrite adler32_blocks_step. destruct (Z.leb_spec 5552 size).
    + destruct (Nat.iter 347 (adler32_16_bytes buffer) st) as [[lo hi] off].
      destruct (IH (size - 5552) (adler32_modulo lo, adler32_modulo hi, off))
        as (size' & st' & Hrun & Hle); [lia|].
      exists size', st'. split; [exact Hrun|lia].
    + exists size, st. split; [reflexivity|lia].
Qed.

Lemma deflate_calculate_adler32_returns buffer size initial_value :
  returns (deflate_calculate_adler32 buffer size initial_value) (fun _ => True).
Proof.
  unfold deflate_calculate_adler32. destruct (SSIZE_MAX <? size); [exact I|].
  destruct (adler32_blocks_returns (Z.to_nat size) buffer size
              (Z.land initial_value 65535, Z.land (Z.shiftr initial_value 16) 65535, 0))
    as (size1 & st1 & Hrun & Hle); [lia|].
  rewrite Hrun. cbn [result_bind].
  destruct (0 <? size1); [|destruct st1 as [[lo hi] off]; exact I].
  destruct (adler32_tail_16_spec buffer (Z.to_nat size) size1 st1)
    as (size2 & Hrun2 & Hle2 & _); [lia|].
  rewrite Hrun2. cbn [result_bind]. rewrite adler32_tail_1_spec by lia. cbn [result_bind].
  destruct (Nat.iter (Z.to_nat size2) _ _) as [[lo hi] off]. exact I.
Qed.

Lemma decompress_trailer_returns out off bs :
  returns (decompress_trailer out off bs) (fun _ => True).
Proof.
  unfold decompress_trailer. destruct (4 <=? _); [|exact I].
  eapply returns_bind; [apply trailer_rewind_returns; lia|]. intros s _.
  eapply returns_bind; [apply deflate_calculate_adler32_returns|]. intros c _.
  destruct (negb _); exact I.
Qed.

Lemma fixed_code_size_wf (symbols : list nat) :
  code_sizes_wf (map (fun symbol => fixed_code_size (Z.of_nat symbol)) symbols).
Proof.
  apply Forall_forall. intros s Hin. apply list_elem_of_fmap in Hin.
  destruct Hin as (x & -> & _). unfold fixed_code_size.
  repeat destruct (_ <? _); lia.
Qed.

(** The fixed tables: the distance symbols are below 30. *)
Lemma deflate_initialize_fixed_huffman_tables_returns :
  returns deflate_initialize_fixed_huffman_tables (fun tables => table_below 30 (snd tables)).
Proof.
  unfold deflate_initialize_fixed_huffman_tables.
  eapply (returns_bind _ _ (fun _ => True)).
  { eapply returns_weaken;
      [apply construct_table_returns;
         [apply fixed_code_size_wf|lia|rewrite length_map, length_seq; lia]|].
    auto. }
  intros literals_table _.
  eapply returns_bind.
  { apply construct_table_returns;
      [apply Forall_drop, fixed_code_size_wf|lia
      |rewrite length_drop, length_map, length_seq; lia]. }
  intros distances_table Ht. exact Ht.
Qed.


(** ** The bytes before the first byte of the blocks are never read *)

Section Window.

Variable lo : Z.

Lemma same_window_load bs bs' i :
  same_window lo bs bs' -> lo <= i < byte_stream_size bs ->
  load (byte_stream bs') i = load (byte_stream bs) i.
Proof.
  intros (_ & _ & _ & _ & Hlo & _ & _ & Hbytes) Hi. unfold load.
  rewrite Hbytes by lia. reflexivity.
Qed.

Lemma same_window_read_byte bs bs' :
  same_window lo bs bs' -> byte_stream_offset bs < byte_stream_size bs ->
  same_window lo (bit_stream_read_byte bs) (bit_stream_read_byte bs').
Proof.
  intros Hsame Hlt. pose proof Hsame as (H1 & H2 & H3 & H4 & H5 & H6 & H7 & H8).
  unfold same_window, bit_stream_read_byte; simpl.
  rewrite H2, H3, H4. rewrite (same_window_load bs bs') by (auto; lia).
  repeat split; auto; lia.
Qed.

(** Bits are taken from the bit buffer. *)
Lemma same_window_take bs bs' buffer n :
  same_window lo bs bs' -> 0 <= n <= bit_buffer_size bs ->
  same_window lo (set_bit_buffer bs buffer (bit_buffer_size bs - n))
    (set_bit_buffer bs' buffer (bit_buffer_size bs - n)).
Proof.
  intros (H1 & H2 & H3 & H4 & H5 & H6 & H7 & H8) Hn.
  unfold same_window; simpl. repeat split; auto; lia.
Qed.

Lemma keeps_window_ret {A} (a : A) : keeps_window lo (ret a).
Proof. intros bs bs' H. simpl. split; [reflexivity|exact H]. Qed.

Lemma keeps_window_fail {A} e : keeps_window lo (@fail A e).
Proof. intros bs bs' H. reflexivity. Qed.

Lemma keeps_window_lift {A} (r : result A) : keeps_window lo (lift r).
Proof.
  intros bs bs' H. unfold lift. destruct r; simpl; auto. split; [reflexivity|exact H].
Qed.

Lemma keeps_window_bind {A B} (m : M A) (k : A -> M B) :
  keeps_window lo m -> (forall a, keeps_window lo (k a)) -> keeps_window lo (bind m k).
Proof.
  intros Hm Hk bs bs' H. unfold bind. specialize (Hm bs bs' H).
  destruct (m bs) as [[a s]| | |], (m bs') as [[a' s']| | |]; simpl in *;
    try contradiction; try assumption; try reflexivity.
  destruct Hm as [Ha Hs]. simpl in Ha, Hs. subst a'. apply Hk, Hs.
Qed.

Lemma keeps_window_timeout {A} :
  keeps_window lo (fun _ => @Timeout (A * deflate_bit_stream)).
Proof. intros bs bs' H. exact I. Qed.

Lemma keeps_window_undefined {A} :
  keeps_window lo (fun _ => @Undefined (A * deflate_bit_stream)).
Proof. intros bs bs' H. exact I. Qed.

Lemma bit_stream_fill_same_window (fuel : nat) n bs bs' :
  same_window lo bs bs' ->
  same_result (fun s s' => same_window lo s s' /\ n <= bit_buffer_size s)
    (bit_stream_fill fuel n bs) (bit_stream_fill fuel n bs').
Proof.
  revert bs bs'. induction fuel as [|fuel IH]; intros bs bs' Hsame;
    pose proof Hsame as (H1 & H2 & H3 & H4 & H5 & H6 & H7 & H8); simpl;
    rewrite ?H1, ?H2, ?H4.
  - destruct (Z.ltb_spec (bit_buffer_size bs) n); simpl; auto.
  - destruct (Z.ltb_spec (bit_buffer_size bs) n); simpl; auto.
    destruct (Z.leb_spec (byte_stream_size bs) (byte_stream_offset bs)); simpl; auto.
    apply IH, same_window_read_byte; assumption.
Qed.

Lemma bit_stream_prefill_same_window (fuel : nat) n bs bs' :
  same_window lo bs bs' ->
  same_result (same_window lo) (bit_stream_prefill fuel n bs) (bit_stream_prefill fuel n bs').
Proof.
  revert bs bs'. induction fuel as [|fuel IH]; intros bs bs' Hsame;
    pose proof Hsame as (H1 & H2 & H3 & H4 & H5 & H6 & H7 & H8); simpl;
    rewrite ?H1, ?H2, ?H4.
  - destruct (bit_buffer_size bs <? n); simpl; auto.
  - destruct (bit_buffer_size bs <? n); simpl; auto.
    destruct (Z.leb_spec (byte_stream_size bs) (byte_stream_offset bs)); simpl; auto.
    apply IH, same_window_read_byte; assumption.
Qed.

Lemma keeps_window_get_value n :
  0 <= n -> keeps_window lo (deflate_bit_stream_get_value n).
Proof.
  intros Hn bs bs' Hsame. unfold deflate_bit_stream_get_value.
  destruct (32 <? n); [reflexivity|].
  destruct (n =? 0); [split; [reflexivity|exact Hsame]|].
  pose proof (bit_stream_fill_same_window 4 n bs bs' Hsame) as Hfill.
  destruct (bit_stream_fill 4 n bs) as [s| | |], (bit_stream_fill 4 n bs') as [s'| | |];
    simpl in *; try contradiction; try assumption; try reflexivity.
  destruct Hfill as [Hfill Hsize].
  pose proof Hfill as (H1 & H2 & H3 & H4 & H5 & H6 & H7 & H8). rewrite H3, H4.
  destruct (n <? 32); (split; [reflexivity|]); simpl.
  - apply same_window_take; [exact Hfill|lia].
  - unfold same_window; simpl. repeat split; auto; lia.
Qed.

Lemma keeps_window_get_huffman table :
  keeps_window lo (deflate_bit_stream_get_huffman_encoded_value table).
Proof.
  intros bs bs' Hsame. unfold deflate_bit_stream_get_huffman_encoded_value.
  pose proof (bit_stream_prefill_same_window (Z.to_nat (maximum_number_of_bits table))
                (maximum_number_of_bits table) bs bs' Hsame) as Hfill.
  destruct (bit_stream_prefill _ _ bs) as [s| | |], (bit_stream_prefill _ _ bs') as [s'| | |];
    simpl in *; try contradiction; try assumption; try reflexivity.
  pose proof Hfill as (H1 & H2 & H3 & H4 & H5 & H6 & H7 & H8). rewrite H3, H4.
  destruct (huffman_decode_bits _ _ _ _ _ _ _) as [[v i]|] eqn:E; [|reflexivity].
  apply huffman_decode_bits_index in E. destruct E as [Hi _].
  split; [reflexivity|]. simpl. apply same_window_take; [exact Hfill|].
  destruct (Z.ltb_spec (maximum_number_of_bits table) (bit_buffer_size s)); lia.
Qed.

End Window.

Lemma uint8_nonneg x : 0 <= uint8 x.
Proof. unfold uint8. apply Z.mod_pos_bound. lia. Qed.

Create HintDb window.

#[local] Hint Resolve keeps_window_ret keeps_window_fail keeps_window_lift
  keeps_window_timeout keeps_window_undefined keeps_window_get_value
  keeps_window_get_huffman uint8_nonneg : window.
#[local] Hint Extern 1 (0 <= _) => lia : window.

(** One step through a computation, as [respects_step]. *)
Ltac window_step :=
  match goal with
  | |- keeps_window _ (bind _ _) => apply keeps_window_bind; [|intros ?]
  | |- keeps_window _ (if ?c then _ else _) => destruct c
  | |- keeps_window _ (match ?p with (_, _) => _ end) => destruct p
  | |- keeps_window _ _ => solve [auto with window]
  end.

Lemma keeps_window_dynamic_read_code_sizes lo (k : nat) i a :
  keeps_window lo (dynamic_read_code_sizes k i a).
Proof.
  revert i a. induction k as [|k IH]; intros i a; simpl; repeat window_step.
Qed.

Lemma keeps_window_dynamic_read_code_lengths lo (fuel : nat) table n i a :
  keeps_window lo (dynamic_read_code_lengths fuel table n i a).
Proof.
  revert i a. induction fuel as [|fuel IH]; intros i a; simpl; repeat window_step.
Qed.

#[local] Hint Resolve keeps_window_dynamic_read_code_sizes
  keeps_window_dynamic_read_code_lengths : window.

Lemma keeps_window_dynamic_huffman_tables lo :
  keeps_window lo deflate_initialize_dynamic_huffman_tables.
Proof. unfold deflate_initialize_dynamic_huffman_tables. repeat window_step. Qed.

Lemma keeps_window_decode_huffman_loop lo (fuel : nat) literals_table distances_table
    out cap off :
  keeps_window lo (decode_huffman_loop fuel literals_table distances_table out cap off).
Proof.
  revert out off. induction fuel as [|fuel IH]; intros out off; simpl;
    repeat window_step.
Qed.

Lemma same_window_bits_remaining lo bs bs' :
  same_window lo bs bs' -> bits_remaining bs' = bits_remaining bs.
Proof.
  intros (H1 & H2 & H3 & H4 & _). unfold bits_remaining. rewrite H1, H2, H4. reflexivity.
Qed.

Lemma keeps_window_decode_huffman lo literals_table distances_table out cap off :
  keeps_window lo (deflate_decode_huffman literals_table distances_table out cap off).
Proof.
  intros bs bs' Hsame. unfold deflate_decode_huffman.
  destruct (SSIZE_MAX <? cap); [reflexivity|].
  rewrite (same_window_bits_remaining lo bs bs' Hsame).
  apply keeps_window_decode_huffman_loop, Hsame.
Qed.

Lemma same_window_memory_copy lo bs bs' out off n :
  same_window lo bs bs' -> 0 <= n ->
  byte_stream_offset bs + n <= byte_stream_size bs ->
  memory_copy out off (byte_stream bs') (byte_stream_offset bs) n =
  memory_copy out off (byte_stream bs) (byte_stream_offset bs) n.
Proof.
  intros (H1 & H2 & H3 & H4 & H5 & H6 & H7 & H8) Hn Hle. unfold memory_copy.
  f_equal. f_equal. apply list_eq. intros i.
  destruct (Nat.lt_ge_cases i (Z.to_nat n)) as [Hi|Hi].
  - rewrite !lookup_take_lt by exact Hi. rewrite !lookup_drop. apply H8. lia.
  - rewrite !lookup_take_ge by exact Hi. reflexivity.
Qed.

Lemma keeps_window_stored_block lo out cap off :
  keeps_window lo (decompress_stored_block out cap off).
Proof.
  intros bs bs' Hsame. unfold decompress_stored_block.
  assert (H4 : bit_buffer_size bs' = bit_buffer_size bs) by apply Hsame.
  rewrite H4. clear H4.
  generalize (Z.land (bit_buffer_size bs) 7). intros skip_bits.
  revert bs bs' Hsame.
  apply keeps_window_bind.
  { destruct (Z.ltb_spec 0 skip_bits);
      [apply keeps_window_get_value; lia|apply keeps_window_ret]. }
  intros _. apply keeps_window_bind; [apply keeps_window_get_value; lia|].
  intros block_size.
  destruct (negb _); [apply keeps_window_fail|].
  destruct (_ =? 0); [apply keeps_window_ret|].
  intros s s' Hs. pose proof Hs as (H1 & H2 & H3 & H4 & H5 & H6 & H7 & H8).
  rewrite H1, H2.
  destruct (Z.ltb_spec (byte_stream_size s - byte_stream_offset s) (Z.land block_size 65535));
    [reflexivity|].
  destruct (cap - off <? Z.land block_size 65535); [reflexivity|].
  assert (0 <= Z.land block_size 65535) by (apply Z.land_nonneg; lia).
  split; simpl.
  - f_equal. symmetry. apply (same_window_memory_copy lo); [exact Hs|lia|lia].
  - unfold same_window; simpl. repeat split; auto; lia.
Qed.

Lemma keeps_window_decompress_blocks lo (fuel : nat) fixed_literals fixed_distances
    out cap off :
  keeps_window lo (decompress_blocks fuel fixed_literals fixed_distances out cap off).
Proof.
  revert out off. induction fuel as [|fuel IH]; intros out off bs bs' Hsame;
    pose proof Hsame as (H1 & H2 & _); simpl; rewrite H1, H2.
  - destruct (byte_stream_offset bs <? byte_stream_size bs); [exact I|].
    split; [reflexivity|exact Hsame].
  - destruct (byte_stream_offset bs <? byte_stream_size bs);
      [|split; [reflexivity|exact Hsame]].
    revert bs bs' Hsame H1 H2. intros bs bs' Hsame _ _. revert bs bs' Hsame.
    apply keeps_window_bind; [apply keeps_window_get_value; lia|]. intros v.
    apply keeps_window_bind.
    + destruct (_ =? 0); [apply keeps_window_stored_block|].
      destruct (_ =? 1); [apply keeps_window_decode_huffman|].
      destruct (_ =? 2); [|apply keeps_window_fail].
      apply keeps_window_bind; [apply keeps_window_dynamic_huffman_tables|].
      intros [literals_table distances_table]. apply keeps_window_decode_huffman.
    + intros [out' off']. destruct (negb _); [apply keeps_window_ret|apply IH].
Qed.

(** deflate.c 2018-2022 gives back bytes that were read from [lo] on. *)
Lemma trailer_rewind_same_window lo (fuel : nat) bs bs' :
  same_window lo bs bs' ->
  same_result
    (fun s s' => same_window lo s s' /\ byte_stream_size s = byte_stream_size bs /\
                 byte_stream_offset s <= byte_stream_offset bs)
    (trailer_rewind fuel bs) (trailer_rewind fuel bs').
Proof.
  revert bs bs'. induction fuel as [|fuel IH]; intros bs bs' Hsame;
    pose proof Hsame as (H1 & H2 & H3 & H4 & H5 & H6 & H7 & H8); simpl; rewrite H4.
  - destruct (8 <=? bit_buffer_size bs); simpl; auto. split; [exact Hsame|lia].
  - destruct (Z.leb_spec 8 (bit_buffer_size bs)); simpl; [|split; [exact Hsame|lia]].
    match goal with |- same_result _ (trailer_rewind fuel ?s) (trailer_rewind fuel ?s') =>
      specialize (IH s s') end.
    simpl in IH.
    assert (Hs : same_window lo
              {| byte_stream := byte_stream bs; byte_stream_size := byte_stream_size bs;
                 byte_stream_offset := byte_stream_offset bs - 1;
                 bit_buffer := bit_buffer bs; bit_buffer_size := bit_buffer_size bs - 8 |}
              {| byte_stream := byte_stream bs'; byte_stream_size := byte_stream_size bs';
                 byte_stream_offset := byte_stream_offset bs' - 1;
                 bit_buffer := bit_buffer bs'; bit_buffer_size := bit_buffer_size bs - 8 |}).
    { unfold same_window; simpl. rewrite H2. repeat split; auto; lia. }
    specialize (IH Hs).
    destruct (trailer_rewind fuel _) as [s| | |], (trailer_rewind fuel _) as [s'| | |];
      simpl in *; try contradiction; try assumption.
    destruct IH as (Hw & Hsz & Hle). split; [exact Hw|lia].
Qed.

Lemma decompress_trailer_same_window lo out off bs bs' :
  same_window lo bs bs' -> decompress_trailer out off bs' = decompress_trailer out off bs.
Proof.
  intros Hsame. pose proof Hsame as (H1 & H2 & H3 & H4 & H5 & H6 & H7 & H8).
  unfold decompress_trailer. rewrite H1, H2, H4.
  destruct (Z.leb_spec 4 (byte_stream_size bs - byte_stream_offset bs)) as [Hge|];
    [|reflexivity].
  pose proof (trailer_rewind_same_window lo (Z.to_nat (bit_buffer_size bs)) bs bs' Hsame)
    as Hrew.
  destruct (trailer_rewind _ bs) as [s| | |], (trailer_rewind _ bs') as [s'| | |];
    simpl in *; try contradiction; try reflexivity; try congruence.
  destruct Hrew as (Hw & Hsize & Hle).
  pose proof Hw as (G1 & G2 & G3 & G4 & G5 & G6 & G7 & G8).
  rewrite G2.
  assert (Hbe : byte_stream_copy_to_uint32_big_endian (byte_stream s') (byte_stream_offset s)
                = byte_stream_copy_to_uint32_big_endian (byte_stream s) (byte_stream_offset s)).
  { unfold byte_stream_copy_to_uint32_big_endian.
    rewrite !(same_window_load lo s s') by (auto; lia). reflexivity. }
  rewrite Hbe. reflexivity.
Qed.

(** What follows the header depends on the bytes from the offset that the
    header leaves behind on, and on no earlier byte of the input. *)
Lemma decompress_payload_window (compressed_data compressed_data' : list Z)
    (compressed_data_size compressed_data_offset : Z) out cap :
  0 <= compressed_data_offset ->
  (forall j : nat, compressed_data_offset <= Z.of_nat j < compressed_data_size ->
     compressed_data' !! j = compressed_data !! j) ->
  decompress_payload compressed_data' compressed_data_size compressed_data_offset out cap =
  decompress_payload compressed_data compressed_data_size compressed_data_offset out cap.
Proof.
  intros Hoff Hbytes. unfold decompress_payload.
  destruct (compressed_data_size <=? compressed_data_offset); [reflexivity|].
  destruct deflate_initialize_fixed_huffman_tables as [[literals distances]| | |];
    try reflexivity.
  cbn [result_bind].
  match goal with
  | |- result_bind (decompress_blocks ?f' _ _ _ _ _ ?s') _ =
       result_bind (decompress_blocks ?f _ _ _ _ _ ?s) _ =>
      assert (Hsame : same_window compressed_data_offset s s')
        by (unfold same_window; simpl; repeat split; auto; lia);
      change f' with f;
      pose proof (keeps_window_decompress_blocks compressed_data_offset f literals distances
                    out cap 0 s s' Hsame) as Hblocks
  end.
  destruct (decompress_blocks _ _ _ _ _ _ _) as [[[o1 off1] s1]| | |],
           (decompress_blocks _ _ _ _ _ _ _) as [[[o2 off2] s2]| | |];
    simpl in *; try contradiction; try reflexivity; try congruence.
  destruct Hblocks as [Heq Hs]. simpl in Heq, Hs. inversion Heq; subst.
  apply (decompress_trailer_same_window compressed_data_offset), Hs.
Qed.



(** ** The stored block, in general *)

(** X7. deflate.c 1837-1887 on a byte aligned stream with the 4 bytes of LEN and
    NLEN in it: the block is rejected exactly when the little-endian LEN
    differs from 0xffff; NLEN plays no part. *)
Lemma stored_block_length_mismatch out cap off bs :
  bit_stream_valid bs -> bit_buffer_size bs = 0 ->
  byte_stream_offset bs + 4 <= byte_stream_size bs ->
  decompress_stored_block out cap off bs = Error LengthMismatch <->
  Z.lor (load (byte_stream bs) (byte_stream_offset bs))
        (Z.shiftl (load (byte_stream bs) (byte_stream_offset bs + 1)) 8) <> 0xffff.
Proof.
  intros Hvalid Hsize Hbytes4.
  pose proof (bit_stream_valid_clean bs Hvalid) as Hclean.
  pose proof Hvalid as (_ & _ & Hoff & _ & Hbytes).
  set (len := Z.lor _ _).
  unfold decompress_stored_block. rewrite Hsize. change (Z.land 0 7) with 0.
  change (0 <? 0) with false. cbv iota. unfold bind at 1. cbn [ret result_bind fst snd].
  unfold bind at 1. unfold deflate_bit_stream_get_value.
  change (32 <? 32) with false. change (32 =? 0) with false. cbv iota.
  destruct (bit_stream_fill_spec 4 32 bs Hclean) as [_ Hfill]; [lia|lia|].
  destruct Hfill as (bs1 & Hrun & (Hs1 & Hbits1 & _) & Hn1 & Hstream);
    [unfold bits_remaining; lia|].
  rewrite Hrun. cbn [result_bind fst snd]. change (32 <? 32) with false. cbv iota.
  cbn [result_bind fst snd].
  assert (Hlen : Z.land (bit_buffer bs1) 65535 = len).
  { apply Z.bits_inj'. intros i Hi. unfold len.
    rewrite Z.land_spec, Z.lor_spec, Z.shiftl_spec by lia.
    pose proof (load_is_byte (byte_stream bs) (byte_stream_offset bs) Hbytes) as Hb0.
    pose proof (load_is_byte (byte_stream bs) (byte_stream_offset bs + 1) Hbytes) as Hb1.
    unfold is_byte in Hb0, Hb1. change 65535 with (Z.ones 16).
    destruct (Z.ltb_spec i 16) as [Hlt|Hge].
    - rewrite Z.ones_spec_low, andb_true_r by lia.
      assert (Hbit : Z.testbit (bit_buffer bs1) i = stream_bit bs i).
      { rewrite <- Hstream by lia. unfold stream_bit.
        destruct (Z.ltb_spec i (bit_buffer_size bs1)); [reflexivity|lia]. }
      rewrite Hbit. unfold stream_bit. rewrite Hsize.
      destruct (Z.ltb_spec i 0); [lia|]. rewrite Z.sub_0_r.
      destruct (Z.ltb_spec i 8).
      + rewrite Z.div_small, Z.mod_small, Z.add_0_r by lia.
        rewrite (Z.testbit_neg_r _ (i - 8)) by lia. rewrite orb_false_r. reflexivity.
      + replace i with (i - 8 + 1 * 8) at 1 2 by lia.
        rewrite Z.div_add, Z.mod_add by lia.
        rewrite Z.div_small, Z.mod_small by lia.
        rewrite (testbit_above _ 8 i) by lia. reflexivity.
    - rewrite Z.ones_spec_high, andb_false_r by lia.
      rewrite (testbit_above _ 8 i), (testbit_above _ 8 (i - 8)) by lia. reflexivity. }
  rewrite stored_block_size_check, Hlen.
  destruct (Z.eqb_spec len 65535) as [Heq|Hne]; cbn [negb].
  - split; [|intros H; contradiction]. intros H. exfalso. rewrite Heq in H.
    replace (65535 =? 0) with false in H by reflexivity. cbv beta iota in H.
    destruct (_ <? _) in H; [discriminate|]. destruct (_ <? _) in H; discriminate.
  - split; [intros _; exact Hne|reflexivity].
Qed.

(** ** The bit stream reader: what is left after a call *)

Lemma bit_stream_read_byte_stream_bit_all bs i :
  bit_buffer_clean bs -> bit_buffer_size bs + 8 <= 32 -> 0 <= i ->
  stream_bit (bit_stream_read_byte bs) i = stream_bit bs i.
Proof.
  intros Hclean Hs Hi. destruct (Z.ltb_spec i 32) as [Hlt|Hge].
  - apply bit_stream_read_byte_stream_bit; [exact Hclean|lia|lia].
  - destruct Hclean as (Hs0 & _ & _). unfold stream_bit, bit_stream_read_byte. simpl.
    destruct (Z.ltb_spec i (bit_buffer_size bs + 8)); [lia|].
    destruct (Z.ltb_spec i (bit_buffer_size bs)); [lia|].
    replace (i - bit_buffer_size bs) with (i - (bit_buffer_size bs + 8) + 1 * 8) by lia.
    rewrite Z.div_add, Z.mod_add by lia. f_equal. f_equal. lia.
Qed.

(** No bit is lost by the refill when the request is for at most 25 bits or
    the count of the bit buffer is a multiple of 8. *)
Lemma bit_stream_fill_advances (fuel : nat) n bs bs1 :
  bit_buffer_clean bs -> bit_buffer_size bs <= 32 ->
  byte_stream_offset bs <= byte_stream_size bs -> n <= 32 ->
  (bit_buffer_size bs < n -> n <= 25 \/ bit_buffer_size bs mod 8 = 0) ->
  bit_stream_fill fuel n bs = Ok bs1 ->
  bit_buffer_clean bs1 /\ byte_stream bs1 = byte_stream bs /\
  byte_stream_size bs1 = byte_stream_size bs /\
  byte_stream_offset bs <= byte_stream_offset bs1 <= byte_stream_size bs /\
  n <= bit_buffer_size bs1 <= 32 /\
  bits_remaining bs1 = bits_remaining bs /\
  forall i, 0 <= i -> stream_bit bs1 i = stream_bit bs i.
Proof.
  revert bs. induction fuel as [|fuel IH]; intros bs Hclean Hs32 Hoff Hn Hcond; simpl.
  - destruct (Z.ltb_spec (bit_buffer_size bs) n); [discriminate|].
    intros H'; inversion H'; subst. split; [exact Hclean|]. repeat split; auto; lia.
  - destruct (Z.ltb_spec (bit_buffer_size bs) n) as [Hlt|Hge].
    2:{ intros H'; inversion H'; subst. split; [exact Hclean|]. repeat split; auto; lia. }
    destruct (Z.leb_spec (byte_stream_size bs) (byte_stream_offset bs)); [discriminate|].
    intros Hrun.
    assert (Hs24 : bit_buffer_size bs + 8 <= 32).
    { destruct (Hcond Hlt) as [H25|Hmod]; [lia|].
      pose proof (Z.div_mod (bit_buffer_size bs) 8 ltac:(lia)). lia. }
    apply IH in Hrun.
    + destruct Hrun as (Hc1 & Hbytes & Hsize & Hoff1 & Hs1 & Hrem & Hbits).
      rewrite bit_stream_read_byte_remaining in Hrem.
      unfold bit_stream_read_byte in Hbytes, Hsize, Hoff1; simpl in Hbytes, Hsize, Hoff1.
      split; [exact Hc1|]. split; [exact Hbytes|]. split; [exact Hsize|].
      split; [lia|]. split; [exact Hs1|]. split; [exact Hrem|].
      intros i Hi. rewrite Hbits by exact Hi.
      apply bit_stream_read_byte_stream_bit_all; assumption.
    + apply bit_stream_read_byte_clean, Hclean.
    + unfold bit_stream_read_byte; simpl. lia.
    + unfold bit_stream_read_byte; simpl. lia.
    + exact Hn.
    + unfold bit_stream_read_byte; simpl. intros Hlt'.
      destruct (Hcond Hlt) as [H25|Hmod]; [left; exact H25|right].
      replace (bit_buffer_size bs + 8) with (bit_buffer_size bs + 1 * 8) by lia.
      rewrite Z.mod_add by lia. exact Hmod.
Qed.

(** After a call for at most 25 bits, or for any number of bits on a bit
    buffer with a multiple of 8 bits (the two ways in which the decoder
    calls it), the stream is a valid stream that delivers the bits after
    the [n] returned ones. *)
Lemma deflate_bit_stream_get_value_advances bs n v bs' :
  bit_stream_valid bs -> 0 < n <= 32 ->
  (bit_buffer_size bs < n -> n <= 25 \/ bit_buffer_size bs mod 8 = 0) ->
  deflate_bit_stream_get_value n bs = Ok (v, bs') ->
  bit_stream_valid bs' /\ bits_remaining bs' = bits_remaining bs - n /\
  forall i, 0 <= i -> stream_bit bs' i = stream_bit bs (i + n).
Proof.
  intros Hvalid Hn Hcond. pose proof (bit_stream_valid_clean bs Hvalid) as Hclean.
  destruct Hvalid as (Hs & Hb & Hoff & Hlen & Hbytes).
  unfold deflate_bit_stream_get_value.
  destruct (Z.ltb_spec 32 n); [lia|]. destruct (Z.eqb_spec n 0); [lia|].
  destruct (bit_stream_fill 4 n bs) as [bs1| | |] eqn:Hrun; try discriminate.
  apply bit_stream_fill_advances in Hrun; try assumption; try lia.
  destruct Hrun as ((Hs1 & Hbits1 & _) & Hbytes1 & Hsize1 & Hoff1 & Hn1 & Hrem1 & Hstream).
  cbn [result_bind]. destruct (Z.ltb_spec n 32) as [Hlt|Hge];
    intros H'; inversion H'; subst v bs'; clear H'.
  - split; [|split].
    + unfold bit_stream_valid; simpl. rewrite Hbytes1, Hsize1.
      split; [lia|]. split; [|split; [lia|split; assumption]].
      apply testbit_bound; [lia|]. intros i Hi.
      rewrite Z.shiftr_spec by lia. apply Hbits1. lia.
    + unfold bits_remaining in *; simpl. lia.
    + intros i Hi. rewrite <- Hstream by lia. unfold stream_bit; simpl.
      destruct (Z.ltb_spec i (bit_buffer_size bs1 - n));
        destruct (Z.ltb_spec (i + n) (bit_buffer_size bs1)); try lia.
      * apply Z.shiftr_spec. lia.
      * replace (i - (bit_buffer_size bs1 - n)) with (i + n - bit_buffer_size bs1) by lia.
        reflexivity.
  - assert (n = 32) by lia. subst n.
    assert (Hs32 : bit_buffer_size bs1 = 32) by lia.
    split; [|split].
    + unfold bit_stream_valid; simpl. rewrite Hbytes1, Hsize1.
      repeat split; try lia; assumption.
    + unfold bits_remaining in *; simpl. lia.
    + intros i Hi. rewrite <- Hstream by lia. unfold stream_bit; simpl.
      rewrite Hs32. destruct (Z.ltb_spec i 0); [lia|].
      destruct (Z.ltb_spec (i + 32) 32); [lia|].
      replace (i + 32 - 32) with (i - 0) by lia. reflexivity.
Qed.

(** A bit is lost otherwise: with 25 bits in the bit buffer a call for 26
    bits moves the byte 0x80 of the stream into the register, where its
    bit 7 does not fit, and the 7 bits that the stream holds after the call
    are all 0. *)
Example deflate_bit_stream_get_value_loses_a_bit :
  let bs := {| byte_stream := [0x80]; byte_stream_size := 1; byte_stream_offset := 0;
               bit_buffer := 0; bit_buffer_size := 25 |} in
  stream_bit bs 32 = true /\
  exists bs', deflate_bit_stream_get_value 26 bs = Ok (0, bs') /\
              bit_buffer bs' = 0 /\ bit_buffer_size bs' = 7 /\
              byte_stream_offset bs' = byte_stream_size bs'.
Proof.
  split; [reflexivity|]. eexists. split; [reflexivity|]. repeat split.
Qed.

(** C8 (the code differs). deflate_bit_stream_get_value does not return
    the next bits of the stream in every state. On the bytes 00 00 00 00 80
    a call for 7 bits and a call for 26 bits return bits 0..32 of the
    stream; the refill of the second call finds 25 bits in the 32 bit
    register and shifts bit 7 of the byte 80 out of it (deflate.c 97-101).
    Bits 33..39 of the stream are 0000001, the value 64, and the third
    call, for 7 bits, returns 0. *)
Theorem deflate_bit_stream_get_value_drops_a_bit :
  let bs := {| byte_stream := [0x00; 0x00; 0x00; 0x00; 0x80]; byte_stream_size := 5;
               byte_stream_offset := 0; bit_buffer := 0; bit_buffer_size := 0 |} in
  let bs1 := {| byte_stream := [0x00; 0x00; 0x00; 0x00; 0x80]; byte_stream_size := 5;
                byte_stream_offset := 1; bit_buffer := 0; bit_buffer_size := 1 |} in
  let bs2 := {| byte_stream := [0x00; 0x00; 0x00; 0x00; 0x80]; byte_stream_size := 5;
                byte_stream_offset := 5; bit_buffer := 0; bit_buffer_size := 7 |} in
  let bs3 := {| byte_stream := [0x00; 0x00; 0x00; 0x00; 0x80]; byte_stream_size := 5;
                byte_stream_offset := 5; bit_buffer := 0; bit_buffer_size := 0 |} in
  bit_stream_valid bs /\ bit_stream_valid bs1 /\ bit_stream_valid bs2 /\
  (forall i, 0 <= i < 7 -> stream_bit bs (33 + i) = Z.testbit 64 i) /\
  deflate_bit_stream_get_value 7 bs = Ok (0, bs1) /\
  deflate_bit_stream_get_value 26 bs1 = Ok (0, bs2) /\
  deflate_bit_stream_get_value 7 bs2 = Ok (0, bs3).
Proof.
  intros bs bs1 bs2 bs3.
  assert (Hbytes : Forall is_byte [0x00; 0x00; 0x00; 0x00; 0x80])
    by (repeat constructor; unfold is_byte; lia).
  split; [|split; [|split; [|split; [|split; [|split]]]]];
    try (unfold bit_stream_valid; simpl;
         split; [lia|split; [lia|split; [lia|split; [lia|exact Hbytes]]]]);
    try reflexivity.
  intros i Hi.
  assert (Hcases : i = 0 \/ i = 1 \/ i = 2 \/ i = 3 \/ i = 4 \/ i = 5 \/ i = 6) by lia.
  destruct Hcases as [->|[->|[->|[->|[->|[->| ->]]]]]]; reflexivity.
Qed.

(** ** The canonical code and the Huffman symbol reader *)

Lemma first_code_S (code_sizes : list Z) (j : nat) :
  (1 <= j)%nat ->
  first_code code_sizes (S j) =
  2 * (first_code code_sizes j + code_size_count code_sizes (Z.of_nat j)).
Proof. destruct j; [lia|reflexivity]. Qed.

Lemma first_code_nonneg (code_sizes : list Z) (j : nat) : 0 <= first_code code_sizes j.
Proof.
  induction j as [|j IH]; [simpl; lia|].
  destruct j; [simpl; lia|]. rewrite first_code_S by lia.
  pose proof (code_size_count_nonneg code_sizes (Z.of_nat (S j))). lia.
Qed.

Lemma shorter_codes_1 (l : list Z) : shorter_codes l 1 = 0.
Proof.
  induction l as [|s l IH]; simpl; [reflexivity|]. rewrite IH.
  destruct (Z.ltb_spec 0 s); destruct (Z.ltb_spec s 1); simpl; lia.
Qed.

Lemma code_of_bits_nonneg bit (n : nat) : 0 <= code_of_bits bit n.
Proof. induction n as [|n IH]; simpl; [lia|]. destruct (bit (Z.of_nat n)); simpl; lia. Qed.

Lemma code_of_bits_bound bit (n : nat) : code_of_bits bit n < 2 ^ Z.of_nat n.
Proof.
  induction n as [|n IH]; [simpl; lia|].
  rewrite Nat2Z.inj_succ, Z.pow_succ_r by lia. simpl code_of_bits.
  destruct (bit (Z.of_nat n)); simpl Z.b2z; lia.
Qed.

Lemma code_of_bits_ext bit bit' (n : nat) :
  (forall i, 0 <= i < Z.of_nat n -> bit i = bit' i) ->
  code_of_bits bit n = code_of_bits bit' n.
Proof.
  induction n as [|n IH]; intros H; [reflexivity|]. simpl.
  rewrite IH by (intros i Hi; apply H; lia). rewrite H by lia. reflexivity.
Qed.

(** The symbol of a given rank among the symbols of one code size. *)
Lemma code_size_count_rank (l : list Z) len r :
  0 <= r < code_size_count l len ->
  exists s : nat, l !! s = Some len /\ code_size_count (take s l) len = r.
Proof.
  induction l as [|x l IH] using rev_ind; intros Hr; [simpl in Hr; lia|].
  rewrite code_size_count_app in Hr. simpl in Hr.
  destruct (Z.ltb_spec r (code_size_count l len)) as [Hlt|Hge].
  - destruct IH as (s & Hs & Hrank); [lia|].
    pose proof (lookup_lt_Some _ _ _ Hs) as Hlen.
    exists s. split; [apply lookup_app_l_Some; exact Hs|].
    rewrite take_app_le by lia. exact Hrank.
  - destruct (Z.eqb_spec x len) as [->|Hne]; [|lia].
    exists (length l). split.
    + rewrite lookup_app_r by lia. rewrite Nat.sub_diag. reflexivity.
    + rewrite take_app_le by lia. rewrite take_ge by lia. lia.
Qed.

Lemma lor_shiftl_bit c x :
  Z.lor (Z.shiftl c 1) (Z.land x 1) = 2 * c + Z.b2z (Z.testbit x 0).
Proof.
  rewrite Z.shiftl_mul_pow2 by lia. change (2 ^ 1) with 2.
  replace (Z.land x 1) with (x mod 2)
    by (change 1 with (Z.ones 1); rewrite Z.land_ones by lia; reflexivity).
  rewrite <- Z.bit0_mod. destruct (Z.testbit x 0); simpl Z.b2z.
  - apply Z.bits_inj'. intros n Hn. rewrite Z.lor_spec.
    destruct (Z.eq_dec n 0) as [->|Hne].
    + replace (c * 2 + 1) with (2 * c + 1) by lia.
      rewrite Z.testbit_odd_0. apply orb_true_r.
    + replace n with (Z.succ (n - 1)) by lia.
      replace (c * 2) with (2 * c) by lia.
      rewrite Z.testbit_even_succ, Z.testbit_odd_succ by lia.
      change 1 with (2 * 0 + 1) at 2. rewrite Z.testbit_odd_succ by lia.
      rewrite Z.testbit_0_l. apply orb_false_r.
  - rewrite Z.lor_0_r. lia.
Qed.

Section Canonical.

Variable code_sizes : list Z.
Variable table : deflate_huffman_table.
Hypothesis table_counts : forall len, 0 <= len <= 15 ->
  load (code_counts_array table) len = code_size_count code_sizes len.

(** "No code of length [l] is at the head of the bits". *)
Let miss (bit : Z -> bool) (l : nat) : Prop :=
  first_code code_sizes l + code_size_count code_sizes (Z.of_nat l) <= code_of_bits bit l.

(** deflate.c 403-424 from the round with [bit_index = j + 1] on: the loop
    leaves with the first code length at which the bits read so far are
    below the first code of the next length, or runs to its end. *)
Lemma huffman_decode_bits_cases (k j : nat) buffer :
  (j + k <= 15)%nat ->
  let bit := Z.testbit buffer in
  (exists L : nat,
     (j < L <= j + k)%nat /\ (forall l : nat, (j < l < L)%nat -> miss bit l) /\
     code_of_bits bit L < first_code code_sizes L + code_size_count code_sizes (Z.of_nat L) /\
     huffman_decode_bits k (Z.of_nat j + 1) table (Z.shiftr buffer (Z.of_nat j))
       (code_of_bits bit j) (first_code code_sizes (S j))
       (shorter_codes code_sizes (Z.of_nat j + 1))
     = Some (load (codes_array table)
               (shorter_codes code_sizes (Z.of_nat L)
                + (code_of_bits bit L - first_code code_sizes L)),
             Z.of_nat L)) \/
  ((forall l : nat, (j < l <= j + k)%nat -> miss bit l) /\
   huffman_decode_bits k (Z.of_nat j + 1) table (Z.shiftr buffer (Z.of_nat j))
     (code_of_bits bit j) (first_code code_sizes (S j))
     (shorter_codes code_sizes (Z.of_nat j + 1)) = None).
Proof.
  intros Hk bit. revert j Hk. induction k as [|k IH]; intros j Hk.
  - right. split; [intros l Hl; lia|reflexivity].
  - cbn [huffman_decode_bits]. rewrite lor_shiftl_bit.
    rewrite Z.shiftr_spec by lia. rewrite Z.add_0_l.
    change (2 * code_of_bits bit j + Z.b2z (Z.testbit buffer (Z.of_nat j)))
      with (code_of_bits bit (S j)).
    rewrite table_counts by lia.
    replace (Z.of_nat j + 1) with (Z.of_nat (S j)) by lia.
    destruct (Z.ltb_spec (code_of_bits bit (S j) - code_size_count code_sizes (Z.of_nat (S j)))
                (first_code code_sizes (S j))) as [Hhit|Hmiss].
    + left. exists (S j). split; [lia|]. split; [intros l Hl; lia|].
      split; [lia|reflexivity].
    + rewrite Z.shiftl_mul_pow2 by lia. change (2 ^ 1) with 2.
      rewrite Z.shiftr_shiftr by lia.
      replace ((first_code code_sizes (S j) + code_size_count code_sizes (Z.of_nat (S j))) * 2)
        with (first_code code_sizes (S (S j))) by (rewrite first_code_S by lia; lia).
      rewrite <- shorter_codes_succ by lia.
      replace (Z.of_nat j + 1) with (Z.of_nat (S j)) by lia.
      destruct (IH (S j) ltac:(lia)) as [(L & HL & Hbefore & Hlt & Hrun)|[Hnone Hrun]].
      * left. exists L. split; [lia|]. split; [|split; [exact Hlt|exact Hrun]].
        intros l Hl. destruct (Nat.eq_dec l (S j)) as [->|Hne]; [|apply Hbefore; lia].
        unfold miss. lia.
      * right. split; [|exact Hrun].
        intros l Hl. destruct (Nat.eq_dec l (S j)) as [->|Hne]; [|apply Hnone; lia].
        unfold miss. lia.
Qed.

(** The bits read before a code of length [L] is found are not below the
    first code of their length. *)
Lemma miss_before_code bit (L : nat) :
  first_code code_sizes L <= code_of_bits bit L ->
  forall l : nat, (1 <= l < L)%nat -> miss bit l.
Proof.
  induction L as [|L IH]; intros Hc l Hl; [lia|].
  assert (HL : (1 <= L)%nat) by lia.
  rewrite first_code_S in Hc by exact HL. simpl code_of_bits in Hc.
  assert (Hm : miss bit L).
  { unfold miss. destruct (bit (Z.of_nat L)); simpl Z.b2z in Hc; lia. }
  destruct (Nat.eq_dec l L) as [->|Hne]; [exact Hm|].
  apply IH; [|lia]. unfold miss in Hm.
  pose proof (code_size_count_nonneg code_sizes (Z.of_nat L)). lia.
Qed.

(** The bits at which the loop leaves are not below the first code of
    their length either. *)
Lemma code_after_misses bit (L : nat) :
  (forall l : nat, (1 <= l < L)%nat -> miss bit l) ->
  first_code code_sizes L <= code_of_bits bit L.
Proof.
  intros Hm. destruct L as [|L]; [simpl; lia|].
  destruct L as [|L]; [simpl first_code; apply code_of_bits_nonneg|].
  rewrite first_code_S by lia. specialize (Hm (S L) ltac:(lia)). unfold miss in Hm.
  change (code_of_bits bit (S (S L)))
    with (2 * code_of_bits bit (S L) + Z.b2z (bit (Z.of_nat (S L)))).
  destruct (bit (Z.of_nat (S L))); simpl Z.b2z; lia.
Qed.

End Canonical.

(** What deflate_huffman_table_construct makes of a whole array of code
    sizes 0..15 for at most 288 symbols: the empty table, the
    over-subscription error or a table. *)
Lemma deflate_huffman_table_construct_cases (code_sizes : list Z) :
  code_sizes_wf code_sizes -> (length code_sizes <= 288)%nat ->
  (Forall (eq 0) code_sizes /\
   exists table,
     deflate_huffman_table_construct code_sizes (Z.of_nat (length code_sizes))
       = Ok (TableEmpty, table)) \/
  (~ Forall (eq 0) code_sizes /\ over_subscribed code_sizes /\
   deflate_huffman_table_construct code_sizes (Z.of_nat (length code_sizes))
     = Error OverSubscribed) \/
  (~ Forall (eq 0) code_sizes /\
   (forall i : nat, (0 < i <= 15)%nat -> 0 <= left_after code_sizes i) /\
   exists table,
     table_of code_sizes table /\
     maximum_number_of_bits table = 15 /\
     (forall len, 0 <= len <= 15 ->
        load (code_counts_array table) len = code_size_count code_sizes len) /\
     (forall symbol : nat, (symbol < length code_sizes)%nat ->
        load code_sizes (Z.of_nat symbol) <> 0 ->
        load (codes_array table) (canonical_index code_sizes symbol) = Z.of_nat symbol)).
Proof.
  intros Hrange Hcap. unfold table_of, deflate_huffman_table_construct.
  destruct (Z.ltb_spec (Z.of_nat (length code_sizes)) 0) as [?|_]; [lia|].
  rewrite Nat2Z.id.
  destruct (construct_count_code_sizes_spec code_sizes Hrange (length code_sizes) 0
              (replicate 16 0)) as (counts & Hrun & Hlen & Hload);
    [lia|apply length_replicate|].
  change (15 + 1) with 16. change (Z.of_nat 0) with 0 in Hrun. rewrite Hrun.
  cbn [result_bind].
  assert (Hcounts : forall len, 0 <= len <= 15 ->
            load counts len = code_size_count code_sizes len).
  { intros len Hl. rewrite Hload by lia. rewrite load_replicate_zero, drop_0.
    rewrite take_ge by lia. lia. }
  clear Hload Hrun.
  rewrite (Hcounts 0) by lia.
  change (Z.to_nat 15) with 15%nat. change (Z.to_nat (15 - 1)) with 14%nat.
  destruct (construct_check_left_spec code_sizes 15 0 counts ltac:(lia) Hcounts)
    as [Hok Herr].
  change (Z.of_nat 0 + 1) with 1 in Hok, Herr.
  change (left_after code_sizes 0) with 1 in Hok, Herr.
  destruct (Z.eqb_spec (code_size_count code_sizes 0) (Z.of_nat (length code_sizes)))
    as [Hempty|Hnonempty].
  { left. apply code_size_count_all_zero in Hempty. split; [exact Hempty|].
    eexists. reflexivity. }
  right.
  assert (Hnz : ~ Forall (eq 0) code_sizes).
  { intros H. apply code_size_count_all_zero in H. contradiction. }
  destruct (over_subscribed_or_not code_sizes) as [Hover|Hnot].
  - left. split; [exact Hnz|]. split; [exact Hover|].
    rewrite Herr; [reflexivity|]. destruct Hover as (i & Hi & Hneg).
    exists i. split; [lia|exact Hneg].
  - right. split; [exact Hnz|]. split; [exact Hnot|].
    rewrite Hok by (intros i Hi; apply Hnot; lia). cbn [result_bind].
    destruct (construct_offsets_and_place code_sizes counts Hrange Hcap Hcounts)
      as (codes & Hrun & Hcodes & Hplaced).
    rewrite Hrun. cbn [result_bind].
    eexists. split; [reflexivity|]. cbn. split; [reflexivity|].
    split; [exact Hcounts|exact Hplaced].
Qed.

Lemma table_of_spec (code_sizes : list Z) table :
  code_sizes_wf code_sizes -> (length code_sizes <= 288)%nat ->
  table_of code_sizes table ->
  (forall i : nat, (0 < i <= 15)%nat -> 0 <= left_after code_sizes i) /\
  maximum_number_of_bits table = 15 /\
  (forall len, 0 <= len <= 15 ->
     load (code_counts_array table) len = code_size_count code_sizes len) /\
  (forall symbol : nat, (symbol < length code_sizes)%nat ->
     load code_sizes (Z.of_nat symbol) <> 0 ->
     load (codes_array table) (canonical_index code_sizes symbol) = Z.of_nat symbol).
Proof.
  intros Hrange Hcap Htable. unfold table_of in Htable.
  destruct (deflate_huffman_table_construct_cases code_sizes Hrange Hcap)
    as [(_ & t & H)|[(_ & _ & H)|(_ & Hleft & t & H & Hspec)]];
    try congruence.
  unfold table_of in H. assert (t = table) as -> by congruence.
  split; [exact Hleft|exact Hspec].
Qed.

(** deflate.c 381-392: the bit buffer is filled to [n] bits or to the end
    of the byte stream; no bit is lost for [n <= 24]. *)
Lemma bit_stream_prefill_advances (fuel : nat) n bs :
  bit_buffer_clean bs -> bit_buffer_size bs <= 32 ->
  byte_stream_offset bs <= byte_stream_size bs -> n <= 24 ->
  n - bit_buffer_size bs <= 8 * Z.of_nat fuel ->
  exists bs1,
    bit_stream_prefill fuel n bs = Ok bs1 /\
    bit_buffer_clean bs1 /\ byte_stream bs1 = byte_stream bs /\
    byte_stream_size bs1 = byte_stream_size bs /\
    byte_stream_offset bs <= byte_stream_offset bs1 <= byte_stream_size bs /\
    bit_buffer_size bs1 <= 32 /\
    (n <= bit_buffer_size bs1 \/ byte_stream_offset bs1 = byte_stream_size bs1) /\
    bits_remaining bs1 = bits_remaining bs /\
    forall i, 0 <= i -> stream_bit bs1 i = stream_bit bs i.
Proof.
  revert bs. induction fuel as [|fuel IH]; intros bs Hclean Hs32 Hoff Hn Hfuel; simpl.
  - destruct (Z.ltb_spec (bit_buffer_size bs) n); [lia|].
    exists bs. repeat split; auto; try lia; apply Hclean.
  - destruct (Z.ltb_spec (bit_buffer_size bs) n) as [Hlt|Hge].
    2:{ exists bs. repeat split; auto; try lia; apply Hclean. }
    destruct (Z.leb_spec (byte_stream_size bs) (byte_stream_offset bs)).
    { exists bs. repeat split; auto; try lia; apply Hclean. }
    destruct (IH (bit_stream_read_byte bs)) as (bs1 & Hrun & Hc1 & Hbytes & Hsize & Hoff1
                                                 & Hs1 & Hfull & Hrem & Hbits).
    + apply bit_stream_read_byte_clean, Hclean.
    + unfold bit_stream_read_byte; simpl. lia.
    + unfold bit_stream_read_byte; simpl. lia.
    + exact Hn.
    + unfold bit_stream_read_byte; simpl. lia.
    + rewrite bit_stream_read_byte_remaining in Hrem.
      unfold bit_stream_read_byte in Hbytes, Hsize, Hoff1; simpl in Hbytes, Hsize, Hoff1.
      exists bs1. split; [exact Hrun|]. split; [exact Hc1|]. split; [exact Hbytes|].
      split; [exact Hsize|]. split; [lia|]. split; [exact Hs1|]. split; [exact Hfull|].
      split; [exact Hrem|].
      intros i Hi. rewrite Hbits by exact Hi.
      apply bit_stream_read_byte_stream_bit_all; [exact Hclean|lia|exact Hi].
Qed.

(** The stream after [n] bits of the bit buffer are taken. *)
Lemma bit_stream_consume bs n :
  bit_buffer_clean bs -> bit_buffer_size bs <= 32 ->
  0 <= byte_stream_offset bs <= byte_stream_size bs ->
  byte_stream_size bs <= Z.of_nat (length (byte_stream bs)) ->
  0 <= n <= bit_buffer_size bs ->
  let bs' := set_bit_buffer bs (Z.shiftr (bit_buffer bs) n) (bit_buffer_size bs - n) in
  bit_stream_valid bs' /\ bits_remaining bs' = bits_remaining bs - n /\
  forall i, 0 <= i -> stream_bit bs' i = stream_bit bs (i + n).
Proof.
  intros (Hs0 & Hbits & Hbytes) Hs32 Hoff Hlen Hn bs'. split; [|split].
  - unfold bit_stream_valid, bs'; simpl.
    split; [lia|]. split; [|split; [lia|split; assumption]].
    apply testbit_bound; [lia|]. intros i Hi.
    rewrite Z.shiftr_spec by lia. apply Hbits. lia.
  - unfold bits_remaining, bs'; simpl. lia.
  - intros i Hi. unfold stream_bit, bs'; simpl.
    destruct (Z.ltb_spec i (bit_buffer_size bs - n));
      destruct (Z.ltb_spec (i + n) (bit_buffer_size bs)); try lia.
    + apply Z.shiftr_spec. lia.
    + replace (i - (bit_buffer_size bs - n)) with (i + n - bit_buffer_size bs) by lia.
      reflexivity.
Qed.

(** deflate.c 329-444 on a table with the histogram of [code_sizes]: the
    call returns at the first code length [L] at which the next [L] bits,
    read as a code, are below the first code of the length plus the number
    of codes of the length, or fails when no length up to the lesser of 15
    and the bits that the stream has left is one. *)
Lemma get_huffman_cases (code_sizes : list Z) table bs :
  maximum_number_of_bits table = 15 ->
  (forall len, 0 <= len <= 15 ->
     load (code_counts_array table) len = code_size_count code_sizes len) ->
  bit_stream_valid bs ->
  let available := Z.to_nat (Z.min 15 (bits_remaining bs)) in
  let miss (l : nat) :=
    first_code code_sizes l + code_size_count code_sizes (Z.of_nat l) <= stream_code bs l in
  (exists (L : nat) bs',
     (1 <= L <= available)%nat /\ (forall l : nat, (1 <= l < L)%nat -> miss l) /\
     ~ miss L /\
     deflate_bit_stream_get_huffman_encoded_value table bs
     = Ok (load (codes_array table)
             (shorter_codes code_sizes (Z.of_nat L)
              + (stream_code bs L - first_code code_sizes L)), bs') /\
     bit_stream_valid bs' /\
     byte_stream bs' = byte_stream bs /\ byte_stream_size bs' = byte_stream_size bs /\
     bits_remaining bs' = bits_remaining bs - Z.of_nat L /\
     forall i, 0 <= i -> stream_bit bs' i = stream_bit bs (i + Z.of_nat L)) \/
  ((forall l : nat, (1 <= l <= available)%nat -> miss l) /\
   deflate_bit_stream_get_huffman_encoded_value table bs = Error BadCode).
Proof.
  intros Hmax Hcounts Hvalid available miss.
  pose proof (bit_stream_valid_clean bs Hvalid) as Hclean.
  destruct Hvalid as (Hs & Hb & Hoff & Hlen & Hbytes).
  unfold deflate_bit_stream_get_huffman_encoded_value. rewrite Hmax.
  destruct (bit_stream_prefill_advances (Z.to_nat 15) 15 bs Hclean)
    as (bs1 & Hrun & Hc1 & Hbytes1 & Hsize1 & Hoff1 & Hs1 & Hfull & Hrem & Hbits);
    [lia|lia|lia|change (Z.of_nat (Z.to_nat 15)) with 15; lia|].
  rewrite Hrun. cbn [result_bind].
  pose proof Hc1 as (Hs10 & Hbits1 & _).
  assert (Havail : Z.to_nat (if 15 <? bit_buffer_size bs1 then 15 else bit_buffer_size bs1)
                   = available).
  { unfold available. rewrite <- Hrem. unfold bits_remaining.
    destruct (Z.ltb_spec 15 (bit_buffer_size bs1)); [lia|].
    destruct Hfull as [Hfull|Hfull]; lia. }
  rewrite Havail.
  assert (Havail_le : Z.of_nat available <= bit_buffer_size bs1).
  { rewrite <- Havail. destruct (Z.ltb_spec 15 (bit_buffer_size bs1)); lia. }
  assert (Hcode : forall l : nat, (l <= available)%nat ->
            code_of_bits (Z.testbit (bit_buffer bs1)) l = stream_code bs l).
  { intros l Hl. unfold stream_code. apply code_of_bits_ext. intros i Hi.
    rewrite <- Hbits by lia. unfold stream_bit.
    destruct (Z.ltb_spec i (bit_buffer_size bs1)); [reflexivity|lia]. }
  pose proof (huffman_decode_bits_cases code_sizes table Hcounts available 0
                (bit_buffer bs1) ltac:(unfold available; lia)) as Hcases.
  cbv zeta in Hcases. change (Z.of_nat 0 + 1) with 1 in Hcases.
  change (Z.of_nat 0) with 0 in Hcases. rewrite Z.shiftr_0_r, shorter_codes_1 in Hcases.
  change (code_of_bits (Z.testbit (bit_buffer bs1)) 0) with 0 in Hcases.
  change (first_code code_sizes 1) with 0 in Hcases.
  destruct Hcases as [(L & HL & Hbefore & Hlt & Hdec)|[Hnone Hdec]]; rewrite Hdec.
  - left. exists L. eexists. split; [lia|].
    split; [intros l Hl; unfold miss; rewrite <- Hcode by lia; apply Hbefore; lia|].
    split; [unfold miss; rewrite <- Hcode by lia; lia|].
    rewrite <- Hcode by lia. split; [reflexivity|].
    destruct (bit_stream_consume bs1 (Z.of_nat L) Hc1 Hs1) as (Hv' & Hrem' & Hbits');
      [lia|rewrite Hbytes1, Hsize1; exact Hlen|lia|].
    split; [exact Hv'|]. split; [exact Hbytes1|]. split; [exact Hsize1|].
    split; [rewrite Hrem', Hrem; reflexivity|].
    intros i Hi. rewrite Hbits' by exact Hi. apply Hbits. lia.
  - right. split; [|reflexivity].
    intros l Hl. unfold miss. rewrite <- Hcode by lia. apply Hnone. lia.
Qed.

Lemma get_huffman_symbol (code_sizes : list Z) table (symbol : nat) bs :
  code_sizes_wf code_sizes -> (length code_sizes <= 288)%nat ->
  table_of code_sizes table ->
  (symbol < length code_sizes)%nat ->
  load code_sizes (Z.of_nat symbol) <> 0 ->
  bit_stream_valid bs ->
  load code_sizes (Z.of_nat symbol) <= bits_remaining bs ->
  stream_code bs (Z.to_nat (load code_sizes (Z.of_nat symbol)))
    = canonical_code code_sizes symbol ->
  exists bs',
    deflate_bit_stream_get_huffman_encoded_value table bs = Ok (Z.of_nat symbol, bs') /\
    bit_stream_valid bs' /\
    byte_stream bs' = byte_stream bs /\ byte_stream_size bs' = byte_stream_size bs /\
    bits_remaining bs' = bits_remaining bs - load code_sizes (Z.of_nat symbol) /\
    forall i, 0 <= i ->
      stream_bit bs' i = stream_bit bs (i + load code_sizes (Z.of_nat symbol)).
Proof.
  intros Hrange Hcap Htable Hsymbol Hnz Hvalid Hrem Hcode.
  destruct (table_of_spec code_sizes table Hrange Hcap Htable)
    as (Hleft & Hmax & Hcounts & Hplaced).
  destruct (code_sizes_lookup code_sizes Hrange symbol Hsymbol) as [Hlookup Hlen].
  set (len := load code_sizes (Z.of_nat symbol)) in *.
  pose proof (code_size_count_take_lt code_sizes symbol len Hlookup) as Hrank.
  pose proof (code_size_count_nonneg (take symbol code_sizes) len) as Hrank0.
  assert (HL : Z.of_nat (Z.to_nat len) = len) by lia.
  unfold canonical_code in Hcode. fold len in Hcode.
  assert (Hhit : stream_code bs (Z.to_nat len)
                 < first_code code_sizes (Z.to_nat len)
                   + code_size_count code_sizes (Z.of_nat (Z.to_nat len)))
    by (rewrite HL; lia).
  assert (Hbefore : forall l : nat, (1 <= l < Z.to_nat len)%nat ->
            first_code code_sizes l + code_size_count code_sizes (Z.of_nat l)
            <= stream_code bs l).
  { apply (miss_before_code code_sizes (stream_bit bs) (Z.to_nat len)).
    fold (stream_code bs (Z.to_nat len)). lia. }
  destruct (get_huffman_cases code_sizes table bs Hmax Hcounts Hvalid)
    as [(L & bs' & HL' & Hb & Hnmiss & Hrun & Hv' & Hbytes' & Hsize' & Hrem' & Hbits')
       |[Hnone _]].
  - assert (L = Z.to_nat len) as ->.
    { destruct (Nat.lt_trichotomy L (Z.to_nat len)) as [Hlt|[Heq|Hgt]]; [|exact Heq|].
      - exfalso. apply Hnmiss, Hbefore. lia.
      - exfalso. specialize (Hb (Z.to_nat len) ltac:(lia)). lia. }
    exists bs'. rewrite HL in *. rewrite Hrun. split.
    + f_equal. f_equal. rewrite <- (Hplaced symbol Hsymbol Hnz). f_equal.
      unfold canonical_index. fold len. lia.
    + exact (conj Hv' (conj Hbytes' (conj Hsize' (conj Hrem' Hbits')))).
  - exfalso. specialize (Hnone (Z.to_nat len) ltac:(lia)). lia.
Qed.

Lemma get_huffman_sound (code_sizes : list Z) table bs v bs' :
  code_sizes_wf code_sizes -> (length code_sizes <= 288)%nat ->
  table_of code_sizes table -> bit_stream_valid bs ->
  deflate_bit_stream_get_huffman_encoded_value table bs = Ok (v, bs') ->
  exists symbol : nat,
    v = Z.of_nat symbol /\ (symbol < length code_sizes)%nat /\
    1 <= load code_sizes (Z.of_nat symbol) <= 15 /\
    load code_sizes (Z.of_nat symbol) <= bits_remaining bs /\
    stream_code bs (Z.to_nat (load code_sizes (Z.of_nat symbol)))
      = canonical_code code_sizes symbol /\
    bit_stream_valid bs' /\
    byte_stream bs' = byte_stream bs /\ byte_stream_size bs' = byte_stream_size bs /\
    bits_remaining bs' = bits_remaining bs - load code_sizes (Z.of_nat symbol) /\
    forall i, 0 <= i ->
      stream_bit bs' i = stream_bit bs (i + load code_sizes (Z.of_nat symbol)).
Proof.
  intros Hrange Hcap Htable Hvalid Hget.
  destruct (table_of_spec code_sizes table Hrange Hcap Htable)
    as (Hleft & Hmax & Hcounts & Hplaced).
  destruct (get_huffman_cases code_sizes table bs Hmax Hcounts Hvalid)
    as [(L & bs1 & HL & Hb & Hnmiss & Hrun & Hv' & Hbytes' & Hsize' & Hrem' & Hbits')
       |[_ Hrun]]; [|congruence].
  rewrite Hrun in Hget. inversion Hget; subst v bs1. clear Hget.
  pose proof (code_after_misses code_sizes (stream_bit bs) L Hb) as Hfirst.
  fold (stream_code bs L) in Hfirst.
  destruct (code_size_count_rank code_sizes (Z.of_nat L)
              (stream_code bs L - first_code code_sizes L))
    as (symbol & Hlookup & Hrank); [lia|].
  pose proof (lookup_lt_Some _ _ _ Hlookup) as Hsymbol.
  pose proof (load_lookup _ _ _ Hlookup) as Hload.
  exists symbol. rewrite Hload, Nat2Z.id.
  split.
  { rewrite <- (Hplaced symbol Hsymbol) by (rewrite Hload; lia). f_equal.
    unfold canonical_index. rewrite Hload. lia. }
  split; [exact Hsymbol|]. split; [lia|]. split; [lia|].
  split; [unfold canonical_code; rewrite Hload, Nat2Z.id; lia|].
  exact (conj Hv' (conj Hbytes' (conj Hsize' (conj Hrem' Hbits')))).
Qed.

(** A table and a stream to run the reader on: the code sizes 2, 1, 3, 3
    give the codes 10, 0, 110, 111. *)
Lemma example_table_of :
  table_of [2; 1; 3; 3]
    {| maximum_number_of_bits := 15;
       codes_array := [1; 0; 2; 3] ++ replicate 284 0;
       code_counts_array := [0; 1; 1; 2] ++ replicate 12 0;
       number_of_codes := 16 |}.
Proof. vm_compute. reflexivity. Qed.

Lemma example_stream_valid (bytes : list Z) :
  Forall is_byte bytes ->
  bit_stream_valid
    {| byte_stream := bytes; byte_stream_size := Z.of_nat (length bytes);
       byte_stream_offset := 0; bit_buffer := 0; bit_buffer_size := 0 |}.
Proof.
  intros H. unfold bit_stream_valid; simpl.
  split; [lia|]. split; [lia|]. split; [lia|]. split; [lia|exact H].
Qed.

(** X2. Round trip of a canonical code: on a table that
    deflate_huffman_table_construct made of the code sizes, a valid stream
    whose next bits are the canonical code of a symbol (most significant bit
    first) gives that symbol; the call takes exactly the bits of the code
    and the stream goes on with the bits after them. *)
Theorem deflate_bit_stream_get_huffman_encoded_value_round_trip
    (code_sizes : list Z) (table : deflate_huffman_table) (symbol : nat)
    (bs : deflate_bit_stream) :
  code_sizes_wf code_sizes -> (length code_sizes <= 288)%nat ->
  table_of code_sizes table ->
  (symbol < length code_sizes)%nat ->
  load code_sizes (Z.of_nat symbol) <> 0 ->
  bit_stream_valid bs ->
  load code_sizes (Z.of_nat symbol) <= bits_remaining bs ->
  stream_code bs (Z.to_nat (load code_sizes (Z.of_nat symbol)))
    = canonical_code code_sizes symbol ->
  exists bs',
    deflate_bit_stream_get_huffman_encoded_value table bs = Ok (Z.of_nat symbol, bs') /\
    bit_stream_valid bs' /\
    bits_remaining bs' = bits_remaining bs - load code_sizes (Z.of_nat symbol) /\
    forall i, 0 <= i ->
      stream_bit bs' i = stream_bit bs (i + load code_sizes (Z.of_nat symbol)).
Proof.
  intros Hrange Hcap Htable Hsymbol Hnz Hvalid Hrem Hcode.
  destruct (get_huffman_symbol code_sizes table symbol bs Hrange Hcap Htable Hsymbol Hnz
              Hvalid Hrem Hcode) as (bs' & Hrun & Hv & _ & _ & Hrem' & Hbits).
  exists bs'. exact (conj Hrun (conj Hv (conj Hrem' Hbits))).
Qed.

Lemma deflate_bit_stream_get_huffman_encoded_value_round_trip_witness :
  let code_sizes := [2; 1; 3; 3] in
  let table :=
    {| maximum_number_of_bits := 15;
       codes_array := [1; 0; 2; 3] ++ replicate 284 0;
       code_counts_array := [0; 1; 1; 2] ++ replicate 12 0;
       number_of_codes := 16 |} in
  let bs :=
    {| byte_stream := [0x01]; byte_stream_size := 1;
       byte_stream_offset := 0; bit_buffer := 0; bit_buffer_size := 0 |} in
  code_sizes_wf code_sizes /\ (length code_sizes <= 288)%nat /\
  table_of code_sizes table /\ (0 < length code_sizes)%nat /\
  load code_sizes (Z.of_nat 0) <> 0 /\ bit_stream_valid bs /\
  load code_sizes (Z.of_nat 0) <= bits_remaining bs /\
  stream_code bs (Z.to_nat (load code_sizes (Z.of_nat 0))) = canonical_code code_sizes 0 /\
  exists bs',
    deflate_bit_stream_get_huffman_encoded_value table bs = Ok (0, bs') /\
    bits_remaining bs' = 6.
Proof.
  intros code_sizes table bs.
  assert (H1 : code_sizes_wf code_sizes) by (repeat constructor; lia).
  assert (H2 : (length code_sizes <= 288)%nat) by (simpl; lia).
  assert (H3 : table_of code_sizes table) by exact example_table_of.
  assert (H4 : (0 < length code_sizes)%nat) by (simpl; lia).
  assert (H5 : load code_sizes (Z.of_nat 0) <> 0) by (vm_compute; discriminate).
  assert (H6 : bit_stream_valid bs)
    by (apply (example_stream_valid [0x01]); repeat constructor; unfold is_byte; lia).
  assert (H7 : load code_sizes (Z.of_nat 0) <= bits_remaining bs)
    by (vm_compute; discriminate).
  assert (H8 : stream_code bs (Z.to_nat (load code_sizes (Z.of_nat 0)))
               = canonical_code code_sizes 0) by (vm_compute; reflexivity).
  destruct (deflate_bit_stream_get_huffman_encoded_value_round_trip
              code_sizes table 0 bs H1 H2 H3 H4 H5 H6 H7 H8)
    as (bs' & Hrun & _ & Hrem & _).
  refine (conj H1 (conj H2 (conj H3 (conj H4 (conj H5 (conj H6 (conj H7 (conj H8 _)))))))).
  exists bs'. split; [exact Hrun|]. rewrite Hrem. reflexivity.
Defined.

(** X3. What the reader returns is a symbol: on a table made of the code
    sizes, a value returned from a valid stream is the index of a code
    size 1..15, the bits taken are the canonical code of that symbol and
    the stream goes on after them. In particular the value is below the
    number of code sizes. *)
Theorem deflate_bit_stream_get_huffman_encoded_value_symbol
    (code_sizes : list Z) (table : deflate_huffman_table)
    (bs : deflate_bit_stream) (v : Z) (bs' : deflate_bit_stream) :
  code_sizes_wf code_sizes -> (length code_sizes <= 288)%nat ->
  table_of code_sizes table -> bit_stream_valid bs ->
  deflate_bit_stream_get_huffman_encoded_value table bs = Ok (v, bs') ->
  exists symbol : nat,
    v = Z.of_nat symbol /\ (symbol < length code_sizes)%nat /\
    1 <= load code_sizes (Z.of_nat symbol) <= 15 /\
    load code_sizes (Z.of_nat symbol) <= bits_remaining bs /\
    stream_code bs (Z.to_nat (load code_sizes (Z.of_nat symbol)))
      = canonical_code code_sizes symbol /\
    bit_stream_valid bs' /\
    bits_remaining bs' = bits_remaining bs - load code_sizes (Z.of_nat symbol) /\
    forall i, 0 <= i ->
      stream_bit bs' i = stream_bit bs (i + load code_sizes (Z.of_nat symbol)).
Proof.
  intros Hrange Hcap Htable Hvalid Hget.
  destruct (get_huffman_sound code_sizes table bs v bs' Hrange Hcap Htable Hvalid Hget)
    as (symbol & Hv & Hs & Hlen & Hle & Hcode & Hv' & _ & _ & Hrem & Hbits).
  exists symbol.
  exact (conj Hv (conj Hs (conj Hlen (conj Hle (conj Hcode (conj Hv' (conj Hrem Hbits))))))).
Qed.

Lemma deflate_bit_stream_get_huffman_encoded_value_symbol_witness :
  let code_sizes := [2; 1; 3; 3] in
  let table :=
    {| maximum_number_of_bits := 15;
       codes_array := [1; 0; 2; 3] ++ replicate 284 0;
       code_counts_array := [0; 1; 1; 2] ++ replicate 12 0;
       number_of_codes := 16 |} in
  let bs :=
    {| byte_stream := [0x03]; byte_stream_size := 1;
       byte_stream_offset := 0; bit_buffer := 0; bit_buffer_size := 0 |} in
  let bs' :=
    {| byte_stream := [0x03]; byte_stream_size := 1;
       byte_stream_offset := 1; bit_buffer := 0; bit_buffer_size := 5 |} in
  code_sizes_wf code_sizes /\ (length code_sizes <= 288)%nat /\
  table_of code_sizes table /\ bit_stream_valid bs /\
  deflate_bit_stream_get_huffman_encoded_value table bs = Ok (2, bs') /\
  exists symbol : nat,
    2 = Z.of_nat symbol /\
    stream_code bs (Z.to_nat (load code_sizes (Z.of_nat symbol)))
      = canonical_code code_sizes symbol.
Proof.
  intros code_sizes table bs bs'.
  assert (H1 : code_sizes_wf code_sizes) by (repeat constructor; lia).
  assert (H2 : (length code_sizes <= 288)%nat) by (simpl; lia).
  assert (H3 : table_of code_sizes table) by exact example_table_of.
  assert (H4 : bit_stream_valid bs)
    by (apply (example_stream_valid [0x03]); repeat constructor; unfold is_byte; lia).
  assert (H5 : deflate_bit_stream_get_huffman_encoded_value table bs = Ok (2, bs'))
    by (vm_compute; reflexivity).
  destruct (deflate_bit_stream_get_huffman_encoded_value_symbol
              code_sizes table bs 2 bs' H1 H2 H3 H4 H5)
    as (symbol & Hv & _ & _ & _ & Hcode & _).
  refine (conj H1 (conj H2 (conj H3 (conj H4 (conj H5 _))))).
  exists symbol. exact (conj Hv Hcode).
Defined.

(** X4. The reader fails, with "invalid huffman encoded value", exactly
    when the code of no symbol is at the head of the stream within the bits
    that the stream has left; in particular at the end of the input, where
    the error is this one and not the one of deflate_bit_stream_get_value
    for a byte stream that is too small. *)
Theorem deflate_bit_stream_get_huffman_encoded_value_bad_code
    (code_sizes : list Z) (table : deflate_huffman_table) (bs : deflate_bit_stream) :
  code_sizes_wf code_sizes -> (length code_sizes <= 288)%nat ->
  table_of code_sizes table -> bit_stream_valid bs ->
  (deflate_bit_stream_get_huffman_encoded_value table bs = Error BadCode <->
   ~ exists symbol : nat,
       (symbol < length code_sizes)%nat /\
       load code_sizes (Z.of_nat symbol) <> 0 /\
       load code_sizes (Z.of_nat symbol) <= bits_remaining bs /\
       stream_code bs (Z.to_nat (load code_sizes (Z.of_nat symbol)))
         = canonical_code code_sizes symbol) /\
  (bits_remaining bs = 0 ->
   deflate_bit_stream_get_huffman_encoded_value table bs = Error BadCode).
Proof.
  intros Hrange Hcap Htable Hvalid.
  destruct (table_of_spec code_sizes table Hrange Hcap Htable)
    as (Hleft & Hmax & Hcounts & Hplaced).
  assert (Hiff : deflate_bit_stream_get_huffman_encoded_value table bs = Error BadCode <->
   ~ exists symbol : nat,
       (symbol < length code_sizes)%nat /\
       load code_sizes (Z.of_nat symbol) <> 0 /\
       load code_sizes (Z.of_nat symbol) <= bits_remaining bs /\
       stream_code bs (Z.to_nat (load code_sizes (Z.of_nat symbol)))
         = canonical_code code_sizes symbol).
  { split.
    - intros Hbad (symbol & Hs & Hnz & Hle & Hcode).
      destruct (get_huffman_symbol code_sizes table symbol bs Hrange Hcap Htable Hs Hnz
                  Hvalid Hle Hcode) as (bs' & Hrun & _).
      congruence.
    - intros Hnone.
      destruct (get_huffman_cases code_sizes table bs Hmax Hcounts Hvalid)
        as [(L & bs' & _ & _ & _ & Hrun & _)|[_ Hrun]]; [|exact Hrun].
      exfalso. apply Hnone.
      destruct (get_huffman_sound code_sizes table bs _ bs' Hrange Hcap Htable Hvalid Hrun)
        as (symbol & _ & Hs & Hlen & Hle & Hcode & _).
      exists symbol. split; [exact Hs|]. split; [lia|]. split; [exact Hle|exact Hcode]. }
  split; [exact Hiff|].
  intros Hzero. apply Hiff. intros (symbol & Hs & Hnz & Hle & _).
  destruct (code_sizes_lookup code_sizes Hrange symbol Hs) as [_ Hlen]. lia.
Qed.

Lemma deflate_bit_stream_get_huffman_encoded_value_bad_code_witness :
  let code_sizes := [2; 1; 3; 3] in
  let table :=
    {| maximum_number_of_bits := 15;
       codes_array := [1; 0; 2; 3] ++ replicate 284 0;
       code_counts_array := [0; 1; 1; 2] ++ replicate 12 0;
       number_of_codes := 16 |} in
  let bs :=
    {| byte_stream := []; byte_stream_size := 0;
       byte_stream_offset := 0; bit_buffer := 0; bit_buffer_size := 0 |} in
  code_sizes_wf code_sizes /\ (length code_sizes <= 288)%nat /\
  table_of code_sizes table /\ bit_stream_valid bs /\ bits_remaining bs = 0 /\
  deflate_bit_stream_get_huffman_encoded_value table bs = Error BadCode.
Proof.
  intros code_sizes table bs.
  assert (H1 : code_sizes_wf code_sizes) by (repeat constructor; lia).
  assert (H2 : (length code_sizes <= 288)%nat) by (simpl; lia).
  assert (H3 : table_of code_sizes table) by exact example_table_of.
  assert (H4 : bit_stream_valid bs) by (apply (example_stream_valid []); constructor).
  assert (H5 : bits_remaining bs = 0) by reflexivity.
  refine (conj H1 (conj H2 (conj H3 (conj H4 (conj H5 _))))).
  exact (proj2 (deflate_bit_stream_get_huffman_encoded_value_bad_code
                  code_sizes table bs H1 H2 H3 H4) H5).
Defined.

(** ** The fixed Huffman tables *)

Lemma fixed_literal_codes_check :
  forallb (fun symbol =>
     (load fixed_literal_code_sizes (Z.of_nat symbol) =? fixed_code_size (Z.of_nat symbol))
     && (canonical_code fixed_literal_code_sizes symbol =? fixed_literal_code (Z.of_nat symbol)))
    (seq 0 288) = true.
Proof. vm_compute. reflexivity. Qed.

Lemma fixed_literal_codes (symbol : nat) :
  (symbol < 288)%nat ->
  load fixed_literal_code_sizes (Z.of_nat symbol) = fixed_code_size (Z.of_nat symbol) /\
  canonical_code fixed_literal_code_sizes symbol = fixed_literal_code (Z.of_nat symbol).
Proof.
  intros Hs. pose proof fixed_literal_codes_check as Hall.
  rewrite forallb_forall in Hall. specialize (Hall symbol).
  assert (Hin : In symbol (seq 0 288)) by (apply in_seq; lia).
  specialize (Hall Hin). apply andb_prop in Hall. destruct Hall as [H1 H2].
  apply Z.eqb_eq in H1. apply Z.eqb_eq in H2. split; assumption.
Qed.

Lemma fixed_distance_codes_check :
  forallb (fun symbol =>
     (load (replicate 30 5) (Z.of_nat symbol) =? 5)
     && (canonical_code (replicate 30 5) symbol =? Z.of_nat symbol))
    (seq 0 30) = true.
Proof. vm_compute. reflexivity. Qed.

Lemma fixed_distance_codes (symbol : nat) :
  (symbol < 30)%nat ->
  load (replicate 30 5) (Z.of_nat symbol) = 5 /\
  canonical_code (replicate 30 5) symbol = Z.of_nat symbol.
Proof.
  intros Hs. pose proof fixed_distance_codes_check as Hall.
  rewrite forallb_forall in Hall. specialize (Hall symbol).
  assert (Hin : In symbol (seq 0 30)) by (apply in_seq; lia).
  specialize (Hall Hin). apply andb_prop in Hall. destruct Hall as [H1 H2].
  apply Z.eqb_eq in H1. apply Z.eqb_eq in H2. split; assumption.
Qed.

Lemma construct_table_table_of (code_size_array : list Z) n table :
  0 <= n <= Z.of_nat (length code_size_array) ->
  construct_table code_size_array n = Ok table ->
  table_of (take (Z.to_nat n) code_size_array) table.
Proof.
  intros Hn Hrun. unfold table_of. rewrite length_take.
  replace (Z.of_nat (Z.to_nat n `min` length code_size_array)) with n by lia.
  rewrite deflate_huffman_table_construct_prefix.
  unfold construct_table in Hrun.
  destruct (deflate_huffman_table_construct code_size_array n) as [[status t]| | |];
    try discriminate.
  simpl in Hrun. destruct status; [|discriminate]. congruence.
Qed.

Lemma fixed_code_sizes_split :
  take 288 (map (fun symbol => fixed_code_size (Z.of_nat symbol)) (seq 0 318))
    = fixed_literal_code_sizes /\
  take 30 (drop 288 (map (fun symbol => fixed_code_size (Z.of_nat symbol)) (seq 0 318)))
    = replicate 30 5.
Proof. split; vm_compute; reflexivity. Qed.

Lemma result_bind_ok {A B} (r : result A) (k : A -> result B) b :
  result_bind r k = Ok b -> exists a, r = Ok a /\ k a = Ok b.
Proof. destruct r; simpl; try discriminate. intros H. eexists. split; [reflexivity|exact H]. Qed.

Lemma fixed_tables_table_of literals_table distances_table :
  deflate_initialize_fixed_huffman_tables = Ok (literals_table, distances_table) ->
  table_of fixed_literal_code_sizes literals_table /\
  table_of (replicate 30 5) distances_table.
Proof.
  unfold deflate_initialize_fixed_huffman_tables. cbv zeta. intros Hrun.
  apply result_bind_ok in Hrun. destruct Hrun as (lt & Hlt & Hrun).
  apply result_bind_ok in Hrun. destruct Hrun as (dt & Hdt & Hrun).
  assert (lt = literals_table /\ dt = distances_table) as [-> ->]
    by (clear - Hrun; split; congruence).
  clear Hrun.
  destruct fixed_code_sizes_split as [H288 H30].
  apply construct_table_table_of in Hlt;
    [|clear; rewrite length_map, length_seq; lia].
  apply construct_table_table_of in Hdt;
    [|clear; rewrite length_drop, length_map, length_seq; lia].
  change (Z.to_nat 288) with 288%nat in Hlt. change (Z.to_nat 30) with 30%nat in Hdt.
  rewrite H288 in Hlt. rewrite H30 in Hdt. split; assumption.
Qed.

(** X5. The tables of deflate_initialize_fixed_huffman_tables are the fixed
    code of RFC 1951: from a valid stream with the fixed code of a
    literal/length symbol 0..287 at its head the reader returns that symbol
    on the literals table, and from one with the 5 bits of a distance
    symbol 0..29 it returns that symbol on the distances table; the stream
    goes on after the code. *)
Theorem deflate_initialize_fixed_huffman_tables_codes
    (literals_table distances_table : deflate_huffman_table)
    (symbol : Z) (bs : deflate_bit_stream) :
  deflate_initialize_fixed_huffman_tables = Ok (literals_table, distances_table) ->
  bit_stream_valid bs ->
  (0 <= symbol < 288 -> fixed_code_size symbol <= bits_remaining bs ->
   stream_code bs (Z.to_nat (fixed_code_size symbol)) = fixed_literal_code symbol ->
   exists bs',
     deflate_bit_stream_get_huffman_encoded_value literals_table bs = Ok (symbol, bs') /\
     bit_stream_valid bs' /\
     bits_remaining bs' = bits_remaining bs - fixed_code_size symbol /\
     forall i, 0 <= i -> stream_bit bs' i = stream_bit bs (i + fixed_code_size symbol)) /\
  (0 <= symbol < 30 -> 5 <= bits_remaining bs -> stream_code bs 5 = symbol ->
   exists bs',
     deflate_bit_stream_get_huffman_encoded_value distances_table bs = Ok (symbol, bs') /\
     bit_stream_valid bs' /\
     bits_remaining bs' = bits_remaining bs - 5 /\
     forall i, 0 <= i -> stream_bit bs' i = stream_bit bs (i + 5)).
Proof.
  intros Htables Hvalid.
  destruct (fixed_tables_table_of _ _ Htables) as [Hlt Hdt].
  split.
  - intros Hsymbol Hrem Hcode.
    destruct (fixed_literal_codes (Z.to_nat symbol) ltac:(lia)) as [Hsize Hcanon].
    rewrite Z2Nat.id in Hsize, Hcanon by lia.
    assert (Hpos : 1 <= fixed_code_size symbol)
      by (unfold fixed_code_size; repeat destruct (_ <? _); lia).
    destruct (get_huffman_symbol fixed_literal_code_sizes literals_table
                (Z.to_nat symbol) bs) as (bs' & Hrun & Hv & _ & _ & Hrem' & Hbits).
    + apply fixed_code_size_wf.
    + unfold fixed_literal_code_sizes. rewrite length_map, length_seq. lia.
    + exact Hlt.
    + unfold fixed_literal_code_sizes. rewrite length_map, length_seq. lia.
    + rewrite Z2Nat.id, Hsize by lia. lia.
    + exact Hvalid.
    + rewrite Z2Nat.id, Hsize by lia. exact Hrem.
    + rewrite Z2Nat.id by lia. rewrite Hsize, Hcanon. exact Hcode.
    + rewrite Z2Nat.id in Hrun, Hrem', Hbits by lia. rewrite Hsize in Hrem', Hbits.
      exists bs'. exact (conj Hrun (conj Hv (conj Hrem' Hbits))).
  - intros Hsymbol Hrem Hcode.
    destruct (fixed_distance_codes (Z.to_nat symbol) ltac:(lia)) as [Hsize Hcanon].
    rewrite Z2Nat.id in Hsize, Hcanon by lia.
    destruct (get_huffman_symbol (replicate 30 5) distances_table
                (Z.to_nat symbol) bs) as (bs' & Hrun & Hv & _ & _ & Hrem' & Hbits).
    + apply Forall_replicate. lia.
    + rewrite length_replicate. lia.
    + exact Hdt.
    + rewrite length_replicate. lia.
    + rewrite Z2Nat.id, Hsize by lia. lia.
    + exact Hvalid.
    + rewrite Z2Nat.id, Hsize by lia. exact Hrem.
    + rewrite Z2Nat.id by lia. rewrite Hsize, Hcanon. exact Hcode.
    + rewrite Z2Nat.id in Hrun, Hrem', Hbits by lia. rewrite Hsize in Hrem', Hbits.
      exists bs'. exact (conj Hrun (conj Hv (conj Hrem' Hbits))).
Qed.

Lemma deflate_initialize_fixed_huffman_tables_codes_witness :
  let bs := {| byte_stream := [0x8E]; byte_stream_size := 1;
               byte_stream_offset := 0; bit_buffer := 0; bit_buffer_size := 0 |} in
  exists literals_table distances_table bs',
    deflate_initialize_fixed_huffman_tables = Ok (literals_table, distances_table) /\
    bit_stream_valid bs /\
    stream_code bs (Z.to_nat (fixed_code_size 0x41)) = fixed_literal_code 0x41 /\
    deflate_bit_stream_get_huffman_encoded_value literals_table bs = Ok (0x41, bs') /\
    bits_remaining bs' = 0.
Proof.
  intros bs.
  destruct deflate_initialize_fixed_huffman_tables as [[literals_table distances_table]| | |]
    eqn:Htables.
  2-4: exfalso; vm_compute in Htables; discriminate.
  assert (Hvalid : bit_stream_valid bs).
  { unfold bit_stream_valid; simpl.
    split; [lia|split; [lia|split; [lia|split; [lia|]]]].
    repeat constructor; unfold is_byte; lia. }
  assert (Hcode : stream_code bs (Z.to_nat (fixed_code_size 0x41)) = fixed_literal_code 0x41)
    by (vm_compute; reflexivity).
  destruct (deflate_initialize_fixed_huffman_tables_codes literals_table distances_table
              0x41 bs Htables Hvalid) as [Hliteral _].
  destruct Hliteral as (bs' & Hrun & _ & Hrem & _);
    [lia|vm_compute; discriminate|exact Hcode|].
  exists literals_table, distances_table, bs'.
  split; [reflexivity|]. split; [exact Hvalid|]. split; [exact Hcode|].
  split; [exact Hrun|]. rewrite Hrem. reflexivity.
Defined.

(** ** The bit stream reader, as a whole *)

Lemma bit_stream_fill_keeps (fuel : nat) n bs bs1 :
  bit_stream_fill fuel n bs = Ok bs1 ->
  byte_stream bs1 = byte_stream bs /\ byte_stream_size bs1 = byte_stream_size bs.
Proof.
  revert bs. induction fuel as [|fuel IH]; intros bs; simpl.
  - destruct (_ <? _); [discriminate|]. intros H; inversion H; subst. auto.
  - destruct (_ <? _); [|intros H; inversion H; subst; auto].
    destruct (_ <=? _); [discriminate|]. intros H. apply IH in H. exact H.
Qed.

Lemma deflate_bit_stream_get_value_keeps n bs v bs' :
  deflate_bit_stream_get_value n bs = Ok (v, bs') ->
  byte_stream bs' = byte_stream bs /\ byte_stream_size bs' = byte_stream_size bs.
Proof.
  unfold deflate_bit_stream_get_value.
  destruct (32 <? n); [discriminate|].
  destruct (n =? 0); [intros H; inversion H; subst; auto|].
  destruct (bit_stream_fill 4 n bs) as [bs1| | |] eqn:Hfill; try discriminate.
  apply bit_stream_fill_keeps in Hfill. cbn [result_bind].
  destruct (n <? 32); intros H; inversion H; subst; exact Hfill.
Qed.

(** A call that reads: the value and the stream that it leaves. *)
Lemma get_value_reads bs n :
  bit_stream_valid bs -> 0 < n <= 32 ->
  (bit_buffer_size bs < n -> n <= 25 \/ bit_buffer_size bs mod 8 = 0) ->
  n <= bits_remaining bs ->
  exists v bs',
    deflate_bit_stream_get_value n bs = Ok (v, bs') /\
    0 <= v < 2 ^ n /\
    (forall i, 0 <= i < n -> Z.testbit v i = stream_bit bs i) /\
    bit_stream_valid bs' /\
    byte_stream bs' = byte_stream bs /\ byte_stream_size bs' = byte_stream_size bs /\
    bits_remaining bs' = bits_remaining bs - n /\
    forall i, 0 <= i -> stream_bit bs' i = stream_bit bs (i + n).
Proof.
  intros Hvalid Hn Hcond Hrem.
  destruct (deflate_bit_stream_get_value_next_bits bs n Hvalid ltac:(lia))
    as (_ & _ & Hvalue).
  destruct (Hvalue ltac:(lia) Hrem) as (v & bs' & Hrun & Hv & Hbits & _).
  destruct (deflate_bit_stream_get_value_advances bs n v bs' Hvalid Hn Hcond Hrun)
    as (Hvalid' & Hrem' & Hstream).
  destruct (deflate_bit_stream_get_value_keeps n bs v bs' Hrun) as [Hbytes Hsize].
  exists v, bs'.
  exact (conj Hrun (conj Hv (conj Hbits (conj Hvalid' (conj Hbytes (conj Hsize
           (conj Hrem' Hstream))))))).
Qed.

(** X6. deflate_bit_stream_get_value reads: from a valid state, for
    1 <= n <= 32 with n <= 25 or a bit buffer that holds whole bytes, the
    call fails with Truncated exactly when the stream has fewer than n bits
    left; otherwise it returns the next n bits, the first one as bit 0 of
    the value, and leaves a valid state of the same byte stream that has n
    bits less and delivers the bits that follow. Two calls therefore read
    what one call for the sum of their sizes reads. *)
Theorem deflate_bit_stream_get_value_reads (bs : deflate_bit_stream) (n : Z) :
  bit_stream_valid bs -> 0 < n <= 32 ->
  (bit_buffer_size bs < n -> n <= 25 \/ bit_buffer_size bs mod 8 = 0) ->
  (deflate_bit_stream_get_value n bs = Error Truncated <-> bits_remaining bs < n) /\
  (n <= bits_remaining bs ->
   exists v bs',
     deflate_bit_stream_get_value n bs = Ok (v, bs') /\
     0 <= v < 2 ^ n /\
     (forall i, 0 <= i < n -> Z.testbit v i = stream_bit bs i) /\
     bit_stream_valid bs' /\
     byte_stream bs' = byte_stream bs /\ byte_stream_size bs' = byte_stream_size bs /\
     bits_remaining bs' = bits_remaining bs - n /\
     forall i, 0 <= i -> stream_bit bs' i = stream_bit bs (i + n)).
Proof.
  intros Hvalid Hn Hcond.
  destruct (deflate_bit_stream_get_value_next_bits bs n Hvalid ltac:(lia))
    as (_ & Htruncated & _).
  split.
  - split; [|apply Htruncated; lia].
    intros Herr. destruct (Z.lt_ge_cases (bits_remaining bs) n) as [Hlt|Hge]; [exact Hlt|].
    destruct (get_value_reads bs n Hvalid Hn Hcond Hge) as (v & bs' & Hrun & _).
    congruence.
  - apply get_value_reads; assumption.
Qed.

Lemma deflate_bit_stream_get_value_reads_witness :
  let bs := {| byte_stream := [0xA5; 0x3C]; byte_stream_size := 2;
               byte_stream_offset := 0; bit_buffer := 0; bit_buffer_size := 0 |} in
  bit_stream_valid bs /\ 0 < 5 <= 32 /\
  (bit_buffer_size bs < 5 -> 5 <= 25 \/ bit_buffer_size bs mod 8 = 0) /\
  exists v bs',
    deflate_bit_stream_get_value 5 bs = Ok (v, bs') /\ v = 5 /\
    bits_remaining bs' = 11.
Proof.
  intros bs.
  assert (H1 : bit_stream_valid bs).
  { unfold bit_stream_valid; simpl.
    split; [lia|split; [lia|split; [lia|split; [lia|]]]].
    repeat constructor; unfold is_byte; lia. }
  assert (H2 : 0 < 5 <= 32) by lia.
  assert (H3 : bit_buffer_size bs < 5 -> 5 <= 25 \/ bit_buffer_size bs mod 8 = 0)
    by (intros _; left; lia).
  split; [exact H1|]. split; [exact H2|]. split; [exact H3|].
  destruct (deflate_bit_stream_get_value_reads bs 5 H1 H2 H3) as [_ Hreads].
  destruct Hreads as (v & bs' & Hrun & _ & _ & _ & _ & _ & Hrem & _);
    [vm_compute; discriminate|].
  exists v, bs'. split; [exact Hrun|]. split.
  - assert (Hrun' : deflate_bit_stream_get_value 5 bs
                    = Ok (5, {| byte_stream := [0xA5; 0x3C]; byte_stream_size := 2;
                                byte_stream_offset := 1; bit_buffer := 5;
                                bit_buffer_size := 3 |})) by reflexivity.
    congruence.
  - rewrite Hrem. reflexivity.
Defined.

Lemma stored_block_length_mismatch_witness :
  let bs := {| byte_stream := [0x01; 0x00; 0xFE; 0xFF; 0x41]; byte_stream_size := 5;
               byte_stream_offset := 0; bit_buffer := 0; bit_buffer_size := 0 |} in
  bit_stream_valid bs /\ bit_buffer_size bs = 0 /\
  byte_stream_offset bs + 4 <= byte_stream_size bs /\
  decompress_stored_block (replicate 4 0) 4 0 bs = Error LengthMismatch.
Proof.
  intros bs.
  assert (H1 : bit_stream_valid bs).
  { unfold bit_stream_valid; simpl.
    split; [lia|split; [lia|split; [lia|split; [lia|]]]].
    repeat constructor; unfold is_byte; lia. }
  assert (H2 : bit_buffer_size bs = 0) by reflexivity.
  assert (H3 : byte_stream_offset bs + 4 <= byte_stream_size bs) by (simpl; lia).
  split; [exact H1|]. split; [exact H2|]. split; [exact H3|].
  apply (stored_block_length_mismatch (replicate 4 0) 4 0 bs H1 H2 H3).
  vm_compute. discriminate.
Defined.

(** ** The outcomes of the table construction *)

(** X8. deflate_huffman_table_construct on code sizes 0..15 for at most 288
    symbols has three outcomes and no other: 0 (the empty table) exactly
    when every code size is 0, the over-subscription error exactly when the
    sizes are not all 0 and over-subscribed, and 1 (a table) otherwise. The
    errors for a code size or a code offset out of bounds (deflate.c
    211-222 and 293-306) are not reached. *)
Theorem deflate_huffman_table_construct_outcomes (code_sizes : list Z) :
  code_sizes_wf code_sizes -> (length code_sizes <= 288)%nat ->
  let outcome :=
    deflate_huffman_table_construct code_sizes (Z.of_nat (length code_sizes)) in
  ((exists table, outcome = Ok (TableEmpty, table)) <-> Forall (eq 0) code_sizes) /\
  (outcome = Error OverSubscribed <->
   ~ Forall (eq 0) code_sizes /\ over_subscribed code_sizes) /\
  ((exists table, outcome = Ok (TableConstructed, table)) <->
   ~ Forall (eq 0) code_sizes /\ ~ over_subscribed code_sizes) /\
  (forall e, outcome = Error e -> e = OverSubscribed) /\
  outcome <> Undefined /\ outcome <> Timeout.
Proof.
  intros Hwf Hlen outcome.
  assert (Hnot : (forall i : nat, (0 < i <= 15)%nat -> 0 <= left_after code_sizes i) ->
                 ~ over_subscribed code_sizes).
  { intros Hleft (len & Hrange & Hneg). specialize (Hleft len ltac:(lia)). lia. }
  destruct (deflate_huffman_table_construct_cases code_sizes Hwf Hlen)
    as [(Hzero & table & Hrun)|[(Hsome & Hover & Hrun)|(Hsome & Hleft & table & Hrun & _)]];
    subst outcome.
  - rewrite Hrun.
    split; [split; [intros _; exact Hzero|intros _; exists table; reflexivity]|].
    split; [split; [discriminate|intros [Hsome _]; contradiction]|].
    split; [split; [intros [t Ht]; discriminate Ht|intros [Hsome _]; contradiction]|].
    split; [discriminate|]. split; discriminate.
  - rewrite Hrun.
    split; [split; [intros [t Ht]; discriminate Ht|intros Hzero; contradiction]|].
    split; [split; [intros _; split; assumption|reflexivity]|].
    split; [split; [intros [t Ht]; discriminate Ht|intros [_ Hfree]; contradiction]|].
    split; [intros e He; congruence|]. split; discriminate.
  - unfold table_of in Hrun. rewrite Hrun. apply Hnot in Hleft.
    split; [split; [intros [t Ht]; discriminate Ht|intros Hzero; contradiction]|].
    split; [split; [discriminate|intros [_ Hover]; contradiction]|].
    split; [split; [intros _; split; assumption|intros _; exists table; reflexivity]|].
    split; [discriminate|]. split; discriminate.
Qed.

Lemma deflate_huffman_table_construct_outcomes_witness :
  code_sizes_wf [2; 1; 3; 3] /\ (length [2; 1; 3; 3] <= 288)%nat /\
  exists table,
    deflate_huffman_table_construct [2; 1; 3; 3] 4 = Ok (TableConstructed, table).
Proof.
  assert (H1 : code_sizes_wf [2; 1; 3; 3]) by (repeat constructor; lia).
  assert (H2 : (length [2; 1; 3; 3] <= 288)%nat) by (simpl; lia).
  split; [exact H1|]. split; [exact H2|].
  destruct (deflate_huffman_table_construct_outcomes [2; 1; 3; 3] H1 H2)
    as (_ & _ & Hconstructed & _).
  apply Hconstructed. split.
  - intros Hzero. inversion Hzero; subst. discriminate.
  - intros (len & Hrange & Hneg).
    do 16 (destruct len as [|len]; [vm_compute in Hneg; try discriminate; lia|]). lia.
Defined.

(** ** The header, in general *)

Lemma agree_load (data data' : list Z) (i : Z) (j : nat) :
  data' !! j = data !! j -> i = Z.of_nat j -> load data' i = load data i.
Proof.
  intros Hj ->. unfold load.
  destruct (Z.ltb_spec (Z.of_nat j) 0) as [Hneg|_]; [lia|].
  rewrite Nat2Z.id, Hj. reflexivity.
Qed.

(** X9. The check bits and the level bits of the zlib header are not
    validated (deflate.c 1638, "TODO validate check bits"): two inputs of
    the same size that differ in byte 1 only, and agree on its preset
    dictionary bit, have the same outcome. *)
Theorem deflate_decompress_ignores_check_bits
    (compressed_data compressed_data' uncompressed_data : list Z)
    (compressed_data_size uncompressed_data_size : Z) :
  (forall j : nat, j <> 1%nat -> compressed_data' !! j = compressed_data !! j) ->
  Z.land (load compressed_data' 1) 0x20 = Z.land (load compressed_data 1) 0x20 ->
  deflate_decompress compressed_data' compressed_data_size
    uncompressed_data uncompressed_data_size =
  deflate_decompress compressed_data compressed_data_size
    uncompressed_data uncompressed_data_size.
Proof.
  intros Hbytes Hfdict. unfold deflate_decompress, decompress_header.
  destruct (compressed_data_size <? 2); [reflexivity|].
  destruct (SSIZE_MAX <? compressed_data_size); [reflexivity|].
  destruct (SSIZE_MAX <? uncompressed_data_size); [reflexivity|].
  destruct (compressed_data_size <=? 0); [reflexivity|].
  rewrite Hfdict.
  rewrite (agree_load compressed_data compressed_data' 0 0) by (auto; lia).
  destruct (negb (Z.land (load compressed_data 1) 32 =? 0)).
  - destruct (compressed_data_size <? 6); [reflexivity|]. cbn [result_bind].
    destruct (negb (Z.land (load compressed_data 0) 15 =? 8)); [reflexivity|].
    destruct (32768 <? _); [reflexivity|]. cbn [result_bind].
    apply decompress_payload_window; [lia|].
    intros j Hj. apply Hbytes. lia.
  - cbn [result_bind].
    destruct (negb (Z.land (load compressed_data 0) 15 =? 8)); [reflexivity|].
    destruct (32768 <? _); [reflexivity|]. cbn [result_bind].
    apply decompress_payload_window; [lia|].
    intros j Hj. apply Hbytes. lia.
Qed.

Lemma deflate_decompress_ignores_check_bits_witness :
  (forall j : nat, j <> 1%nat ->
     [0x78; 0xDA; 0x4B; 0x04; 0x00; 0x00; 0x62; 0x00; 0x62] !! j =
     [0x78; 0x9C; 0x4B; 0x04; 0x00; 0x00; 0x62; 0x00; 0x62] !! j) /\
  Z.land (load [0x78; 0xDA; 0x4B; 0x04; 0x00; 0x00; 0x62; 0x00; 0x62] 1) 0x20 =
  Z.land (load [0x78; 0x9C; 0x4B; 0x04; 0x00; 0x00; 0x62; 0x00; 0x62] 1) 0x20 /\
  deflate_decompress [0x78; 0xDA; 0x4B; 0x04; 0x00; 0x00; 0x62; 0x00; 0x62] 9
    (replicate 4 0) 4 = Ok ([0x61; 0; 0; 0], 1).
Proof.
  assert (H1 : forall j : nat, j <> 1%nat ->
     [0x78; 0xDA; 0x4B; 0x04; 0x00; 0x00; 0x62; 0x00; 0x62] !! j =
     [0x78; 0x9C; 0x4B; 0x04; 0x00; 0x00; 0x62; 0x00; 0x62] !! j).
  { intros [|[|j]] Hj; [reflexivity|congruence|reflexivity]. }
  assert (H2 : Z.land (load [0x78; 0xDA; 0x4B; 0x04; 0x00; 0x00; 0x62; 0x00; 0x62] 1) 0x20 =
               Z.land (load [0x78; 0x9C; 0x4B; 0x04; 0x00; 0x00; 0x62; 0x00; 0x62] 1) 0x20)
    by reflexivity.
  split; [exact H1|]. split; [exact H2|].
  rewrite (deflate_decompress_ignores_check_bits _ _ (replicate 4 0) 9 4 H1 H2).
  vm_compute. reflexivity.
Defined.

(** X10. No input of fewer than 5 bytes decompresses, and none of fewer
    than 13 bytes whose header has the preset dictionary bit set: after the
    header (deflate.c 1571-1704) and the sizes it takes off, nothing is left
    for the first block (deflate.c 1710). *)
Theorem deflate_decompress_short_input
    (compressed_data uncompressed_data : list Z)
    (compressed_data_size uncompressed_data_size : Z) :
  compressed_data_size
    <= (if Z.land (load compressed_data 1) 0x20 =? 0 then 4 else 12) ->
  exists e,
    deflate_decompress compressed_data compressed_data_size
      uncompressed_data uncompressed_data_size = Error e.
Proof.
  intros Hshort. unfold deflate_decompress, decompress_header.
  destruct (compressed_data_size <? 2); [eauto|].
  destruct (SSIZE_MAX <? compressed_data_size); [eauto|].
  destruct (SSIZE_MAX <? uncompressed_data_size); [eauto|].
  destruct (compressed_data_size <=? 0); [eauto|].
  destruct (Z.land (load compressed_data 1) 32 =? 0); cbn [negb].
  - cbn [result_bind].
    destruct (negb (Z.land (load compressed_data 0) 15 =? 8)); [eauto|].
    destruct (32768 <? _); [eauto|]. cbn [result_bind].
    unfold decompress_payload.
    destruct (Z.leb_spec (compressed_data_size - 2) (0 + 2)); [eauto|lia].
  - destruct (compressed_data_size <? 6); [eauto|]. cbn [result_bind].
    destruct (negb (Z.land (load compressed_data 0) 15 =? 8)); [eauto|].
    destruct (32768 <? _); [eauto|]. cbn [result_bind].
    unfold decompress_payload.
    destruct (Z.leb_spec (compressed_data_size - 4 - 2) (0 + 4 + 2)); [eauto|lia].
Qed.

Lemma deflate_decompress_short_input_witness :
  4 <= (if Z.land (load [0x78; 0x9C; 0x03; 0x00] 1) 0x20 =? 0 then 4 else 12) /\
  deflate_decompress [0x78; 0x9C; 0x03; 0x00] 4 (replicate 4 0) 4 = Error Truncated.
Proof.
  assert (H1 : 4 <= (if Z.land (load [0x78; 0x9C; 0x03; 0x00] 1) 0x20 =? 0
                     then 4 else 12)) by (vm_compute; discriminate).
  split; [exact H1|].
  destruct (deflate_decompress_short_input [0x78; 0x9C; 0x03; 0x00] (replicate 4 0) 4 4 H1)
    as [e He].
  rewrite He. revert He. vm_compute. intros He. exact (eq_sym He).
Defined.

(** ** The output buffer is written within its capacity *)

Section Guards.

Variables (data : list Z) (size : Z).

Lemma guards_ret {A} (a : A) (Q : A -> Prop) : Q a -> guards data size (ret a) Q.
Proof. intros Ha bs Hbs. simpl. auto. Qed.

Lemma guards_fail {A} e (Q : A -> Prop) : guards data size (fail e) Q.
Proof. intros bs Hbs. exact I. Qed.

Lemma guards_undefined {A} (Q : A -> Prop) : guards data size (fun _ => Undefined) Q.
Proof. intros bs Hbs. exact I. Qed.

Lemma guards_timeout {A} (Q : A -> Prop) : guards data size (fun _ => Timeout) Q.
Proof. intros bs Hbs. exact I. Qed.

Lemma guards_lift {A} (r : result A) (Q : A -> Prop) :
  ensures r Q -> guards data size (lift r) Q.
Proof. intros Hr bs Hbs. unfold lift. destruct r; simpl in *; auto. Qed.

Lemma guards_bind {A B} (m : M A) (k : A -> M B) (Q : A -> Prop) (R : B -> Prop) :
  guards data size m Q -> (forall a, Q a -> guards data size (k a) R) ->
  guards data size (bind m k) R.
Proof.
  intros Hm Hk bs Hbs. unfold bind. specialize (Hm bs Hbs).
  destruct (m bs) as [[a s]| | |]; simpl in *; auto.
  destruct Hm as [Ha Hs]. apply (Hk a Ha s Hs).
Qed.

Lemma guards_weaken {A} (m : M A) (Q Q' : A -> Prop) :
  guards data size m Q -> (forall a, Q a -> Q' a) -> guards data size m Q'.
Proof.
  intros Hm HQ bs Hbs. specialize (Hm bs Hbs).
  destruct (m bs) as [[a s]| | |]; simpl in *; auto.
  destruct Hm; auto.
Qed.

Lemma bit_stream_fill_over (fuel : nat) n bs :
  stream_over data size bs -> ensures (bit_stream_fill fuel n bs) (stream_over data size).
Proof.
  revert bs. induction fuel as [|fuel IH]; intros bs Hbs; simpl.
  - destruct (_ <? _); simpl; auto.
  - destruct (_ <? _); simpl; auto.
    destruct (_ <=? _); simpl; auto.
    apply IH. destruct Hbs as (H1 & H2 & H3). unfold stream_over; simpl.
    repeat split; auto; lia.
Qed.

Lemma bit_stream_prefill_over (fuel : nat) n bs :
  stream_over data size bs -> ensures (bit_stream_prefill fuel n bs) (stream_over data size).
Proof.
  revert bs. induction fuel as [|fuel IH]; intros bs Hbs; simpl.
  - destruct (_ <? _); simpl; auto.
  - destruct (_ <? _); simpl; auto.
    destruct (_ <=? _); simpl; auto.
    apply IH. destruct Hbs as (H1 & H2 & H3). unfold stream_over; simpl.
    repeat split; auto; lia.
Qed.

Lemma guards_get_value n :
  guards data size (deflate_bit_stream_get_value n) (fun _ => True).
Proof.
  intros bs Hbs. unfold deflate_bit_stream_get_value.
  destruct (32 <? n); [exact I|].
  destruct (n =? 0); [simpl; auto|].
  pose proof (bit_stream_fill_over 4 n bs Hbs) as Hfill.
  destruct (bit_stream_fill 4 n bs) as [s| | |]; simpl in *; auto.
  destruct (n <? 32); simpl; split; auto; exact Hfill.
Qed.

Lemma guards_get_huffman table :
  guards data size (deflate_bit_stream_get_huffman_encoded_value table) (fun _ => True).
Proof.
  intros bs Hbs. unfold deflate_bit_stream_get_huffman_encoded_value.
  pose proof (bit_stream_prefill_over (Z.to_nat (maximum_number_of_bits table))
                (maximum_number_of_bits table) bs Hbs) as Hfill.
  destruct (bit_stream_prefill _ _ bs) as [s| | |]; simpl in *; auto.
  destruct (huffman_decode_bits _ _ _ _ _ _ _) as [[v i]|]; simpl; auto.
Qed.

End Guards.

Create HintDb guards.

#[local] Hint Resolve guards_ret guards_fail guards_undefined guards_timeout
  guards_get_value guards_get_huffman : guards.

(** One step through a computation whose value does not matter. *)
Ltac guards_step :=
  match goal with
  | |- guards _ _ (bind _ _) _ =>
      apply (guards_bind _ _ _ _ (fun _ => True)); [|intros ? _]
  | |- guards _ _ (if ?c then _ else _) _ => destruct c
  | |- guards _ _ (match ?p with (_, _) => _ end) _ => destruct p
  | |- guards _ _ (lift _) (fun _ => True) =>
      apply guards_lift; match goal with |- ensures ?r _ => destruct r; exact I end
  | |- guards _ _ _ _ => solve [auto with guards]
  end.

Lemma guards_dynamic_read_code_sizes data size (k : nat) i a :
  guards data size (dynamic_read_code_sizes k i a) (fun _ => True).
Proof.
  revert i a. induction k as [|k IH]; intros i a; simpl; repeat guards_step.
Qed.

Lemma guards_dynamic_read_code_lengths data size (fuel : nat) table n i a :
  guards data size (dynamic_read_code_lengths fuel table n i a) (fun _ => True).
Proof.
  revert i a. induction fuel as [|fuel IH]; intros i a; simpl; repeat guards_step.
Qed.

#[local] Hint Resolve guards_dynamic_read_code_sizes
  guards_dynamic_read_code_lengths : guards.

Lemma guards_dynamic_huffman_tables data size :
  guards data size deflate_initialize_dynamic_huffman_tables (fun _ => True).
Proof. unfold deflate_initialize_dynamic_huffman_tables. repeat guards_step. Qed.

Lemma output_confined_refl out cap off :
  off <= cap -> output_confined out cap off (out, off).
Proof. intros H. unfold output_confined; simpl. repeat split; auto; lia. Qed.

Lemma output_confined_trans out cap off out1 off1 written :
  output_confined out cap off (out1, off1) ->
  output_confined out1 cap off1 written ->
  output_confined out cap off written.
Proof.
  intros (L1 & B1 & U1) (L2 & B2 & U2). simpl in *.
  split; [congruence|]. split; [lia|].
  intros j Hj. rewrite U2 by lia. apply U1. lia.
Qed.

Lemma output_confined_store out cap off v :
  0 <= off < cap ->
  output_confined out cap off (store out off v, off + 1).
Proof.
  intros H. unfold output_confined; simpl.
  split; [apply length_store|]. split; [lia|].
  intros j Hj. apply load_store_ne; lia.
Qed.

Lemma output_confined_decode_match compression_size compression_offset out cap off :
  0 <= compression_size -> 0 <= compression_offset -> cap <= Z.of_nat (length out) ->
  ensures (decode_match compression_size compression_offset out cap off)
    (output_confined out cap off).
Proof.
  intros Hsize Hoffset Hcap. unfold decode_match.
  destruct (Z.ltb_spec off compression_offset); [exact I|].
  destruct (Z.ltb_spec cap (off + compression_size)); [exact I|].
  destruct (copy_match_spec (Z.to_nat compression_size) compression_offset out off)
    as (out' & Hrun & Hlen & Hbelow & Habove & _); [lia|lia|].
  rewrite Hrun. simpl. unfold output_confined; simpl.
  split; [exact Hlen|]. split; [lia|].
  intros j [Hj|Hj]; [apply Hbelow; lia|apply Habove; lia].
Qed.

Lemma uint16_nonneg x : 0 <= uint16 x.
Proof. unfold uint16. apply Z.mod_pos_bound. lia. Qed.

Lemma guards_decode_huffman_loop data size (fuel : nat) literals_table distances_table
    out cap off :
  0 <= off <= cap -> cap <= Z.of_nat (length out) ->
  guards data size (decode_huffman_loop fuel literals_table distances_table out cap off)
    (output_confined out cap off).
Proof.
  revert out off. induction fuel as [|fuel IH]; intros out off Hoff Hcap; simpl.
  - apply guards_timeout.
  - apply (guards_bind _ _ _ _ (fun _ => True)); [apply guards_get_huffman|].
    intros code_value _.
    destruct (code_value <? 256).
    { destruct (Z.leb_spec cap off); [apply guards_fail|].
      eapply guards_weaken.
      - apply IH; [lia|rewrite length_store; exact Hcap].
      - intros written Hw.
        apply (output_confined_trans _ _ _ _ _ _
                 (output_confined_store out cap off (uint8 code_value) ltac:(lia)) Hw). }
    destruct (_ && _).
    { apply (guards_bind _ _ _ _ (fun _ => True)); [apply guards_get_value|].
      intros extra_bits _.
      apply (guards_bind _ _ _ _ (fun _ => True)); [apply guards_get_huffman|].
      intros distance_value _.
      destruct (_ || _); [apply guards_undefined|].
      apply (guards_bind _ _ _ _ (fun _ => True)); [apply guards_get_value|].
      intros distance_bits _.
      apply (guards_bind _ _ _ _ (output_confined out cap off)).
      - apply guards_lift.
        apply output_confined_decode_match; [apply uint16_nonneg|apply uint16_nonneg|exact Hcap].
      - intros [out1 off1] Hw.
        destruct (_ =? 256); [apply guards_ret; exact Hw|].
        pose proof Hw as (L1 & B1 & _). simpl in L1, B1.
        eapply guards_weaken.
        + apply IH; [lia|rewrite L1; exact Hcap].
        + intros written Hw'. apply (output_confined_trans _ _ _ _ _ _ Hw Hw'). }
    destruct (negb _); [apply guards_fail|].
    apply guards_ret, output_confined_refl. lia.
Qed.

Lemma guards_decode_huffman data size literals_table distances_table out cap off :
  0 <= off <= cap -> cap <= Z.of_nat (length out) ->
  guards data size (deflate_decode_huffman literals_table distances_table out cap off)
    (output_confined out cap off).
Proof.
  intros Hoff Hcap bs Hbs. unfold deflate_decode_huffman.
  destruct (SSIZE_MAX <? cap); [exact I|].
  apply guards_decode_huffman_loop; assumption.
Qed.

Lemma output_confined_memory_copy out cap off src src_offset n :
  0 <= off -> 0 <= n -> off + n <= cap -> cap <= Z.of_nat (length out) ->
  0 <= src_offset -> src_offset + n <= Z.of_nat (length src) ->
  output_confined out cap off (memory_copy out off src src_offset n, off + n).
Proof.
  intros Hoff Hn Hfit Hcap Hsrc Hsrc'. unfold output_confined, memory_copy; simpl.
  assert (Hlen : length (take (Z.to_nat off) out) = Z.to_nat off)
    by (rewrite length_take; lia).
  assert (Hlen' : length (take (Z.to_nat n) (drop (Z.to_nat src_offset) src)) = Z.to_nat n)
    by (rewrite length_take, length_drop; lia).
  split; [rewrite !length_app, Hlen, Hlen', length_drop; lia|].
  split; [lia|].
  intros j [Hj|Hj]; unfold load.
  - rewrite lookup_app_l by lia. rewrite lookup_take_lt by lia. reflexivity.
  - rewrite lookup_app_r by lia. rewrite lookup_app_r by lia.
    rewrite lookup_drop, Hlen, Hlen'. f_equal. f_equal. lia.
Qed.

Lemma guards_stored_block data size out cap off :
  size <= Z.of_nat (length data) ->
  0 <= off <= cap -> cap <= Z.of_nat (length out) ->
  guards data size (decompress_stored_block out cap off) (output_confined out cap off).
Proof.
  intros Hsize Hoff Hcap bs Hbs. unfold decompress_stored_block.
  generalize (Z.land (bit_buffer_size bs) 7). intros skip_bits.
  revert bs Hbs.
  apply (guards_bind _ _ _ _ (fun _ => True)).
  { destruct (0 <? skip_bits); [apply guards_get_value|apply guards_ret; exact I]. }
  intros _ _. apply (guards_bind _ _ _ _ (fun _ => True)); [apply guards_get_value|].
  intros block_size _.
  destruct (negb _); [apply guards_fail|].
  destruct (_ =? 0); [apply guards_ret, output_confined_refl; lia|].
  intros s (H1 & H2 & H3).
  destruct (Z.ltb_spec (byte_stream_size s - byte_stream_offset s) (Z.land block_size 65535));
    [exact I|].
  destruct (Z.ltb_spec (cap - off) (Z.land block_size 65535)); [exact I|].
  assert (0 <= Z.land block_size 65535) by (apply Z.land_nonneg; lia).
  simpl. split.
  - apply output_confined_memory_copy; try lia. rewrite H1. lia.
  - unfold stream_over; simpl. repeat split; auto; lia.
Qed.

Lemma guards_decompress_blocks data size (fuel : nat) fixed_literals fixed_distances
    out cap off :
  size <= Z.of_nat (length data) ->
  0 <= off <= cap -> cap <= Z.of_nat (length out) ->
  guards data size (decompress_blocks fuel fixed_literals fixed_distances out cap off)
    (output_confined out cap off).
Proof.
  intros Hsize. revert out off.
  induction fuel as [|fuel IH]; intros out off Hoff Hcap bs Hbs; simpl.
  - destruct (_ <? _); [exact I|]. simpl. split; [apply output_confined_refl; lia|exact Hbs].
  - destruct (_ <? _); [|simpl; split; [apply output_confined_refl; lia|exact Hbs]].
    revert bs Hbs.
    apply (guards_bind _ _ _ _ (fun _ => True)); [apply guards_get_value|]. intros v _.
    apply (guards_bind _ _ _ _ (output_confined out cap off)).
    + destruct (_ =? 0); [apply guards_stored_block; assumption|].
      destruct (_ =? 1); [apply guards_decode_huffman; assumption|].
      destruct (_ =? 2); [|apply guards_fail].
      apply (guards_bind _ _ _ _ (fun _ => True)); [apply guards_dynamic_huffman_tables|].
      intros [literals_table distances_table] _. apply guards_decode_huffman; assumption.
    + intros [out1 off1] Hw. destruct (negb _); [apply guards_ret; exact Hw|].
      pose proof Hw as (L1 & B1 & _). simpl in L1, B1.
      eapply guards_weaken.
      * apply IH; [lia|rewrite L1; exact Hcap].
      * intros written Hw'. apply (output_confined_trans _ _ _ _ _ _ Hw Hw').
Qed.

Lemma decompress_payload_confined data size offset out cap :
  size <= Z.of_nat (length data) -> 0 <= offset ->
  0 <= cap <= Z.of_nat (length out) ->
  ensures (decompress_payload data size offset out cap) (output_confined out cap 0).
Proof.
  intros Hsize Hoffset Hcap. unfold decompress_payload.
  destruct (size <=? offset); [exact I|].
  destruct deflate_initialize_fixed_huffman_tables as [[literals distances]| | |];
    try exact I.
  cbn [result_bind].
  match goal with
  | |- ensures (result_bind (decompress_blocks ?f _ _ _ _ _ ?s) _) _ =>
      pose proof (guards_decompress_blocks data size f literals distances out cap 0
                    Hsize ltac:(lia) ltac:(lia) s) as Hblocks;
      destruct (decompress_blocks f literals distances out cap 0 s)
        as [[[out1 off1] s1]| | |]; try exact I
  end.
  cbn [result_bind]. simpl in Hblocks.
  destruct Hblocks as [Hw _]; [unfold stream_over; simpl; repeat split; auto|].
  unfold decompress_trailer.
  destruct (4 <=? _); [|exact Hw].
  destruct (trailer_rewind _ _); try exact I. cbn [result_bind].
  destruct (deflate_calculate_adler32 _ _ _); try exact I. cbn [result_bind].
  destruct (negb _); [exact I|exact Hw].
Qed.

(** X11. The output buffer is written within its capacity: when
    deflate_decompress succeeds on an input of at most as many bytes as the
    input array has and a capacity within the output array, the size it
    reports is within the capacity, the array is as long as before, and
    every byte from the reported size on, so every byte beyond the
    capacity, is as it was before the call. *)
Theorem deflate_decompress_output_confined
    (compressed_data : list Z) (compressed_data_size : Z)
    (uncompressed_data : list Z) (uncompressed_data_size : Z)
    (written : list Z) (written_size : Z) :
  compressed_data_size <= Z.of_nat (length compressed_data) ->
  0 <= uncompressed_data_size <= Z.of_nat (length uncompressed_data) ->
  deflate_decompress compressed_data compressed_data_size
    uncompressed_data uncompressed_data_size = Ok (written, written_size) ->
  length written = length uncompressed_data /\
  0 <= written_size <= uncompressed_data_size /\
  forall j, written_size <= j -> load written j = load uncompressed_data j.
Proof.
  intros Hsize Hcap Hrun.
  assert (Hall : ensures (deflate_decompress compressed_data compressed_data_size
                            uncompressed_data uncompressed_data_size)
                   (output_confined uncompressed_data uncompressed_data_size 0)).
  { clear Hrun. unfold deflate_decompress, decompress_header.
    destruct (_ <? 2); [exact I|].
    destruct (SSIZE_MAX <? compressed_data_size); [exact I|].
    destruct (SSIZE_MAX <? uncompressed_data_size); [exact I|].
    destruct (_ <=? 0); [exact I|].
    destruct (negb (Z.land (load compressed_data 1) 32 =? 0)).
    - destruct (_ <? 6); [exact I|]. cbn [result_bind].
      destruct (negb (_ =? 8)); [exact I|].
      destruct (32768 <? _); [exact I|]. cbn [result_bind].
      apply decompress_payload_confined; lia.
    - cbn [result_bind].
      destruct (negb (_ =? 8)); [exact I|].
      destruct (32768 <? _); [exact I|]. cbn [result_bind].
      apply decompress_payload_confined; lia. }
  rewrite Hrun in Hall. destruct Hall as (Hlen & Hbound & Hsame). simpl in *.
  split; [exact Hlen|]. split; [exact Hbound|].
  intros j Hj. apply Hsame. right. exact Hj.
Qed.

Lemma deflate_decompress_output_confined_witness :
  let compressed_data := [0x78; 0x9C; 0x4B; 0x04; 0x00; 0x00; 0x62; 0x00; 0x62] in
  let uncompressed_data := [7; 7; 7; 7; 9; 9] in
  9 <= Z.of_nat (length compressed_data) /\
  0 <= 4 <= Z.of_nat (length uncompressed_data) /\
  deflate_decompress compressed_data 9 uncompressed_data 4 = Ok ([0x61; 7; 7; 7; 9; 9], 1) /\
  length [0x61; 7; 7; 7; 9; 9] = length uncompressed_data.
Proof.
  intros compressed_data uncompressed_data.
  assert (H1 : 9 <= Z.of_nat (length compressed_data)) by (simpl; lia).
  assert (H2 : 0 <= 4 <= Z.of_nat (length uncompressed_data)) by (simpl; lia).
  assert (H3 : deflate_decompress compressed_data 9 uncompressed_data 4
               = Ok ([0x61; 7; 7; 7; 9; 9], 1)) by (vm_compute; reflexivity).
  split; [exact H1|]. split; [exact H2|]. split; [exact H3|].
  exact (proj1 (deflate_decompress_output_confined compressed_data 9 uncompressed_data 4
                  _ _ H1 H2 H3)).
Defined.

(** ** The tables of a dynamic block *)

Lemma returns_ok {A} (r : result A) (Q : A -> Prop) :
  returns r Q -> returns r (fun a => Q a /\ r = Ok a).
Proof. destruct r; simpl; auto. Qed.

Lemma bit_stream_valid_wf bs : bit_stream_valid bs -> bit_stream_wf bs.
Proof.
  intros (Hs & Hb & Hoff & _). unfold bit_stream_wf.
  assert (2 ^ bit_buffer_size bs <= 2 ^ 32) by (apply Z.pow_le_mono_r; lia).
  repeat split; lia.
Qed.

(** The code sizes that the header of a dynamic block holds and the two
    tables made of them. *)
Lemma triple_dynamic_huffman_tables_canonical b :
  triple (budget b) deflate_initialize_dynamic_huffman_tables
    (fun tables _ =>
       exists (code_sizes : list Z) (number_of_literal_codes number_of_distance_codes : Z),
         257 <= number_of_literal_codes <= 286 /\
         1 <= number_of_distance_codes <= 30 /\
         Z.of_nat (length code_sizes) = number_of_literal_codes + number_of_distance_codes /\
         code_sizes_wf code_sizes /\
         load code_sizes 256 <> 0 /\
         table_of (take (Z.to_nat number_of_literal_codes) code_sizes) (fst tables) /\
         table_of (drop (Z.to_nat number_of_literal_codes) code_sizes) (snd tables)).
Proof.
  unfold deflate_initialize_dynamic_huffman_tables.
  eapply triple_bind; [apply triple_get_value; lia|]. intros v. cbv beta.
  apply triple_pure. intros Hv.
  match goal with |- triple _ _ ?Q =>
    apply (triple_weaken (budget b) _ _ Q);
      [|intros bs H; apply (budget_mono _ _ _ H); lia|auto] end.
  pose proof (land_31_bound v ltac:(lia)) as Hlit.
  assert (0 <= Z.shiftr v 5) by (apply Z.shiftr_nonneg; lia).
  pose proof (land_31_bound (Z.shiftr v 5) ltac:(lia)) as Hdist.
  set (lit := Z.land v 31 + 257) in *.
  set (dist := Z.land (Z.shiftr v 5) 31 + 1) in *.
  destruct (Z.ltb_spec 286 lit); [apply triple_fail|].
  destruct (Z.ltb_spec 30 dist); [apply triple_fail|].
  assert (Hwf0 : code_sizes_wf (replicate 316 0))
    by (apply Forall_replicate; lia).
  eapply triple_bind; [apply (triple_dynamic_read_code_sizes _ _ _ b Hwf0)|].
  intros a. cbv beta. apply triple_pure. intros [Ha Hlen].
  rewrite length_replicate in Hlen.
  match goal with |- context [dynamic_clear_code_sizes ?k ?i a] =>
    destruct (dynamic_clear_code_sizes_wf k i a Ha) as [Hc Hclen];
    set (a1 := dynamic_clear_code_sizes k i a) in * end.
  eapply triple_bind.
  { apply triple_lift. eapply returns_weaken;
      [apply construct_table_returns; [exact Hc|lia|lia]|].
    intros t Ht bs Hbs. exact (conj (table_below_wf _ _ Ht) Hbs). }
  intros codes_table. cbv beta. apply triple_pure. intros Htable.
  eapply triple_bind;
    [apply (triple_dynamic_read_code_lengths _ _ _ _ _ b); [lia|exact Htable|exact Hc]|].
  intros a2. cbv beta. apply triple_pure. intros [Ha2 Hlen2].
  destruct (Z.eqb_spec (load a2 256) 0) as [|H256]; [apply triple_fail|].
  eapply (triple_bind _ _ (fun t s => construct_table a2 lit = Ok t /\ budget b s)).
  { apply triple_lift. eapply returns_weaken;
      [apply returns_ok, construct_table_returns; [exact Ha2|lia|lia]|].
    intros t [_ Ht] bs Hbs. auto. }
  intros literals_table. cbv beta. apply triple_pure. intros Hlt.
  eapply (triple_bind _ _
            (fun t s => construct_table (drop (Z.to_nat lit) a2) dist = Ok t /\ budget b s)).
  { apply triple_lift. eapply returns_weaken;
      [apply returns_ok, construct_table_returns;
         [apply Forall_drop, Ha2|lia|rewrite length_drop; lia]|].
    intros t [_ Ht] bs Hbs. auto. }
  intros distances_table. cbv beta. apply triple_pure. intros Hdt.
  apply triple_ret. intros bs _. cbn [fst snd].
  exists (take (Z.to_nat (lit + dist)) a2), lit, dist.
  apply construct_table_table_of in Hlt; [|lia].
  apply construct_table_table_of in Hdt; [|rewrite length_drop; lia].
  split; [lia|]. split; [lia|]. split; [rewrite length_take; lia|].
  split; [apply Forall_take, Ha2|].
  split; [rewrite load_take by lia; exact H256|].
  split.
  - rewrite take_take. replace (Z.to_nat lit `min` Z.to_nat (lit + dist))%nat
      with (Z.to_nat lit) by lia. exact Hlt.
  - replace (Z.to_nat (lit + dist)) with (Z.to_nat lit + Z.to_nat dist)%nat by lia.
    rewrite <- take_drop_commute. exact Hdt.
Qed.

(** X13. The tables of a dynamic block are canonical tables: when
    deflate_initialize_dynamic_huffman_tables returns from a valid stream,
    there are code sizes 0..15 for 257..286 literal/length symbols and 1..30
    distance symbols, with a code for the end-of-block symbol 256, such that
    the literals table is the table that deflate_huffman_table_construct
    makes of the first and the distances table the one it makes of the
    others. *)
Theorem deflate_initialize_dynamic_huffman_tables_canonical
    (bs : deflate_bit_stream) (literals_table distances_table : deflate_huffman_table)
    (bs' : deflate_bit_stream) :
  bit_stream_valid bs ->
  deflate_initialize_dynamic_huffman_tables bs
    = Ok ((literals_table, distances_table), bs') ->
  exists (code_sizes : list Z) (number_of_literal_codes number_of_distance_codes : Z),
    257 <= number_of_literal_codes <= 286 /\
    1 <= number_of_distance_codes <= 30 /\
    Z.of_nat (length code_sizes) = number_of_literal_codes + number_of_distance_codes /\
    code_sizes_wf code_sizes /\
    load code_sizes 256 <> 0 /\
    table_of (take (Z.to_nat number_of_literal_codes) code_sizes) literals_table /\
    table_of (drop (Z.to_nat number_of_literal_codes) code_sizes) distances_table.
Proof.
  intros Hvalid Hrun.
  pose proof (triple_dynamic_huffman_tables_canonical (bits_remaining bs) bs
                (conj (bit_stream_valid_wf bs Hvalid) (Z.le_refl _))) as Htriple.
  rewrite Hrun in Htriple. exact Htriple.
Qed.

Lemma deflate_initialize_dynamic_huffman_tables_canonical_witness :
  let bs := {| byte_stream :=
                 [0x78; 0x01; 0x05; 0xc1; 0x01; 0x01; 0x00; 0x30; 0x0c; 0x83; 0x30;
                  0xad; 0x40; 0x77; 0xff; 0x12; 0x9e; 0x00; 0x00; 0x80; 0xaa; 0xaa;
                  0x56; 0xd5; 0xb6; 0xbb; 0xf7; 0x01; 0xc9; 0x97; 0x0c; 0x4d];
               byte_stream_size := 32; byte_stream_offset := 3;
               bit_buffer := 0; bit_buffer_size := 5 |} in
  bit_stream_valid bs /\
  exists tables bs' (code_sizes : list Z) (number_of_literal_codes : Z),
    deflate_initialize_dynamic_huffman_tables bs = Ok (tables, bs') /\
    code_sizes_wf code_sizes /\
    table_of (take (Z.to_nat number_of_literal_codes) code_sizes) (fst tables).
Proof.
  intros bs.
  assert (Hvalid : bit_stream_valid bs).
  { unfold bit_stream_valid; simpl.
    split; [lia|split; [lia|split; [lia|split; [lia|]]]].
    repeat constructor; unfold is_byte; lia. }
  split; [exact Hvalid|].
  destruct (deflate_initialize_dynamic_huffman_tables bs)
    as [[[literals_table distances_table] bs']| | |] eqn:Hrun;
    try (exfalso; revert Hrun; vm_compute; discriminate).
  destruct (deflate_initialize_dynamic_huffman_tables_canonical bs literals_table
              distances_table bs' Hvalid Hrun)
    as (code_sizes & lit & dist & _ & _ & _ & Hwf & _ & Hlt & _).
  exists (literals_table, distances_table), bs', code_sizes, lit.
  split; [reflexivity|]. split; [exact Hwf|exact Hlt].
Defined.

(** ** Decoding a run of literals *)

Lemma codes_at_shift (code_sizes : list Z) bs bs' d pos (symbols : list nat) :
  code_sizes_wf code_sizes -> 0 <= pos ->
  (forall i, 0 <= i -> stream_bit bs' i = stream_bit bs (i + d)) ->
  codes_at code_sizes bs (pos + d) symbols -> codes_at code_sizes bs' pos symbols.
Proof.
  intros Hwf Hpos Hshift. revert pos Hpos.
  induction symbols as [|symbol symbols IH]; intros pos Hpos; simpl; [auto|].
  intros (Hnz & Hcode & Hrest).
  pose proof (load_code_size code_sizes (Z.of_nat symbol) Hwf) as Hlen.
  split; [exact Hnz|]. split.
  - rewrite <- Hcode. apply code_of_bits_ext. intros i Hi.
    rewrite Hshift by lia. f_equal. lia.
  - apply IH; [lia|].
    replace (pos + load code_sizes (Z.of_nat symbol) + d)
      with (pos + d + load code_sizes (Z.of_nat symbol)) by lia.
    exact Hrest.
Qed.

Lemma codes_size_length (code_sizes : list Z) bs pos (symbols : list nat) :
  code_sizes_wf code_sizes -> codes_at code_sizes bs pos symbols ->
  Z.of_nat (length symbols) <= codes_size code_sizes symbols.
Proof.
  intros Hwf. revert pos.
  induction symbols as [|symbol symbols IH]; intros pos; simpl; [lia|].
  intros (Hnz & _ & Hrest). specialize (IH _ Hrest).
  pose proof (load_code_size code_sizes (Z.of_nat symbol) Hwf). lia.
Qed.

Lemma take_S_store (out : list Z) (n : nat) v :
  (n < length out)%nat -> take (S n) (<[n := v]> out) = take n out ++ [v].
Proof.
  intros Hn. rewrite insert_take_drop by exact Hn.
  replace (S n) with (n + 1)%nat by lia.
  rewrite take_app_add' by (rewrite length_take; lia). reflexivity.
Qed.

Lemma decode_huffman_loop_literals (code_sizes : list Z) literals_table distances_table
    (literals : list nat) :
  code_sizes_wf code_sizes -> (256 < length code_sizes <= 288)%nat ->
  table_of code_sizes literals_table ->
  Forall (fun literal => (literal < 256)%nat) literals ->
  forall (fuel : nat) out cap off bs,
  (length literals < fuel)%nat ->
  bit_stream_valid bs ->
  codes_at code_sizes bs 0 (literals ++ [256%nat]) ->
  codes_size code_sizes (literals ++ [256%nat]) <= bits_remaining bs ->
  0 <= off -> off + Z.of_nat (length literals) <= cap -> cap <= Z.of_nat (length out) ->
  exists bs',
    decode_huffman_loop fuel literals_table distances_table out cap off bs
      = Ok ((take (Z.to_nat off) out ++ map Z.of_nat literals
               ++ drop (Z.to_nat off + length literals) out,
             off + Z.of_nat (length literals)), bs') /\
    bit_stream_valid bs' /\
    byte_stream_size bs' = byte_stream_size bs /\
    bits_remaining bs' =
      bits_remaining bs - codes_size code_sizes (literals ++ [256%nat]) /\
    forall i, 0 <= i ->
      stream_bit bs' i = stream_bit bs (i + codes_size code_sizes (literals ++ [256%nat])).
Proof.
  intros Hwf Hlen Htable Hliterals.
  induction Hliterals as [|literal literals Hliteral Hliterals IH];
    intros fuel out cap off bs Hfuel Hvalid Hcodes Hsize Hoff Hfit Hcap.
  - destruct fuel as [|fuel]; [simpl in Hfuel; lia|].
    simpl in Hcodes, Hsize. destruct Hcodes as (Hnz & Hcode & _).
    rewrite Z.add_0_r in Hsize.
    destruct (get_huffman_symbol code_sizes literals_table 256 bs Hwf ltac:(lia) Htable
                ltac:(lia) Hnz Hvalid Hsize Hcode)
      as (bs' & Hrun & Hvalid' & _ & Hsame & Hrem & Hbits).
    exists bs'. cbn [decode_huffman_loop]. unfold bind at 1. rewrite Hrun.
    cbn [result_bind fst snd]. change (Z.of_nat 256) with 256.
    change (256 <? 256) with false. cbn [andb negb]. change (256 =? 256) with true.
    cbn [negb]. unfold ret. simpl length. simpl map. simpl codes_size.
    rewrite !Z.add_0_r, Nat.add_0_r. cbn [app]. rewrite take_drop.
    change (Z.of_nat 256) with 256 in Hrem, Hbits. auto.
  - destruct fuel as [|fuel]; [simpl in Hfuel; lia|].
    simpl in Hfuel. simpl length in Hfit. 
    change ((literal :: literals) ++ [256%nat]) with (literal :: (literals ++ [256%nat]))
      in *.
    cbn [codes_at codes_size] in Hcodes, Hsize. destruct Hcodes as (Hnz & Hcode & Hrest).
    pose proof (load_code_size code_sizes (Z.of_nat literal) Hwf) as Hlen1.
    pose proof (codes_size_length code_sizes bs _ _ Hwf Hrest) as Hrest_size.
    destruct (get_huffman_symbol code_sizes literals_table literal bs Hwf ltac:(lia) Htable
                ltac:(lia) Hnz Hvalid ltac:(lia) Hcode)
      as (bs1 & Hrun & Hvalid1 & _ & Hsame1 & Hrem1 & Hbits1).
    assert (Hrest1 : codes_at code_sizes bs1 0 (literals ++ [256%nat])).
    { apply (codes_at_shift code_sizes bs bs1 (load code_sizes (Z.of_nat literal)));
        [exact Hwf|lia|exact Hbits1|exact Hrest]. }
    destruct (IH fuel (store out off (uint8 (Z.of_nat literal))) cap (off + 1) bs1)
      as (bs' & Hloop & Hvalid' & Hsame' & Hrem' & Hbits'); try lia; try assumption.
    { rewrite length_store. exact Hcap. }
    exists bs'. cbn [decode_huffman_loop]. unfold bind at 1. rewrite Hrun.
    cbn [result_bind fst snd].
    destruct (Z.ltb_spec (Z.of_nat literal) 256) as [_|]; [|lia].
    destruct (Z.leb_spec cap off) as [|_]; [lia|].
    rewrite Hloop. cbn [codes_size].
    split; [|split; [exact Hvalid'|split; [congruence|split; [lia|]]]].
    + assert (Hout :
        take (Z.to_nat (off + 1)) (store out off (uint8 (Z.of_nat literal)))
          ++ map Z.of_nat literals
          ++ drop (Z.to_nat (off + 1) + length literals)
               (store out off (uint8 (Z.of_nat literal)))
        = take (Z.to_nat off) out ++ map Z.of_nat (literal :: literals)
          ++ drop (Z.to_nat off + length (literal :: literals)) out).
      { rewrite uint8_small by lia. unfold store.
        replace (Z.to_nat (off + 1)) with (S (Z.to_nat off)) by lia.
        rewrite take_S_store by lia. rewrite drop_insert_lt by lia.
        cbn [map length]. rewrite <- app_assoc. cbn [app].
        replace (S (Z.to_nat off) + length literals)%nat
          with (Z.to_nat off + S (length literals))%nat by lia.
        reflexivity. }
      rewrite Hout.
      replace (off + 1 + Z.of_nat (length literals))
        with (off + Z.of_nat (length (literal :: literals))) by (simpl length; lia).
      reflexivity.
    + intros i Hi. rewrite Hbits' by exact Hi. rewrite Hbits1 by lia. f_equal. lia.
Qed.

(** deflate_decode_huffman on a run of literals and the end-of-block code. *)
Lemma decode_huffman_literals (code_sizes : list Z)
    (literals_table distances_table : deflate_huffman_table) (literals : list nat)
    (uncompressed_data : list Z) (uncompressed_data_size uncompressed_data_offset : Z)
    (bs : deflate_bit_stream) :
  code_sizes_wf code_sizes -> (256 < length code_sizes <= 288)%nat ->
  table_of code_sizes literals_table ->
  Forall (fun literal => (literal < 256)%nat) literals ->
  bit_stream_valid bs ->
  codes_at code_sizes bs 0 (literals ++ [256%nat]) ->
  codes_size code_sizes (literals ++ [256%nat]) <= bits_remaining bs ->
  0 <= uncompressed_data_offset ->
  uncompressed_data_offset + Z.of_nat (length literals) <= uncompressed_data_size ->
  uncompressed_data_size <= Z.of_nat (length uncompressed_data) ->
  uncompressed_data_size <= SSIZE_MAX ->
  exists bs',
    deflate_decode_huffman literals_table distances_table uncompressed_data
      uncompressed_data_size uncompressed_data_offset bs
      = Ok ((take (Z.to_nat uncompressed_data_offset) uncompressed_data
               ++ map Z.of_nat literals
               ++ drop (Z.to_nat uncompressed_data_offset + length literals)
                    uncompressed_data,
             uncompressed_data_offset + Z.of_nat (length literals)), bs') /\
    bit_stream_valid bs' /\
    byte_stream_size bs' = byte_stream_size bs /\
    bits_remaining bs' =
      bits_remaining bs - codes_size code_sizes (literals ++ [256%nat]) /\
    forall i, 0 <= i ->
      stream_bit bs' i = stream_bit bs (i + codes_size code_sizes (literals ++ [256%nat])).
Proof.
  intros Hwf Hlen Htable Hliterals Hvalid Hcodes Hsize Hoff Hfit Hcap Hmax.
  unfold deflate_decode_huffman.
  destruct (Z.ltb_spec SSIZE_MAX uncompressed_data_size) as [|_]; [lia|].
  apply (decode_huffman_loop_literals code_sizes); try assumption.
  pose proof (codes_size_length code_sizes bs 0 _ Hwf Hcodes) as Hcount.
  rewrite length_app in Hcount. simpl length in Hcount. lia.
Qed.

(** X12. A block of literals decodes to its literals: with a literals table
    made of code sizes 0..15, a valid stream that holds the canonical codes
    of the literals and then the code of the end-of-block symbol 256, and
    room for the literals within the capacity, deflate_decode_huffman
    returns the output with the literals written from the offset on and
    nothing else changed, the offset moved by their number, and the stream
    after the end-of-block code. The distances table is not looked at. *)
Theorem deflate_decode_huffman_literals (code_sizes : list Z)
    (literals_table distances_table : deflate_huffman_table) (literals : list nat)
    (uncompressed_data : list Z) (uncompressed_data_size uncompressed_data_offset : Z)
    (bs : deflate_bit_stream) :
  code_sizes_wf code_sizes -> (256 < length code_sizes <= 288)%nat ->
  table_of code_sizes literals_table ->
  Forall (fun literal => (literal < 256)%nat) literals ->
  bit_stream_valid bs ->
  codes_at code_sizes bs 0 (literals ++ [256%nat]) ->
  codes_size code_sizes (literals ++ [256%nat]) <= bits_remaining bs ->
  0 <= uncompressed_data_offset ->
  uncompressed_data_offset + Z.of_nat (length literals) <= uncompressed_data_size ->
  uncompressed_data_size <= Z.of_nat (length uncompressed_data) ->
  uncompressed_data_size <= SSIZE_MAX ->
  exists bs',
    deflate_decode_huffman literals_table distances_table uncompressed_data
      uncompressed_data_size uncompressed_data_offset bs
      = Ok ((take (Z.to_nat uncompressed_data_offset) uncompressed_data
               ++ map Z.of_nat literals
               ++ drop (Z.to_nat uncompressed_data_offset + length literals)
                    uncompressed_data,
             uncompressed_data_offset + Z.of_nat (length literals)), bs') /\
    bit_stream_valid bs' /\
    bits_remaining bs' =
      bits_remaining bs - codes_size code_sizes (literals ++ [256%nat]) /\
    forall i, 0 <= i ->
      stream_bit bs' i = stream_bit bs (i + codes_size code_sizes (literals ++ [256%nat])).
Proof.
  intros Hwf Hlen Htable Hliterals Hvalid Hcodes Hsize Hoff Hfit Hcap Hmax.
  destruct (decode_huffman_literals code_sizes literals_table distances_table literals
              uncompressed_data uncompressed_data_size uncompressed_data_offset bs
              Hwf Hlen Htable Hliterals Hvalid Hcodes Hsize Hoff Hfit Hcap Hmax)
    as (bs' & Hrun & Hvalid' & _ & Hrem & Hbits).
  exists bs'. exact (conj Hrun (conj Hvalid' (conj Hrem Hbits))).
Qed.

Lemma deflate_decode_huffman_literals_witness :
  let bs := {| byte_stream := [0x4B; 0x04; 0x00]; byte_stream_size := 3;
               byte_stream_offset := 1; bit_buffer := 9; bit_buffer_size := 5 |} in
  exists literals_table distances_table bs',
    deflate_initialize_fixed_huffman_tables = Ok (literals_table, distances_table) /\
    bit_stream_valid bs /\
    codes_at fixed_literal_code_sizes bs 0 ([97%nat] ++ [256%nat]) /\
    deflate_decode_huffman literals_table distances_table [0; 0; 0; 0] 4 0 bs
      = Ok (([97; 0; 0; 0], 1), bs') /\
    bits_remaining bs' = 6.
Proof.
  intros bs.
  destruct deflate_initialize_fixed_huffman_tables as [[literals_table distances_table]| | |]
    eqn:Htables.
  2-4: exfalso; vm_compute in Htables; discriminate.
  destruct (fixed_tables_table_of _ _ Htables) as [Hliterals _].
  assert (Hwf : code_sizes_wf fixed_literal_code_sizes) by apply fixed_code_size_wf.
  assert (Hlen : (256 < length fixed_literal_code_sizes <= 288)%nat)
    by (unfold fixed_literal_code_sizes; rewrite length_map, length_seq; lia).
  assert (Hbytes : Forall (fun literal => (literal < 256)%nat) [97%nat])
    by (repeat constructor; lia).
  assert (Hvalid : bit_stream_valid bs).
  { unfold bit_stream_valid; simpl.
    split; [lia|split; [lia|split; [lia|split; [lia|]]]].
    repeat constructor; unfold is_byte; lia. }
  assert (Hcodes : codes_at fixed_literal_code_sizes bs 0 ([97%nat] ++ [256%nat])).
  { cbn [app codes_at].
    split; [vm_compute; discriminate|]. split; [vm_compute; reflexivity|].
    split; [vm_compute; discriminate|]. split; [vm_compute; reflexivity|exact I]. }
  assert (Hsize : codes_size fixed_literal_code_sizes ([97%nat] ++ [256%nat])
                  <= bits_remaining bs) by (vm_compute; discriminate).
  destruct (deflate_decode_huffman_literals fixed_literal_code_sizes literals_table
              distances_table [97%nat] [0; 0; 0; 0] 4 0 bs Hwf Hlen Hliterals Hbytes Hvalid
              Hcodes Hsize)
    as (bs' & Hrun & _ & Hrem & _);
    [lia|simpl; lia|simpl; lia|unfold SSIZE_MAX; lia|].
  exists literals_table, distances_table, bs'.
  split; [reflexivity|]. split; [exact Hvalid|]. split; [exact Hcodes|].
  split; [exact Hrun|]. rewrite Hrem. vm_compute. reflexivity.
Defined.

(** ** A zlib stream of one fixed Huffman block of literals *)

Lemma fixed_tables_ok :
  exists literals_table distances_table,
    deflate_initialize_fixed_huffman_tables = Ok (literals_table, distances_table).
Proof.
  destruct deflate_initialize_fixed_huffman_tables as [[literals_table distances_table]| | |]
    eqn:Htables.
  2-4: exfalso; vm_compute in Htables; discriminate.
  eauto.
Qed.

Lemma window_size_accepted cinfo :
  0 <= cinfo <= 7 -> (32768 <? uint32 (Z.shiftl 1 (uint8 (cinfo + 8)))) = false.
Proof.
  intros H.
  assert (Hcases : cinfo = 0 \/ cinfo = 1 \/ cinfo = 2 \/ cinfo = 3 \/ cinfo = 4 \/
                   cinfo = 5 \/ cinfo = 6 \/ cinfo = 7) by lia.
  destruct Hcases as [->|[->|[->|[->|[->|[->|[->| ->]]]]]]]; reflexivity.
Qed.

Lemma three_bits_value v :
  0 <= v < 2 ^ 3 -> Z.testbit v 0 = true -> Z.testbit v 1 = true ->
  Z.testbit v 2 = false -> v = 3.
Proof.
  intros H H0 H1 H2.
  assert (Hcases : v = 0 \/ v = 1 \/ v = 2 \/ v = 3 \/ v = 4 \/ v = 5 \/ v = 6 \/ v = 7)
    by lia.
  destruct Hcases as [->|[->|[->|[->|[->|[->|[->| ->]]]]]]];
    simpl in H0, H1, H2; congruence.
Qed.

(** The payload of such a stream: the block is decoded and the trailer is
    not looked at, as fewer than 4 bytes of the size that the header hands
    on are left. *)
Lemma decompress_payload_fixed_literals (compressed_data : list Z) (size : Z)
    (literals : list nat) (uncompressed_data : list Z) (uncompressed_data_size : Z) :
  let bs := {| byte_stream := compressed_data; byte_stream_size := size - 2;
               byte_stream_offset := 2; bit_buffer := 0; bit_buffer_size := 0 |} in
  let block_size := 3 + codes_size fixed_literal_code_sizes (literals ++ [256%nat]) in
  Forall is_byte compressed_data ->
  size <= Z.of_nat (length compressed_data) ->
  stream_bit bs 0 = true -> stream_bit bs 1 = true -> stream_bit bs 2 = false ->
  codes_at fixed_literal_code_sizes bs 3 (literals ++ [256%nat]) ->
  Forall (fun literal => (literal < 256)%nat) literals ->
  block_size <= 8 * (size - 4) < block_size + 32 ->
  Z.of_nat (length literals) <= uncompressed_data_size ->
  uncompressed_data_size <= Z.of_nat (length uncompressed_data) ->
  uncompressed_data_size <= SSIZE_MAX ->
  decompress_payload compressed_data (size - 2) 2 uncompressed_data uncompressed_data_size =
  Ok (map Z.of_nat literals ++ drop (length literals) uncompressed_data,
      Z.of_nat (length literals)).
Proof.
  intros bs block_size Hbytes Hsize Hb0 Hb1 Hb2 Hcodes Hliterals Hblock Hfit Hcap Hmax.
  assert (Hwf : code_sizes_wf fixed_literal_code_sizes) by apply fixed_code_size_wf.
  assert (Hlen : (256 < length fixed_literal_code_sizes <= 288)%nat)
    by (unfold fixed_literal_code_sizes; rewrite length_map, length_seq; lia).
  pose proof (codes_size_length _ _ _ _ Hwf Hcodes) as Hcount.
  rewrite length_app in Hcount. simpl length in Hcount.
  assert (Hvalid : bit_stream_valid bs).
  { unfold bit_stream_valid, bs; simpl.
    split; [lia|]. split; [lia|]. split; [lia|]. split; [lia|exact Hbytes]. }
  assert (Hrem : bits_remaining bs = 8 * (size - 4))
    by (unfold bits_remaining, bs; simpl; lia).
  unfold decompress_payload. fold bs.
  destruct (Z.leb_spec (size - 2) 2) as [|_]; [lia|].
  destruct fixed_tables_ok as (literals_table & distances_table & Htables).
  rewrite Htables. cbn [result_bind].
  destruct (fixed_tables_table_of _ _ Htables) as [Hliterals_table _].
  rewrite Hrem.
  destruct (Z.to_nat (8 * (size - 4))) as [|fuel] eqn:Hfuel; [lia|].
  cbn [decompress_blocks].
  replace (byte_stream_offset bs <? byte_stream_size bs) with true
    by (symmetry; apply Z.ltb_lt; simpl; lia).
  destruct (get_value_reads bs 3 Hvalid ltac:(lia) ltac:(intros _; left; lia) ltac:(lia))
    as (v & bs1 & Hrun1 & Hv & Hvbits & Hvalid1 & _ & Hsize1 & Hrem1 & Hbits1).
  assert (v = 3) as ->.
  { apply three_bits_value; [exact Hv| | |]; rewrite Hvbits by lia; assumption. }
  unfold bind at 1. rewrite Hrun1. cbn [result_bind fst snd].
  change (uint8 (Z.land 3 1)) with 1. change (uint8 (Z.shiftr 3 1)) with 1.
  change (1 =? 0) with false. change (1 =? 1) with true. cbv iota.
  assert (Hcodes1 : codes_at fixed_literal_code_sizes bs1 0 (literals ++ [256%nat])).
  { apply (codes_at_shift _ bs bs1 3); [exact Hwf|lia|exact Hbits1|exact Hcodes]. }
  destruct (decode_huffman_literals fixed_literal_code_sizes literals_table distances_table
              literals uncompressed_data uncompressed_data_size 0 bs1 Hwf Hlen
              Hliterals_table Hliterals Hvalid1 Hcodes1)
    as (bs2 & Hrun2 & Hvalid2 & Hsize2 & Hrem2 & _); try lia.
  unfold bind at 1. rewrite Hrun2. cbn [result_bind fst snd negb ret].
  unfold decompress_trailer.
  pose proof Hvalid2 as (Hs2 & _).
  assert (Hleft : byte_stream_size bs2 - byte_stream_offset bs2 < 4).
  { assert (Hrem2' : bits_remaining bs2 < 32) by (subst block_size; lia).
    unfold bits_remaining in Hrem2'. lia. }
  destruct (Z.leb_spec 4 (byte_stream_size bs2 - byte_stream_offset bs2)) as [|_]; [lia|].
  change (Z.to_nat 0) with 0%nat. rewrite take_0, Nat.add_0_l, Z.add_0_l. reflexivity.
Qed.

(** X14. A zlib stream of one final fixed Huffman block of literals
    decompresses to the literals: for an input of bytes with compression
    method 8, a window of at most 32 KiB and no preset dictionary, whose
    bits from byte 2 on are 1 (last block), 1 0 (block type 1), the fixed
    codes of the literals and the code of the end-of-block symbol, and whose
    size is that of the header, the block and the 4 bytes of the trailer,
    deflate_decompress returns the literals at the start of the output and
    their number as the size. The Adler-32 in the trailer plays no part. *)
Theorem deflate_decompress_fixed_literals (compressed_data : list Z)
    (literals : list nat) (uncompressed_data : list Z) (uncompressed_data_size : Z) :
  let size := Z.of_nat (length compressed_data) in
  let bs := {| byte_stream := compressed_data; byte_stream_size := size;
               byte_stream_offset := 2; bit_buffer := 0; bit_buffer_size := 0 |} in
  let block_size := 3 + codes_size fixed_literal_code_sizes (literals ++ [256%nat]) in
  Forall is_byte compressed_data ->
  Z.land (load compressed_data 0) 0x0f = 8 ->
  Z.shiftr (load compressed_data 0) 4 <= 7 ->
  Z.land (load compressed_data 1) 0x20 = 0 ->
  stream_bit bs 0 = true -> stream_bit bs 1 = true -> stream_bit bs 2 = false ->
  codes_at fixed_literal_code_sizes bs 3 (literals ++ [256%nat]) ->
  Forall (fun literal => (literal < 256)%nat) literals ->
  size = 2 + (block_size + 7) / 8 + 4 ->
  size <= SSIZE_MAX ->
  Z.of_nat (length literals) <= uncompressed_data_size ->
  uncompressed_data_size <= Z.of_nat (length uncompressed_data) ->
  uncompressed_data_size <= SSIZE_MAX ->
  deflate_decompress compressed_data size uncompressed_data uncompressed_data_size =
  Ok (map Z.of_nat literals ++ drop (length literals) uncompressed_data,
      Z.of_nat (length literals)).
Proof.
  intros size bs block_size Hbytes Hmethod Hwindow Hfdict Hb0 Hb1 Hb2 Hcodes Hliterals
    Hsize Hmax Hfit Hcap Hcapmax.
  assert (Hwf : code_sizes_wf fixed_literal_code_sizes) by apply fixed_code_size_wf.
  pose proof (codes_size_length _ _ _ _ Hwf Hcodes) as Hcount.
  rewrite length_app in Hcount. simpl length in Hcount.
  assert (Hblock : block_size <= 8 * (size - 4) < block_size + 32).
  { pose proof (Z.div_mod (block_size + 7) 8 ltac:(lia)) as Hdiv.
    pose proof (Z.mod_pos_bound (block_size + 7) 8 ltac:(lia)) as Hmod.
    clearbody size block_size. lia. }
  unfold deflate_decompress, decompress_header.
  destruct (Z.ltb_spec size 2) as [|_]; [lia|].
  destruct (Z.ltb_spec SSIZE_MAX size) as [|_]; [lia|].
  destruct (Z.ltb_spec SSIZE_MAX uncompressed_data_size) as [|_]; [lia|].
  destruct (Z.leb_spec size 0) as [|_]; [lia|].
  rewrite Hfdict, Hmethod. change (negb (0 =? 0)) with false. cbv iota.
  cbn [result_bind]. change (negb (8 =? 8)) with false. cbv iota.
  pose proof (load_is_byte compressed_data 0 Hbytes) as Hbyte0. unfold is_byte in Hbyte0.
  rewrite window_size_accepted
    by (split; [apply Z.shiftr_nonneg; lia|exact Hwindow]).
  cbn [result_bind]. change (0 + 2) with 2.
  apply decompress_payload_fixed_literals; try assumption; try lia.
  apply (codes_at_shift _ bs _ 0); [exact Hwf|lia| |rewrite Z.add_0_r; exact Hcodes].
  intros i Hi. rewrite Z.add_0_r. reflexivity.
Qed.

Lemma deflate_decompress_fixed_literals_witness :
  let compressed_data := [0x78; 0x9C; 0x4B; 0x04; 0x00; 0x00; 0x62; 0x00; 0x62] in
  let bs := {| byte_stream := compressed_data; byte_stream_size := 9;
               byte_stream_offset := 2; bit_buffer := 0; bit_buffer_size := 0 |} in
  Forall is_byte compressed_data /\
  codes_at fixed_literal_code_sizes bs 3 ([97%nat] ++ [256%nat]) /\
  deflate_decompress compressed_data 9 [7; 7; 7; 7] 4 = Ok ([97; 7; 7; 7], 1).
Proof.
  intros compressed_data bs.
  assert (Hbytes : Forall is_byte compressed_data)
    by (repeat constructor; unfold is_byte; lia).
  assert (Hcodes : codes_at fixed_literal_code_sizes bs 3 ([97%nat] ++ [256%nat])).
  { cbn [app codes_at].
    split; [vm_compute; discriminate|]. split; [vm_compute; reflexivity|].
    split; [vm_compute; discriminate|]. split; [vm_compute; reflexivity|exact I]. }
  split; [exact Hbytes|]. split; [exact Hcodes|].
  apply (deflate_decompress_fixed_literals compressed_data [97%nat] [7; 7; 7; 7] 4);
    try exact Hbytes; try exact Hcodes; try reflexivity;
    try (repeat constructor; lia); try (vm_compute; discriminate).
Defined.

(** ** Decoding a Huffman compressed block *)

Lemma length_codes_check :
  forallb (fun k =>
     (0 <=? load literal_codes_number_of_extra_bits (Z.of_nat k))
     && (load literal_codes_number_of_extra_bits (Z.of_nat k) <=? 5)
     && (3 <=? load literal_codes_base (Z.of_nat k))
     && (load literal_codes_base (Z.of_nat k)
         + 2 ^ load literal_codes_number_of_extra_bits (Z.of_nat k) <=? 259))
    (seq 0 29) = true.
Proof. vm_compute. reflexivity. Qed.

Lemma length_codes_bounds k :
  0 <= k <= 28 ->
  0 <= load literal_codes_number_of_extra_bits k <= 5 /\
  3 <= load literal_codes_base k /\
  load literal_codes_base k + 2 ^ load literal_codes_number_of_extra_bits k <= 259.
Proof.
  intros Hk. pose proof length_codes_check as Hall.
  rewrite forallb_forall in Hall. specialize (Hall (Z.to_nat k)).
  rewrite Z2Nat.id in Hall by lia.
  assert (Hin : In (Z.to_nat k) (seq 0 29)) by (apply in_seq; lia).
  specialize (Hall Hin).
  repeat (apply andb_prop in Hall; destruct Hall as [Hall ?]).
  repeat match goal with H : (_ <=? _) = true |- _ => apply Z.leb_le in H end.
  auto.
Qed.

Lemma distance_codes_check :
  forallb (fun k =>
     (0 <=? load distance_codes_number_of_extra_bits (Z.of_nat k))
     && (load distance_codes_number_of_extra_bits (Z.of_nat k) <=? 13)
     && (1 <=? load distance_codes_base (Z.of_nat k))
     && (load distance_codes_base (Z.of_nat k)
         + 2 ^ load distance_codes_number_of_extra_bits (Z.of_nat k) <=? 32769))
    (seq 0 30) = true.
Proof. vm_compute. reflexivity. Qed.

Lemma distance_codes_bounds k :
  0 <= k <= 29 ->
  0 <= load distance_codes_number_of_extra_bits k <= 13 /\
  1 <= load distance_codes_base k /\
  load distance_codes_base k + 2 ^ load distance_codes_number_of_extra_bits k <= 32769.
Proof.
  intros Hk. pose proof distance_codes_check as Hall.
  rewrite forallb_forall in Hall. specialize (Hall (Z.to_nat k)).
  rewrite Z2Nat.id in Hall by lia.
  assert (Hin : In (Z.to_nat k) (seq 0 30)) by (apply in_seq; lia).
  specialize (Hall Hin).
  repeat (apply andb_prop in Hall; destruct Hall as [Hall ?]).
  repeat match goal with H : (_ <=? _) = true |- _ => apply Z.leb_le in H end.
  auto.
Qed.

Lemma code_at_lt (code_sizes : list Z) bs pos (symbol : nat) :
  code_at code_sizes bs pos symbol -> (symbol < length code_sizes)%nat.
Proof.
  intros [Hnz _]. destruct (Nat.lt_ge_cases symbol (length code_sizes)) as [H|H];
    [exact H|].
  exfalso. apply Hnz. unfold load. rewrite Nat2Z.id, lookup_ge_None_2 by exact H.
  reflexivity.
Qed.

Lemma code_at_shift (code_sizes : list Z) bs bs' d pos (symbol : nat) :
  code_sizes_wf code_sizes -> 0 <= pos ->
  (forall i, 0 <= i -> stream_bit bs' i = stream_bit bs (i + d)) ->
  code_at code_sizes bs (pos + d) symbol -> code_at code_sizes bs' pos symbol.
Proof.
  intros Hwf Hpos Hshift [Hnz Hcode]. split; [exact Hnz|].
  rewrite <- Hcode. apply code_of_bits_ext. intros i Hi.
  rewrite Hshift by lia. f_equal. lia.
Qed.

Lemma value_at_shift bs bs' d pos n v :
  0 <= pos ->
  (forall i, 0 <= i -> stream_bit bs' i = stream_bit bs (i + d)) ->
  value_at bs (pos + d) n v -> value_at bs' pos n v.
Proof.
  intros Hpos Hshift [Hv Hbits]. split; [exact Hv|].
  intros i Hi. rewrite Hbits by exact Hi. rewrite Hshift by lia. f_equal. lia.
Qed.

Lemma block_symbol_size_nonneg (literal_sizes distance_sizes : list Z) symbol :
  code_sizes_wf literal_sizes -> code_sizes_wf distance_sizes ->
  match symbol with
  | Literal _ => True
  | Match length_symbol _ distance_symbol _ =>
      (257 <= length_symbol <= 285)%nat /\ (distance_symbol < 30)%nat
  end ->
  0 <= block_symbol_size literal_sizes distance_sizes symbol.
Proof.
  intros Hl Hd. destruct symbol as [literal|ls le ds de]; simpl.
  - intros _. pose proof (load_code_size literal_sizes (Z.of_nat literal) Hl). lia.
  - intros [Hls Hds].
    pose proof (load_code_size literal_sizes (Z.of_nat ls) Hl).
    pose proof (load_code_size distance_sizes (Z.of_nat ds) Hd).
    pose proof (length_codes_bounds (Z.of_nat ls - 257) ltac:(lia)).
    pose proof (distance_codes_bounds (Z.of_nat ds) ltac:(lia)). lia.
Qed.

Lemma block_at_shift (literal_sizes distance_sizes : list Z) bs bs' d pos symbols :
  code_sizes_wf literal_sizes -> code_sizes_wf distance_sizes ->
  (length distance_sizes <= 30)%nat -> 0 <= pos ->
  (forall i, 0 <= i -> stream_bit bs' i = stream_bit bs (i + d)) ->
  block_at literal_sizes distance_sizes bs (pos + d) symbols ->
  block_at literal_sizes distance_sizes bs' pos symbols.
Proof.
  intros Hl Hd Hdlen Hpos Hshift. revert pos Hpos.
  induction symbols as [|symbol symbols IH]; intros pos Hpos; cbn [block_at].
  - apply code_at_shift; assumption.
  - destruct symbol as [literal|ls le ds de].
    + intros (Hlit & Hcode & Hrest).
      pose proof (load_code_size literal_sizes (Z.of_nat literal) Hl).
      split; [exact Hlit|]. split; [apply (code_at_shift _ bs _ d); assumption|].
      apply IH; [lia|].
      replace (pos + load literal_sizes (Z.of_nat literal) + d)
        with (pos + d + load literal_sizes (Z.of_nat literal)) by lia.
      exact Hrest.
    + cbv zeta. intros (Hls & Hc1 & Hv1 & Hc2 & Hv2 & Hrest).
      pose proof (code_at_lt _ _ _ _ Hc2) as Hds.
      pose proof (load_code_size literal_sizes (Z.of_nat ls) Hl).
      pose proof (load_code_size distance_sizes (Z.of_nat ds) Hd).
      pose proof (length_codes_bounds (Z.of_nat ls - 257) ltac:(lia)).
      pose proof (distance_codes_bounds (Z.of_nat ds) ltac:(lia)).
      split; [exact Hls|].
      split; [apply (code_at_shift _ bs _ d); assumption|].
      split.
      { apply (value_at_shift bs _ d); [lia|exact Hshift|].
        match goal with |- value_at _ ?p _ _ =>
          match type of Hv1 with value_at _ ?q _ _ => replace p with q by lia end end.
        exact Hv1. }
      split.
      { apply (code_at_shift _ bs _ d); [exact Hd|lia|exact Hshift|].
        match goal with |- code_at _ _ ?p _ =>
          match type of Hc2 with code_at _ _ ?q _ => replace p with q by lia end end.
        exact Hc2. }
      split.
      { apply (value_at_shift bs _ d); [lia|exact Hshift|].
        match goal with |- value_at _ ?p _ _ =>
          match type of Hv2 with value_at _ ?q _ _ => replace p with q by lia end end.
        exact Hv2. }
      apply IH; [lia|].
      match goal with |- block_at _ _ _ ?p _ =>
        match type of Hrest with block_at _ _ _ ?q _ => replace p with q by lia end end.
      exact Hrest.
Qed.

Lemma block_size_length (literal_sizes distance_sizes : list Z) bs pos symbols :
  code_sizes_wf literal_sizes -> code_sizes_wf distance_sizes ->
  (length distance_sizes <= 30)%nat ->
  block_at literal_sizes distance_sizes bs pos symbols ->
  Z.of_nat (length symbols) + 1 <= block_size literal_sizes distance_sizes symbols.
Proof.
  intros Hl Hd Hdlen. revert pos.
  induction symbols as [|symbol symbols IH]; intros pos; cbn [block_at block_size length].
  - intros [Hnz _]. pose proof (load_code_size literal_sizes 256 Hl).
    change (Z.of_nat 256) with 256 in Hnz. lia.
  - destruct symbol as [literal|ls le ds de].
    + intros (_ & [Hnz _] & Hrest). specialize (IH _ Hrest). simpl.
      pose proof (load_code_size literal_sizes (Z.of_nat literal) Hl). lia.
    + cbv zeta. intros (Hls & [Hnz _] & _ & Hc2 & _ & Hrest). specialize (IH _ Hrest).
      pose proof (code_at_lt _ _ _ _ Hc2) as Hds.
      simpl.
      pose proof (load_code_size literal_sizes (Z.of_nat ls) Hl).
      pose proof (load_code_size distance_sizes (Z.of_nat ds) Hd).
      pose proof (length_codes_bounds (Z.of_nat ls - 257) ltac:(lia)).
      pose proof (distance_codes_bounds (Z.of_nat ds) ltac:(lia)). lia.
Qed.

(** The reader on a code that is at the head of the stream. *)
Lemma read_code (code_sizes : list Z) table (symbol : nat) bs :
  code_sizes_wf code_sizes -> (length code_sizes <= 288)%nat ->
  table_of code_sizes table ->
  bit_stream_valid bs -> code_at code_sizes bs 0 symbol ->
  load code_sizes (Z.of_nat symbol) <= bits_remaining bs ->
  exists bs',
    deflate_bit_stream_get_huffman_encoded_value table bs = Ok (Z.of_nat symbol, bs') /\
    bit_stream_valid bs' /\
    bits_remaining bs' = bits_remaining bs - load code_sizes (Z.of_nat symbol) /\
    forall i, 0 <= i ->
      stream_bit bs' i = stream_bit bs (i + load code_sizes (Z.of_nat symbol)).
Proof.
  intros Hwf Hlen Htable Hvalid Hat Hrem.
  pose proof (code_at_lt _ _ _ _ Hat) as Hsymbol. destruct Hat as [Hnz Hcode].
  destruct (get_huffman_symbol code_sizes table symbol bs Hwf Hlen Htable Hsymbol Hnz
              Hvalid Hrem) as (bs' & Hrun & Hvalid' & _ & _ & Hrem' & Hbits).
  { rewrite <- Hcode. apply code_of_bits_ext. intros i Hi. reflexivity. }
  exists bs'. auto.
Qed.

(** The extra bits of a symbol: 0 to 13 bits. *)
Lemma read_value bs n v :
  bit_stream_valid bs -> 0 <= n <= 25 -> value_at bs 0 n v -> n <= bits_remaining bs ->
  exists bs',
    deflate_bit_stream_get_value n bs = Ok (v, bs') /\
    bit_stream_valid bs' /\
    bits_remaining bs' = bits_remaining bs - n /\
    forall i, 0 <= i -> stream_bit bs' i = stream_bit bs (i + n).
Proof.
  intros Hvalid Hn [Hv Hbits] Hrem.
  destruct (Z.eq_dec n 0) as [->|Hnz].
  - exists bs. unfold deflate_bit_stream_get_value. simpl.
    assert (v = 0) as -> by (change (2 ^ 0) with 1 in Hv; lia).
    split; [reflexivity|]. split; [exact Hvalid|]. split; [lia|].
    intros i Hi. rewrite Z.add_0_r. reflexivity.
  - destruct (get_value_reads bs n Hvalid ltac:(lia) ltac:(intros _; left; lia) Hrem)
      as (v' & bs' & Hrun & Hv' & Hbits' & Hvalid' & _ & _ & Hrem' & Hshift).
    assert (v' = v) as ->.
    { apply Z.bits_inj'. intros i Hi. destruct (Z.ltb_spec i n).
      - rewrite Hbits', Hbits by lia. reflexivity.
      - rewrite (testbit_above v' n i), (testbit_above v n i) by lia. reflexivity. }
    exists bs'. auto.
Qed.

(** One round of the loop of deflate_decode_huffman on a match. *)
Lemma decode_huffman_loop_match (fuel : nat) literals_table distances_table out cap off
    bs length_symbol length_extra distance_symbol distance_extra bs1 bs2 bs3 bs4 :
  257 <= length_symbol <= 285 -> 0 <= distance_symbol < 30 ->
  deflate_bit_stream_get_huffman_encoded_value literals_table bs
    = Ok (length_symbol, bs1) ->
  deflate_bit_stream_get_value
    (uint8 (load literal_codes_number_of_extra_bits (length_symbol - 257))) bs1
    = Ok (length_extra, bs2) ->
  deflate_bit_stream_get_huffman_encoded_value distances_table bs2
    = Ok (distance_symbol, bs3) ->
  deflate_bit_stream_get_value
    (uint8 (load distance_codes_number_of_extra_bits distance_symbol)) bs3
    = Ok (distance_extra, bs4) ->
  decode_huffman_loop (S fuel) literals_table distances_table out cap off bs =
  result_bind
    (decode_match
       (uint16 (load literal_codes_base (length_symbol - 257) + uint16 length_extra))
       (uint16 (load distance_codes_base distance_symbol + uint16 distance_extra))
       out cap off)
    (fun written =>
       decode_huffman_loop fuel literals_table distances_table
         (fst written) cap (snd written) bs4).
Proof.
  intros Hls Hds H1 H2 H3 H4. cbn [decode_huffman_loop].
  unfold bind at 1. rewrite H1. cbn [result_bind fst snd].
  destruct (Z.ltb_spec length_symbol 256) as [|_]; [lia|].
  destruct (Z.ltb_spec 256 length_symbol) as [_|]; [|lia].
  destruct (Z.ltb_spec length_symbol 286) as [_|]; [|lia].
  cbn [andb].
  unfold bind at 1. rewrite H2. cbn [result_bind fst snd].
  unfold bind at 1. rewrite H3. cbn [result_bind fst snd].
  destruct (Z.ltb_spec distance_symbol 0) as [|_]; [lia|].
  destruct (Z.leb_spec 30 distance_symbol) as [|_]; [lia|].
  cbn [orb].
  unfold bind at 1. rewrite H4. cbn [result_bind fst snd].
  unfold bind at 1, lift.
  destruct (decode_match _ _ out cap off) as [[out' off']| | |]; cbn [result_bind fst snd];
    try reflexivity.
  destruct (Z.eqb_spec distance_symbol 256) as [|_]; [lia|]. reflexivity.
Qed.

Lemma decode_huffman_loop_block (literal_sizes distance_sizes : list Z)
    literals_table distances_table :
  code_sizes_wf literal_sizes -> (256 < length literal_sizes <= 288)%nat ->
  table_of literal_sizes literals_table ->
  code_sizes_wf distance_sizes -> (length distance_sizes <= 30)%nat ->
  table_of distance_sizes distances_table ->
  forall symbols (fuel : nat) out cap off bs,
  (length symbols < fuel)%nat ->
  bit_stream_valid bs ->
  block_at literal_sizes distance_sizes bs 0 symbols ->
  block_size literal_sizes distance_sizes symbols <= bits_remaining bs ->
  match expand cap symbols out off with
  | Ok written =>
      exists bs',
        decode_huffman_loop fuel literals_table distances_table out cap off bs
          = Ok (written, bs') /\
        bit_stream_valid bs' /\
        bits_remaining bs' =
          bits_remaining bs - block_size literal_sizes distance_sizes symbols /\
        forall i, 0 <= i ->
          stream_bit bs' i
          = stream_bit bs (i + block_size literal_sizes distance_sizes symbols)
  | Error e =>
      decode_huffman_loop fuel literals_table distances_table out cap off bs = Error e
  | _ => True
  end.
Proof.
  intros Hl Hllen Hlt Hd Hdlen Hdt.
  induction symbols as [|symbol symbols IH];
    intros fuel out cap off bs Hfuel Hvalid Hblock Hsize;
    (destruct fuel as [|fuel]; [simpl in Hfuel; lia|]).
  - cbn [block_at block_size expand] in *.
    destruct (read_code literal_sizes literals_table 256 bs Hl ltac:(lia) Hlt
                Hvalid Hblock Hsize) as (bs' & Hrun & Hvalid' & Hrem & Hbits).
    change (Z.of_nat 256) with 256 in *.
    exists bs'. cbn [decode_huffman_loop]. unfold bind at 1. rewrite Hrun.
    cbn [result_bind fst snd]. change (256 <? 256) with false. cbn [andb negb].
    change (256 =? 256) with true. cbn [negb]. unfold ret. auto.
  - simpl in Hfuel.
    pose proof (block_size_length _ _ bs 0 (symbol :: symbols) Hl Hd Hdlen Hblock) as Hcount.
    destruct symbol as [literal|ls le ds de]; cbn [block_at block_size expand] in *.
    + destruct Hblock as (Hlit & Hcode & Hrest).
      pose proof (load_code_size literal_sizes (Z.of_nat literal) Hl) as Hlen1.
      pose proof (block_size_length _ _ bs _ symbols Hl Hd Hdlen Hrest) as Hcount'.
      cbn [block_symbol_size] in Hsize.
      destruct (read_code literal_sizes literals_table literal bs Hl ltac:(lia) Hlt
                  Hvalid Hcode ltac:(lia))
        as (bs1 & Hrun & Hvalid1 & Hrem1 & Hbits1).
      assert (Hrest1 : block_at literal_sizes distance_sizes bs1 0 symbols).
      { apply (block_at_shift _ _ bs bs1 (load literal_sizes (Z.of_nat literal)));
          try assumption; lia. }
      assert (Hstep : decode_huffman_loop (S fuel) literals_table distances_table
                        out cap off bs =
                      if cap <=? off then Error OutputOverflow
                      else decode_huffman_loop fuel literals_table distances_table
                             (store out off (Z.of_nat literal)) cap (off + 1) bs1).
      { cbn [decode_huffman_loop]. unfold bind at 1. rewrite Hrun.
        cbn [result_bind fst snd].
        destruct (Z.ltb_spec (Z.of_nat literal) 256) as [_|]; [|lia].
        rewrite uint8_small by lia. destruct (cap <=? off); reflexivity. }
      rewrite Hstep. destruct (cap <=? off); [reflexivity|].
      specialize (IH fuel (store out off (Z.of_nat literal)) cap (off + 1) bs1
                    ltac:(lia) Hvalid1 Hrest1 ltac:(lia)).
      destruct (expand cap symbols _ _) as [written|e| |]; [|exact IH|exact I|exact I].
      destruct IH as (bs' & Hloop & Hvalid' & Hrem' & Hbits').
      exists bs'. split; [exact Hloop|]. split; [exact Hvalid'|].
      cbn [block_symbol_size]. split; [lia|].
      intros i Hi. rewrite Hbits' by exact Hi. rewrite Hbits1 by lia. f_equal. lia.
    + cbv zeta in Hblock. destruct Hblock as (Hls & Hc1 & Hv1 & Hc2 & Hv2 & Hrest).
      pose proof (code_at_lt _ _ _ _ Hc2) as Hds.
      pose proof (load_code_size literal_sizes (Z.of_nat ls) Hl) as Hlen1.
      pose proof (load_code_size distance_sizes (Z.of_nat ds) Hd) as Hlen2.
      pose proof (length_codes_bounds (Z.of_nat ls - 257) ltac:(lia)) as (He1 & Hb1 & Hr1).
      pose proof (distance_codes_bounds (Z.of_nat ds) ltac:(lia)) as (He2 & Hb2 & Hr2).
      pose proof (block_size_length _ _ bs _ symbols Hl Hd Hdlen Hrest) as Hcount'.
      cbn [block_symbol_size] in Hsize.
      set (a := load literal_sizes (Z.of_nat ls)) in *.
      set (eb := load literal_codes_number_of_extra_bits (Z.of_nat ls - 257)) in *.
      set (b := load distance_sizes (Z.of_nat ds)) in *.
      set (db := load distance_codes_number_of_extra_bits (Z.of_nat ds)) in *.
      destruct (read_code literal_sizes literals_table ls bs Hl ltac:(lia) Hlt
                  Hvalid Hc1 ltac:(fold a; lia))
        as (bs1 & Hrun1 & Hvalid1 & Hrem1 & Hbits1). fold a in Hrem1, Hbits1.
      assert (Hv1' : value_at bs1 0 eb le)
        by (apply (value_at_shift bs bs1 a); [lia|exact Hbits1|exact Hv1]).
      destruct (read_value bs1 eb le Hvalid1 ltac:(lia) Hv1' ltac:(lia))
        as (bs2 & Hrun2 & Hvalid2 & Hrem2 & Hbits2).
      assert (Hshift2 : forall i, 0 <= i -> stream_bit bs2 i = stream_bit bs (i + (a + eb))).
      { intros i Hi. rewrite Hbits2 by lia. rewrite Hbits1 by lia. f_equal. lia. }
      assert (Hc2' : code_at distance_sizes bs2 0 ds).
      { apply (code_at_shift _ bs bs2 (a + eb)); [exact Hd|lia|exact Hshift2|].
        replace (0 + (a + eb)) with (0 + a + eb) by lia. exact Hc2. }
      destruct (read_code distance_sizes distances_table ds bs2 Hd ltac:(lia) Hdt
                  Hvalid2 Hc2' ltac:(fold b; lia))
        as (bs3 & Hrun3 & Hvalid3 & Hrem3 & Hbits3). fold b in Hrem3, Hbits3.
      assert (Hshift3 : forall i, 0 <= i ->
                stream_bit bs3 i = stream_bit bs (i + (a + eb + b))).
      { intros i Hi. rewrite Hbits3 by lia. rewrite Hshift2 by lia. f_equal. lia. }
      assert (Hv2' : value_at bs3 0 db de).
      { apply (value_at_shift bs bs3 (a + eb + b)); [lia|exact Hshift3|].
        replace (0 + (a + eb + b)) with (0 + a + eb + b) by lia. exact Hv2. }
      destruct (read_value bs3 db de Hvalid3 ltac:(lia) Hv2' ltac:(lia))
        as (bs4 & Hrun4 & Hvalid4 & Hrem4 & Hbits4).
      assert (Hshift4 : forall i, 0 <= i ->
                stream_bit bs4 i = stream_bit bs (i + (a + eb + b + db))).
      { intros i Hi. rewrite Hbits4 by lia. rewrite Hshift3 by lia. f_equal. lia. }
      assert (Hrest4 : block_at literal_sizes distance_sizes bs4 0 symbols).
      { apply (block_at_shift _ _ bs bs4 (a + eb + b + db)); try assumption; lia. }
      destruct Hv1 as [Hle _]. destruct Hv2 as [Hde _].
      assert (Hpow1 : 2 ^ eb <= 2 ^ 5) by (apply Z.pow_le_mono_r; lia).
      assert (Hpow2 : 2 ^ db <= 2 ^ 13) by (apply Z.pow_le_mono_r; lia).
      assert (Hrun2' : deflate_bit_stream_get_value (uint8 eb) bs1 = Ok (le, bs2))
        by (rewrite uint8_small by lia; exact Hrun2).
      assert (Hrun4' : deflate_bit_stream_get_value (uint8 db) bs3 = Ok (de, bs4))
        by (rewrite uint8_small by lia; exact Hrun4).
      rewrite (decode_huffman_loop_match fuel literals_table distances_table out cap off bs
                 (Z.of_nat ls) le (Z.of_nat ds) de bs1 bs2 bs3 bs4
                 ltac:(lia) ltac:(lia) Hrun1 Hrun2' Hrun3 Hrun4').
      rewrite (uint16_small le) by lia. rewrite (uint16_small de) by lia.
      rewrite !uint16_small by lia.
      destruct (decode_match _ _ out cap off) as [[out' off']|e| |];
        cbn [result_bind fst snd]; [|reflexivity|exact I|exact I].
      specialize (IH fuel out' cap off' bs4 ltac:(lia) Hvalid4 Hrest4 ltac:(lia)).
      destruct (expand cap symbols out' off') as [written|e| |]; [|exact IH|exact I|exact I].
      destruct IH as (bs' & Hloop & Hvalid' & Hrem' & Hbits').
      exists bs'. split; [exact Hloop|]. split; [exact Hvalid'|].
      cbn [block_symbol_size]. fold a eb b db. split; [lia|].
      intros i Hi. rewrite Hbits' by exact Hi. rewrite Hshift4 by lia. f_equal. lia.
Qed.

Lemma expand_returns cap symbols out off :
  returns (expand cap symbols out off) (fun _ => True).
Proof.
  revert out off. induction symbols as [|[literal|ls le ds de] symbols IH];
    intros out off; cbn [expand].
  - exact I.
  - destruct (cap <=? off); [exact I|apply IH].
  - eapply returns_bind; [apply decode_match_returns|]. intros written _. apply IH.
Qed.

(** X15. deflate_decode_huffman decodes a block to what its symbols stand
    for: with tables made of code sizes 0..15 (at most 288 literal/length
    and 30 distance symbols), on a valid stream that holds the canonical
    codes of literals and of length and distance symbols, each length and
    distance code followed by its extra bits, and then the code of the
    end-of-block symbol, the call stores the literals and copies the
    matches with length = base + extra bits and distance = base + extra
    bits in the order of the stream; it returns what this gives, with the
    stream after the end-of-block code, or fails with the error of the
    first literal or match that does not fit. *)
Theorem deflate_decode_huffman_block (literal_sizes distance_sizes : list Z)
    (literals_table distances_table : deflate_huffman_table)
    (symbols : list block_symbol)
    (uncompressed_data : list Z) (uncompressed_data_size uncompressed_data_offset : Z)
    (bs : deflate_bit_stream) :
  code_sizes_wf literal_sizes -> (256 < length literal_sizes <= 288)%nat ->
  table_of literal_sizes literals_table ->
  code_sizes_wf distance_sizes -> (length distance_sizes <= 30)%nat ->
  table_of distance_sizes distances_table ->
  uncompressed_data_size <= SSIZE_MAX ->
  bit_stream_valid bs ->
  block_at literal_sizes distance_sizes bs 0 symbols ->
  block_size literal_sizes distance_sizes symbols <= bits_remaining bs ->
  match expand uncompressed_data_size symbols uncompressed_data uncompressed_data_offset with
  | Ok written =>
      exists bs',
        deflate_decode_huffman literals_table distances_table uncompressed_data
          uncompressed_data_size uncompressed_data_offset bs = Ok (written, bs') /\
        bit_stream_valid bs' /\
        bits_remaining bs' =
          bits_remaining bs - block_size literal_sizes distance_sizes symbols /\
        forall i, 0 <= i ->
          stream_bit bs' i
          = stream_bit bs (i + block_size literal_sizes distance_sizes symbols)
  | Error e =>
      deflate_decode_huffman literals_table distances_table uncompressed_data
        uncompressed_data_size uncompressed_data_offset bs = Error e
  | _ => False
  end.
Proof.
  intros Hl Hllen Hlt Hd Hdlen Hdt Hmax Hvalid Hblock Hsize.
  pose proof (block_size_length _ _ bs 0 symbols Hl Hd Hdlen Hblock) as Hcount.
  pose proof (decode_huffman_loop_block literal_sizes distance_sizes literals_table
                distances_table Hl Hllen Hlt Hd Hdlen Hdt symbols
                (S (Z.to_nat (bits_remaining bs))) uncompressed_data
                uncompressed_data_size uncompressed_data_offset bs
                ltac:(lia) Hvalid Hblock Hsize) as Hloop.
  pose proof (expand_returns uncompressed_data_size symbols uncompressed_data
                uncompressed_data_offset) as Hreturns.
  unfold deflate_decode_huffman.
  destruct (Z.ltb_spec SSIZE_MAX uncompressed_data_size) as [|_]; [lia|].
  destruct (expand _ _ _ _); [exact Hloop|exact Hloop|exact Hreturns|exact Hreturns].
Qed.

Lemma deflate_decode_huffman_block_witness :
  let bs := {| byte_stream := [0x4b; 0x4c; 0x4a; 0x4e; 0x49; 0x4d; 0x4b; 0xc4; 0x41;
                               0x02; 0x00];
               byte_stream_size := 11; byte_stream_offset := 1;
               bit_buffer := 9; bit_buffer_size := 5 |} in
  let symbols := [Literal 97; Literal 98; Literal 99; Literal 100; Literal 101;
                  Literal 102; Literal 97; Match 270 0 4 1] in
  exists literals_table distances_table bs',
    deflate_initialize_fixed_huffman_tables = Ok (literals_table, distances_table) /\
    bit_stream_valid bs /\
    block_at fixed_literal_code_sizes (replicate 30 5) bs 0 symbols /\
    deflate_decode_huffman literals_table distances_table (replicate 32 0) 32 0 bs
      = Ok ((concat (replicate 5 [97; 98; 99; 100; 101; 102]) ++ [0; 0], 30), bs').
Proof.
  intros bs symbols.
  destruct deflate_initialize_fixed_huffman_tables as [[literals_table distances_table]| | |]
    eqn:Htables.
  2-4: exfalso; vm_compute in Htables; discriminate.
  destruct (fixed_tables_table_of _ _ Htables) as [Hliterals Hdistances].
  assert (Hl : code_sizes_wf fixed_literal_code_sizes) by apply fixed_code_size_wf.
  assert (Hllen : (256 < length fixed_literal_code_sizes <= 288)%nat)
    by (unfold fixed_literal_code_sizes; rewrite length_map, length_seq; lia).
  assert (Hd : code_sizes_wf (replicate 30 5)) by (apply Forall_replicate; lia).
  assert (Hdlen : (length (replicate 30 5%Z) <= 30)%nat)
    by (rewrite length_replicate; lia).
  assert (Hvalid : bit_stream_valid bs).
  { unfold bit_stream_valid; simpl.
    split; [lia|split; [lia|split; [lia|split; [lia|]]]].
    repeat constructor; unfold is_byte; lia. }
  assert (Hcode : forall pos symbol code_sizes,
            (load code_sizes (Z.of_nat symbol) =? 0) = false ->
            (code_of_bits (fun i => stream_bit bs (pos + i))
              (Z.to_nat (load code_sizes (Z.of_nat symbol)))
            =? canonical_code code_sizes symbol) = true ->
            code_at code_sizes bs pos symbol).
  { intros pos symbol code_sizes H1 H2. split; [apply Z.eqb_neq, H1|apply Z.eqb_eq, H2]. }
  assert (Hblock : block_at fixed_literal_code_sizes (replicate 30 5) bs 0 symbols).
  { cbn [symbols block_at]. cbv zeta.
    repeat match goal with
           | |- _ /\ _ => split
           | |- (_ < _)%nat => lia
           | |- (_ <= _)%nat => lia
           | |- code_at _ _ _ _ => apply Hcode; vm_compute; reflexivity
           end.
    - split; [vm_compute; split; [discriminate|reflexivity]|].
      intros i Hi. change (load literal_codes_number_of_extra_bits (Z.of_nat 270 - 257))
        with 2 in Hi.
      assert (Hcases : i = 0 \/ i = 1) by lia.
      destruct Hcases as [-> | ->]; vm_compute; reflexivity.
    - split; [vm_compute; split; [discriminate|reflexivity]|].
      intros i Hi. change (load distance_codes_number_of_extra_bits (Z.of_nat 4))
        with 1 in Hi.
      assert (i = 0) as -> by lia. vm_compute. reflexivity. }
  assert (Hsize : block_size fixed_literal_code_sizes (replicate 30 5) symbols
                  <= bits_remaining bs) by (vm_compute; discriminate).
  pose proof (deflate_decode_huffman_block fixed_literal_code_sizes (replicate 30 5)
                literals_table distances_table symbols (replicate 32 0) 32 0 bs
                Hl Hllen Hliterals Hd Hdlen Hdistances ltac:(unfold SSIZE_MAX; lia)
                Hvalid Hblock Hsize) as Hrun.
  assert (Hexpand : expand 32 symbols (replicate 32 0) 0
                    = Ok (concat (replicate 5 [97; 98; 99; 100; 101; 102]) ++ [0; 0], 30))
    by (vm_compute; reflexivity).
  rewrite Hexpand in Hrun. destruct Hrun as (bs' & Hrun & _).
  exists literals_table, distances_table, bs'.
  split; [reflexivity|]. split; [exact Hvalid|]. split; [exact Hblock|exact Hrun].
Defined.

(** ** The lengths and distances of the matches *)

(** Consecutive symbols stand for consecutive ranges. *)
Lemma length_codes_tiling_check :
  forallb (fun k =>
     load literal_codes_base (Z.of_nat k + 1)
     =? load literal_codes_base (Z.of_nat k)
        + 2 ^ load literal_codes_number_of_extra_bits (Z.of_nat k))
    (seq 0 27) = true.
Proof. vm_compute. reflexivity. Qed.

Lemma distance_codes_tiling_check :
  forallb (fun k =>
     load distance_codes_base (Z.of_nat k + 1)
     =? load distance_codes_base (Z.of_nat k)
        + 2 ^ load distance_codes_number_of_extra_bits (Z.of_nat k))
    (seq 0 29) = true.
Proof. vm_compute. reflexivity. Qed.

Lemma tiling_of_check (base extra_bits : list Z) (n : nat) :
  forallb (fun k =>
     load base (Z.of_nat k + 1) =? load base (Z.of_nat k)
                                   + 2 ^ load extra_bits (Z.of_nat k))
    (seq 0 n) = true ->
  forall k, 0 <= k < Z.of_nat n ->
    load base (k + 1) = load base k + 2 ^ load extra_bits k.
Proof.
  intros Hall k Hk. rewrite forallb_forall in Hall. specialize (Hall (Z.to_nat k)).
  rewrite Z2Nat.id in Hall by lia. apply Z.eqb_eq, Hall, in_seq. lia.
Qed.

(** Ranges that follow one another cover what lies between the first base
    and the last. *)
Lemma tiling_covers (base extra_bits : list Z) (n : nat) :
  (forall k, 0 <= k < Z.of_nat n ->
     load base (k + 1) = load base k + 2 ^ load extra_bits k) ->
  forall v, load base 0 <= v < load base (Z.of_nat n) ->
  exists k, 0 <= k < Z.of_nat n /\ load base k <= v < load base k + 2 ^ load extra_bits k.
Proof.
  induction n as [|n IH]; intros Htiling v Hv; [change (Z.of_nat 0) with 0 in Hv; lia|].
  destruct (Z.lt_ge_cases v (load base (Z.of_nat n))) as [Hlt|Hge].
  - destruct (IH ltac:(intros k Hk; apply Htiling; lia) v ltac:(lia)) as (k & Hk & Hin).
    exists k. split; [lia|exact Hin].
  - exists (Z.of_nat n). split; [lia|].
    rewrite <- Htiling by lia. replace (Z.of_nat n + 1) with (Z.of_nat (S n)) by lia. lia.
Qed.

(** X16. The lengths and the distances of the matches: a length symbol
    257 + k (k = 0..28) with its extra bits stands for a length of 3..258
    and a distance symbol k (k = 0..29) with its extra bits for a distance
    of 1..32768, and every such length and every such distance is that of
    some symbol and extra bits. *)
Theorem match_lengths_and_distances :
  (forall k extra_bits,
     0 <= k <= 28 -> 0 <= extra_bits < 2 ^ load literal_codes_number_of_extra_bits k ->
     3 <= load literal_codes_base k + extra_bits <= 258) /\
  (forall compression_size,
     3 <= compression_size <= 258 ->
     exists k extra_bits,
       0 <= k <= 28 /\ 0 <= extra_bits < 2 ^ load literal_codes_number_of_extra_bits k /\
       load literal_codes_base k + extra_bits = compression_size) /\
  (forall k extra_bits,
     0 <= k <= 29 -> 0 <= extra_bits < 2 ^ load distance_codes_number_of_extra_bits k ->
     1 <= load distance_codes_base k + extra_bits <= 32768) /\
  (forall compression_offset,
     1 <= compression_offset <= 32768 ->
     exists k extra_bits,
       0 <= k <= 29 /\ 0 <= extra_bits < 2 ^ load distance_codes_number_of_extra_bits k /\
       load distance_codes_base k + extra_bits = compression_offset).
Proof.
  split; [|split; [|split]].
  - intros k e Hk He. destruct (length_codes_bounds k Hk) as (_ & Hbase & Htop). lia.
  - intros len Hlen.
    destruct (Z.lt_ge_cases len 227) as [Hlow|Hhigh].
    + destruct (tiling_covers literal_codes_base literal_codes_number_of_extra_bits 27
                  (tiling_of_check _ _ 27 length_codes_tiling_check) len)
        as (k & Hk & Hin).
      { change (load literal_codes_base 0) with 3.
        change (load literal_codes_base (Z.of_nat 27)) with 227. lia. }
      exists k, (len - load literal_codes_base k). split; [lia|]. split; lia.
    + exists 27, (len - 227).
      change (load literal_codes_number_of_extra_bits 27) with 5.
      change (load literal_codes_base 27) with 227. lia.
  - intros k e Hk He. destruct (distance_codes_bounds k Hk) as (_ & Hbase & Htop). lia.
  - intros d Hd.
    destruct (Z.lt_ge_cases d 24577) as [Hlow|Hhigh].
    + destruct (tiling_covers distance_codes_base distance_codes_number_of_extra_bits 29
                  (tiling_of_check _ _ 29 distance_codes_tiling_check) d)
        as (k & Hk & Hin).
      { change (load distance_codes_base 0) with 1.
        change (load distance_codes_base (Z.of_nat 29)) with 24577. lia. }
      exists k, (d - load distance_codes_base k). split; [lia|]. split; lia.
    + exists 29, (d - 24577).
      change (load distance_codes_number_of_extra_bits 29) with 13.
      change (load distance_codes_base 29) with 24577. lia.
Qed.

(** ** The Adler-32 of a buffer that continues another *)

Section Adler32From.

Variable buffer : list Z.
Hypothesis buffer_bytes : Forall is_byte buffer.
Variables lo0 hi0 : Z.

Lemma adler32_reference_loop_mod data lo hi :
  0 <= lo < 65521 -> 0 <= hi < 65521 ->
  adler32_reference_loop data lo hi
  = (fst (adler32_reference_loop data lo hi) mod 65521,
     snd (adler32_reference_loop data lo hi) mod 65521).
Proof.
  intros Hlo Hhi.
  destruct (adler32_reference_loop_range data lo hi Hlo Hhi) as [H1 H2].
  destruct (adler32_reference_loop data lo hi) as [lo' hi']. simpl in *.
  rewrite !Z.mod_small by lia. reflexivity.
Qed.

Lemma adler32_iter_from (k : nat) lo hi off :
  Z.of_nat k <= 5552 -> 0 <= off ->
  off + Z.of_nat k <= Z.of_nat (length buffer) ->
  adler32_agrees_from buffer lo0 hi0 off (lo, hi, off) ->
  exists lo' hi',
    Nat.iter k (adler32_byte buffer) (lo, hi, off) = (lo', hi', off + Z.of_nat k) /\
    0 <= lo' < 2 ^ 32 /\ 0 <= hi' < 2 ^ 32 /\
    adler32_reference_loop (take (Z.to_nat (off + Z.of_nat k)) buffer)
      (lo0 mod 65521) (hi0 mod 65521) = (lo' mod 65521, hi' mod 65521).
Proof.
  intros Hk Hoff Hlen (_ & Hlo & Hhi & Href).
  assert (Hb1 : Z.of_nat k * lo <= 5552 * 65535) by nia.
  assert (Hb2 : Z.of_nat k * (Z.of_nat k + 1) <= 5552 * 5553) by nia.
  destruct (adler32_bytes_invariant buffer buffer_bytes k lo hi off)
    as (lo' & hi' & Hiter & Hlo' & Hhi' & Hchunk);
    [lia | lia | lia | lia | lia | lia |].
  exists lo', hi'. split; [exact Hiter|]. split; [lia|]. split; [lia|].
  replace (Z.to_nat (off + Z.of_nat k)) with (Z.to_nat off + k)%nat by lia.
  rewrite <- take_take_drop, adler32_reference_loop_app, Href. exact Hchunk.
Qed.

Lemma adler32_chunk_from (k : nat) lo hi off :
  Z.of_nat k <= 5552 -> 0 <= off ->
  off + Z.of_nat k <= Z.of_nat (length buffer) ->
  adler32_agrees_from buffer lo0 hi0 off (lo, hi, off) ->
  exists lo' hi',
    Nat.iter k (adler32_byte buffer) (lo, hi, off) = (lo', hi', off + Z.of_nat k) /\
    adler32_modulo lo' < 65521 /\ adler32_modulo hi' < 65521 /\
    adler32_agrees_from buffer lo0 hi0 (off + Z.of_nat k)
      (adler32_modulo lo', adler32_modulo hi', off + Z.of_nat k).
Proof.
  intros Hk Hoff Hlen Hagree.
  destruct (adler32_iter_from k lo hi off Hk Hoff Hlen Hagree)
    as (lo' & hi' & Hiter & Hlo' & Hhi' & Href).
  exists lo', hi'. split; [exact Hiter|].
  rewrite !adler32_modulo_spec by lia.
  pose proof (Z.mod_pos_bound lo' 65521 ltac:(lia)).
  pose proof (Z.mod_pos_bound hi' 65521 ltac:(lia)).
  split; [lia|]. split; [lia|].
  split; [reflexivity|]. split; [lia|]. split; [lia|].
  rewrite !Z.mod_mod by lia. exact Href.
Qed.

Lemma adler32_blocks_from (fuel : nat) size lo hi off :
  (Z.to_nat size <= fuel)%nat -> 0 <= size -> 0 <= off ->
  off + size <= Z.of_nat (length buffer) ->
  adler32_agrees_from buffer lo0 hi0 off (lo, hi, off) ->
  exists size' st',
    adler32_blocks fuel buffer size (lo, hi, off) = Ok (size', st') /\
    0 <= size' < 0x15b0 /\ size' <= size /\
    (st' = (lo, hi, off) \/ fst (fst st') < 65521 /\ snd (fst st') < 65521) /\
    adler32_agrees_from buffer lo0 hi0 (off + (size - size')) st'.
Proof.
  revert size lo hi off. induction fuel as [|fuel IH];
    intros size lo hi off Hfuel Hsize Hoff Hlen Hst.
  - assert (size = 0) as -> by lia. exists 0, (lo, hi, off). simpl.
    split; [reflexivity|]. rewrite Z.add_0_r.
    split; [lia|]. split; [lia|]. split; [left; reflexivity|exact Hst].
  - rewrite adler32_blocks_step. destruct (0x15b0 <=? size) eqn:E.
    + apply Z.leb_le in E. rewrite adler32_block_bytes.
      assert (H5552 : Z.of_nat (347 * 16) = 5552) by reflexivity.
      destruct (adler32_chunk_from (347 * 16) lo hi off)
        as (lo1 & hi1 & Hiter & Hlo1 & Hhi1 & Hagree);
        [lia | lia | lia | exact Hst |].
      rewrite Hiter. rewrite H5552 in *.
      destruct (IH (size - 0x15b0) (adler32_modulo lo1) (adler32_modulo hi1) (off + 5552))
        as (size' & st' & Hrun & Hs1 & Hs2 & Hreduced & Hagree');
        [lia | lia | lia | lia | exact Hagree |].
      exists size', st'. split; [exact Hrun|]. split; [lia|]. split; [lia|].
      split.
      * right. destruct Hreduced as [-> | H]; [simpl; lia|exact H].
      * replace (off + (size - size')) with (off + 5552 + (size - 5552 - size')) by lia.
        exact Hagree'.
    + apply Z.leb_gt in E. exists size, (lo, hi, off).
      split; [reflexivity|]. split; [lia|]. split; [lia|]. split; [left; reflexivity|].
      replace (off + (size - size)) with off by lia. exact Hst.
Qed.

End Adler32From.

Lemma land_65535_bound x : 0 <= Z.land x 65535 < 65536.
Proof.
  change 65535 with (Z.ones 16). rewrite Z.land_ones by lia.
  apply Z.mod_pos_bound. lia.
Qed.

(** deflate_calculate_adler32 with an initial value: the reference that
    starts from the two words of the initial value; for no bytes, what the
    two words give. *)
Lemma adler32_from (buffer : list Z) (size initial_value : Z) :
  Forall is_byte buffer ->
  0 <= size <= Z.of_nat (length buffer) -> size <= SSIZE_MAX ->
  let lo0 := Z.land initial_value 0xffff in
  let hi0 := Z.land (Z.shiftr initial_value 16) 0xffff in
  deflate_calculate_adler32 buffer size initial_value =
  Ok (if size =? 0 then Z.lor (Z.shiftl hi0 16) lo0
      else
        let '(lo, hi) :=
          adler32_reference_loop (take (Z.to_nat size) buffer)
            (lo0 mod 65521) (hi0 mod 65521) in
        Z.lor (Z.shiftl hi 16) lo).
Proof.
  intros buffer_bytes Hsize Hmax lo0 hi0.
  pose proof (land_65535_bound initial_value) as Hlo0. fold lo0 in Hlo0.
  pose proof (land_65535_bound (Z.shiftr initial_value 16)) as Hhi0. fold hi0 in Hhi0.
  unfold deflate_calculate_adler32. fold lo0 hi0.
  destruct (SSIZE_MAX <? size) eqn:E; [apply Z.ltb_lt in E; lia|clear E].
  assert (Hshift : forall hi, 0 <= hi < 65536 -> uint32 (Z.shiftl hi 16) = Z.shiftl hi 16).
  { intros hi Hhi. apply uint32_small. rewrite Z.shiftl_mul_pow2 by lia. lia. }
  destruct (adler32_blocks_from buffer buffer_bytes lo0 hi0 (Z.to_nat size) size lo0 hi0 0)
    as (size1 & [[lo1 hi1] off1] & Hrun & Hs1 & Hs2 & Hreduced & Hagree); try lia.
  { unfold adler32_agrees_from. simpl. repeat split; lia. }
  rewrite Hrun. cbn [result_bind]. rewrite Z.add_0_l in Hagree.
  destruct Hagree as (Hoff1 & Hlo1 & Hhi1 & Href1).
  pose proof (Z.mod_pos_bound lo0 65521 ltac:(lia)) as Hm1.
  pose proof (Z.mod_pos_bound hi0 65521 ltac:(lia)) as Hm2.
  destruct (0 <? size1) eqn:E.
  - apply Z.ltb_lt in E.
    destruct (Z.eqb_spec size 0) as [|_]; [lia|].
    destruct (adler32_tail_16_spec buffer (Z.to_nat size) size1 (lo1, hi1, off1))
      as (size2 & Hrun2 & Ht1 & Ht2 & Ht3); [lia|].
    rewrite Hrun2. cbn [result_bind].
    rewrite adler32_tail_1_spec by lia. cbn [result_bind].
    rewrite <- Nat.iter_add.
    replace (Z.to_nat size2 + Z.to_nat (size1 - size2))%nat with (Z.to_nat size1) by lia.
    subst off1.
    destruct (adler32_chunk_from buffer buffer_bytes lo0 hi0 (Z.to_nat size1) lo1 hi1
                (size - size1))
      as (lo & hi & Hiter & Hlo & Hhi & _ & Hlo' & Hhi' & Href); try lia.
    { unfold adler32_agrees_from. repeat split; try lia. exact Href1. }
    rewrite Hiter. cbn [result_bind].
    replace (size - size1 + Z.of_nat (Z.to_nat size1)) with size in Href by lia.
    rewrite Href. rewrite !Z.mod_small by lia. rewrite Hshift by lia. reflexivity.
  - apply Z.ltb_ge in E. assert (size1 = 0) as -> by lia. cbn [result_bind fst snd].
    rewrite Z.sub_0_r in Href1, Hoff1.
    destruct (Z.eqb_spec size 0) as [->|Hnz].
    + simpl in Hrun. injection Hrun as <- <- _. rewrite Hshift by lia. reflexivity.
    + destruct Hreduced as [Hsame|[Hr1 Hr2]].
      { injection Hsame as _ _ ->. lia. }
      simpl in Hr1, Hr2. rewrite Href1. rewrite !Z.mod_small by lia.
      rewrite Hshift by lia. reflexivity.
Qed.

(** X17. deflate_calculate_adler32 with an initial value: for a buffer of
    bytes and a size within it, the result is built from the reference loop
    (lo = (lo + b) mod 65521, hi = (hi + lo) mod 65521) started from the low
    and the high 16 bits of the initial value; for size 0 it is the initial
    value as its two 16-bit halves give it, without the modulo. *)
Theorem deflate_calculate_adler32_from (buffer : list Z) (size initial_value : Z) :
  Forall is_byte buffer ->
  0 <= size <= Z.of_nat (length buffer) -> size <= SSIZE_MAX ->
  let lo0 := Z.land initial_value 0xffff in
  let hi0 := Z.land (Z.shiftr initial_value 16) 0xffff in
  deflate_calculate_adler32 buffer size initial_value =
  Ok (if size =? 0 then Z.lor (Z.shiftl hi0 16) lo0
      else
        let '(lo, hi) :=
          adler32_reference_loop (take (Z.to_nat size) buffer)
            (lo0 mod 65521) (hi0 mod 65521) in
        Z.lor (Z.shiftl hi 16) lo).
Proof. exact (adler32_from buffer size initial_value). Qed.

Lemma deflate_calculate_adler32_from_witness :
  Forall is_byte [0x61; 0x62; 0x63] /\
  0 <= 3 <= Z.of_nat (length [0x61; 0x62; 0x63]) /\ 3 <= SSIZE_MAX /\
  deflate_calculate_adler32 [0x61; 0x62; 0x63] 3 0x00620062 = Ok 0x03d20188.
Proof.
  assert (H1 : Forall is_byte [0x61; 0x62; 0x63])
    by (repeat constructor; unfold is_byte; lia).
  assert (H2 : 0 <= 3 <= Z.of_nat (length [0x61; 0x62; 0x63])) by (simpl; lia).
  assert (H3 : 3 <= SSIZE_MAX) by (unfold SSIZE_MAX; lia).
  split; [exact H1|]. split; [exact H2|]. split; [exact H3|].
  rewrite (deflate_calculate_adler32_from [0x61; 0x62; 0x63] 3 0x00620062 H1 H2 H3).
  vm_compute. reflexivity.
Defined.

Lemma adler32_words (lo hi : Z) :
  0 <= lo < 65536 -> 0 <= hi < 65536 ->
  Z.land (Z.lor (Z.shiftl hi 16) lo) 0xffff = lo /\
  Z.land (Z.shiftr (Z.lor (Z.shiftl hi 16) lo) 16) 0xffff = hi.
Proof.
  intros Hlo Hhi. change 65535 with (Z.ones 16). rewrite !Z.land_ones by lia.
  rewrite Z.shiftr_lor, Z.shiftr_shiftl_l by lia. change (16 - 16) with 0.
  rewrite Z.shiftl_0_r. rewrite (Z.shiftr_div_pow2 lo) by lia.
  rewrite (Z.div_small lo) by lia. rewrite Z.lor_0_r.
  split; [|apply Z.mod_small; lia].
  rewrite <- Z.land_ones by lia. rewrite Z.land_lor_distr_l.
  rewrite !Z.land_ones by lia. rewrite Z.shiftl_mul_pow2 by lia.
  rewrite Z.mod_mul by lia. rewrite Z.lor_0_l. apply Z.mod_small. lia.
Qed.

(** X18. The checksum of a buffer in two parts: deflate_calculate_adler32
    of the second part, with the checksum of the first part as its initial
    value, is the checksum of the two parts together. *)
Theorem deflate_calculate_adler32_app (buffer1 buffer2 : list Z) (checksum1 : Z) :
  Forall is_byte buffer1 -> Forall is_byte buffer2 ->
  Z.of_nat (length (buffer1 ++ buffer2)) <= SSIZE_MAX ->
  deflate_calculate_adler32 buffer1 (Z.of_nat (length buffer1)) 1 = Ok checksum1 ->
  deflate_calculate_adler32 buffer2 (Z.of_nat (length buffer2)) checksum1 =
  deflate_calculate_adler32 (buffer1 ++ buffer2) (Z.of_nat (length (buffer1 ++ buffer2))) 1.
Proof.
  intros Hbytes1 Hbytes2 Hmax Hfirst.
  rewrite length_app in Hmax.
  rewrite (adler32_from buffer1 (Z.of_nat (length buffer1)) 1 Hbytes1
             ltac:(lia) ltac:(lia)) in Hfirst.
  rewrite (adler32_from buffer2 (Z.of_nat (length buffer2)) checksum1 Hbytes2
             ltac:(lia) ltac:(lia)).
  rewrite (adler32_from (buffer1 ++ buffer2) (Z.of_nat (length (buffer1 ++ buffer2))) 1
             ltac:(apply Forall_app; auto) ltac:(lia) ltac:(rewrite length_app; lia)).
  cbv zeta in *. change (Z.land 1 65535) with 1 in *.
  change (Z.land (Z.shiftr 1 16) 65535) with 0 in *.
  change (1 mod 65521) with 1 in *. change (0 mod 65521) with 0 in *.
  rewrite !Nat2Z.id in *. rewrite !firstn_all in *.
  destruct (adler32_reference_loop_range buffer1 1 0 ltac:(lia) ltac:(lia)) as [Hr1 Hr2].
  destruct (adler32_reference_loop buffer1 1 0) as [lo1 hi1] eqn:Href1.
  simpl in Hr1, Hr2.
  assert (Hchecksum : checksum1 = Z.lor (Z.shiftl hi1 16) lo1 \/
                      buffer1 = [] /\ checksum1 = 1).
  { destruct buffer1 as [|b buffer1]; [right; split; [reflexivity|]|left].
    - cbv in Hfirst. injection Hfirst as <-. reflexivity.
    - simpl length in Hfirst.
      destruct (Z.eqb_spec (Z.of_nat (S (length buffer1))) 0) as [|_]; [lia|].
      injection Hfirst as <-. reflexivity. }
  destruct Hchecksum as [->|[-> ->]].
  - destruct (adler32_words lo1 hi1 ltac:(lia) ltac:(lia)) as [-> ->].
    rewrite !Z.mod_small by lia.
    rewrite adler32_reference_loop_app, Href1.
    destruct buffer2 as [|b buffer2].
    + simpl. destruct buffer1 as [|b1 buffer1].
      * simpl in Href1. injection Href1 as <- <-. reflexivity.
      * simpl length.
        destruct (Z.eqb_spec (Z.of_nat (S (length buffer1) + 0)) 0) as [|_]; [lia|].
        reflexivity.
    + rewrite length_app. simpl length.
      destruct (Z.eqb_spec (Z.of_nat (S (length buffer2))) 0) as [|_]; [lia|].
      destruct (Z.eqb_spec (Z.of_nat (length buffer1 + S (length buffer2))) 0) as [|_];
        [lia|].
      reflexivity.
  - simpl app. change (Z.land 1 65535) with 1.
    change (Z.land (Z.shiftr 1 16) 65535) with 0.
    change (1 mod 65521) with 1. change (0 mod 65521) with 0.
    destruct buffer2 as [|b buffer2]; reflexivity.
Qed.

Lemma deflate_calculate_adler32_app_witness :
  Forall is_byte [0x61] /\ Forall is_byte [0x61; 0x62; 0x63] /\
  deflate_calculate_adler32 [0x61] 1 1 = Ok 0x00620062 /\
  deflate_calculate_adler32 [0x61; 0x62; 0x63] 3 0x00620062 =
  deflate_calculate_adler32 [0x61; 0x61; 0x62; 0x63] 4 1.
Proof.
  assert (H1 : Forall is_byte [0x61]) by (repeat constructor; unfold is_byte; lia).
  assert (H2 : Forall is_byte [0x61; 0x62; 0x63])
    by (repeat constructor; unfold is_byte; lia).
  assert (H3 : deflate_calculate_adler32 [0x61] 1 1 = Ok 0x00620062)
    by (vm_compute; reflexivity).
  split; [exact H1|]. split; [exact H2|]. split; [exact H3|].
  apply (deflate_calculate_adler32_app [0x61] [0x61; 0x62; 0x63] 0x00620062 H1 H2);
    [unfold SSIZE_MAX; simpl; lia|exact H3].
Defined.

(** ** The trailer *)

(** deflate.c 2018-2022: the whole bytes of the bit buffer are given back. *)
Lemma trailer_rewind_spec (fuel : nat) bs :
  0 <= bit_buffer_size bs <= Z.of_nat fuel ->
  trailer_rewind fuel bs =
  Ok {| byte_stream := byte_stream bs;
        byte_stream_size := byte_stream_size bs;
        byte_stream_offset := byte_stream_offset bs - bit_buffer_size bs / 8;
        bit_buffer := bit_buffer bs;
        bit_buffer_size := bit_buffer_size bs mod 8 |}.
Proof.
  revert bs. induction fuel as [|fuel IH]; intros bs Hsize; simpl.
  - assert (Hzero : bit_buffer_size bs = 0) by lia.
    destruct bs as [bytes size offset buffer count]. simpl in *. subst count.
    simpl. rewrite Z.sub_0_r. reflexivity.
  - destruct (Z.leb_spec 8 (bit_buffer_size bs)) as [Hge|Hlt].
    + rewrite IH by (simpl; lia). simpl.
      replace (bit_buffer_size bs) with (bit_buffer_size bs - 8 + 1 * 8) at 3 4 by lia.
      rewrite Z.div_add, Z.mod_add by lia. f_equal. f_equal. lia.
    + rewrite Z.div_small, Z.mod_small by lia.
      destruct bs as [bytes size offset buffer count]. simpl. rewrite Z.sub_0_r.
      reflexivity.
Qed.

(** X19. The Adler-32 trailer (deflate.c 2016-2071): the checksum is
    compared only when at least 4 bytes of the byte stream have not been
    loaded into the bit buffer; then the whole bytes of the bit buffer are
    given back, the next 4 bytes are read as a big-endian value, and the
    call succeeds exactly when this value is the reference Adler-32 of the
    output written. With fewer than 4 such bytes the call succeeds without
    a comparison. *)
Theorem decompress_trailer_checks (uncompressed_data : list Z)
    (uncompressed_data_offset : Z) (bs : deflate_bit_stream) :
  Forall is_byte uncompressed_data ->
  0 <= uncompressed_data_offset <= Z.of_nat (length uncompressed_data) ->
  uncompressed_data_offset <= SSIZE_MAX ->
  0 <= bit_buffer_size bs ->
  decompress_trailer uncompressed_data uncompressed_data_offset bs =
  if 4 <=? byte_stream_size bs - byte_stream_offset bs then
    if byte_stream_copy_to_uint32_big_endian (byte_stream bs)
         (byte_stream_offset bs - bit_buffer_size bs / 8)
       =? adler32_reference (take (Z.to_nat uncompressed_data_offset) uncompressed_data)
    then Ok (uncompressed_data, uncompressed_data_offset)
    else Error ChecksumMismatch
  else Ok (uncompressed_data, uncompressed_data_offset).
Proof.
  intros Hbytes Hoffset Hmax Hsize. unfold decompress_trailer.
  destruct (4 <=? _); [|reflexivity].
  rewrite trailer_rewind_spec by lia. cbn [result_bind byte_stream byte_stream_offset].
  rewrite (adler32_from uncompressed_data uncompressed_data_offset 1 Hbytes Hoffset Hmax).
  cbn [result_bind]. cbv zeta.
  change (Z.land 1 65535) with 1. change (Z.land (Z.shiftr 1 16) 65535) with 0.
  change (1 mod 65521) with 1. change (0 mod 65521) with 0.
  assert (Hreference :
    (if uncompressed_data_offset =? 0 then Z.lor (Z.shiftl 0 16) 1
     else let '(lo, hi) :=
            adler32_reference_loop
              (take (Z.to_nat uncompressed_data_offset) uncompressed_data) 1 0 in
          Z.lor (Z.shiftl hi 16) lo)
    = adler32_reference (take (Z.to_nat uncompressed_data_offset) uncompressed_data)).
  { destruct (Z.eqb_spec uncompressed_data_offset 0) as [->|_]; reflexivity. }
  rewrite Hreference. clear Hreference. destruct (_ =? _); reflexivity.
Qed.

Lemma decompress_trailer_checks_witness :
  let bs := {| byte_stream := [0x4B; 0x04; 0x00; 0x00; 0x62; 0x00; 0x62];
               byte_stream_size := 7; byte_stream_offset := 3;
               bit_buffer := 0; bit_buffer_size := 6 |} in
  Forall is_byte [0x61] /\ 0 <= 1 <= Z.of_nat (length [0x61]) /\ 1 <= SSIZE_MAX /\
  0 <= bit_buffer_size bs /\
  decompress_trailer [0x61] 1 bs = Ok ([0x61], 1).
Proof.
  intros bs.
  assert (H1 : Forall is_byte [0x61]) by (repeat constructor; unfold is_byte; lia).
  assert (H2 : 0 <= 1 <= Z.of_nat (length [0x61])) by (simpl; lia).
  assert (H3 : 1 <= SSIZE_MAX) by (unfold SSIZE_MAX; lia).
  assert (H4 : 0 <= bit_buffer_size bs) by (simpl; lia).
  split; [exact H1|]. split; [exact H2|]. split; [exact H3|]. split; [exact H4|].
  rewrite (decompress_trailer_checks [0x61] 1 bs H1 H2 H3 H4). vm_compute. reflexivity.
Defined.
